(** * x84 oracle agent: task store, A2A task lifecycle and retrieval store

    A shallow embedding of the executable core of the oracle agent:
    - [Store]: the SQLite-backed session and task tables (store.ts);
    - [Server]: the JSON-RPC handlers of the hand-written A2A endpoint,
      cut at their suspension points so that runs can be interleaved;
    - [Executor]: the executor of the SDK-based endpoint;
    - [Rag]: the markdown chunker, the embedding cache and top-k search.

    Conventions.  [Date.now()] and [uuidv4()] are readings of the
    environment and are passed in as arguments.  A JS exception is an
    explicit [Throw] result.  JSON text written to and read back from a
    column is stored as the value it encodes. *)

From stdpp Require Import gmap strings list sorting.
From Stdlib Require Import ZArith PrimFloat DecimalString DecimalNat.

Local Open Scope string_scope.
Local Open Scope list_scope.
Local Open Scope Z_scope.

(** JavaScript truthiness of a string: only the empty string is falsy. *)
Definition truthy (s : string) : bool := negb (bool_decide (s = "")).

(** [o ? o : undefined] on an optional string. *)
Definition truthy_opt (o : option string) : option string :=
  match o with
  | Some s => if truthy s then Some s else None
  | None => None
  end.

(** Result of a call that may throw. *)
Inductive Result (A : Type) : Type :=
  | Ok (a : A)
  | Throw (msg : string).
Arguments Ok {A} a.
Arguments Throw {A} msg.

(* ================================================================== *)
(** * The SQLite store (store.ts) *)

Module Store.

Inductive TaskState : Set :=
  | submitted
  | working
  | input_required
  | completed
  | failed
  | canceled.

#[global] Instance TaskState_eq_dec : EqDecision TaskState.
Proof. solve_decision. Defined.

(** [{ type: string; text?: string }] *)
Record Part : Set := mkPart { ptype : string; ptext : option string }.

(** [TaskArtifact] *)
Record TaskArtifact : Set := mkArtifact {
  a_name : string;
  a_parts : list Part;
  a_append : option bool
}.

Record TaskStatus : Set := mkStatus {
  state : TaskState;
  message : option string
}.

Record Task : Set := mkTask {
  task_id : string;
  contextId : string;
  status : TaskStatus;
  artifacts : list TaskArtifact;
  createdAt : Z;
  updatedAt : Z
}.

(** A row of table [tasks].  Column [message] is nullable; column
    [artifacts] holds the JSON text of a [TaskArtifact[]]. *)
Record TaskRow : Set := mkRow {
  row_id : string;
  row_context_id : string;
  row_state : TaskState;
  row_message : option string;
  row_artifacts : list TaskArtifact;
  row_created_at : Z;
  row_updated_at : Z
}.

(** A row of table [sessions], keyed by [context_id]. *)
Record SessionRow : Set := mkSession {
  response_id : string;
  session_updated_at : Z
}.

(** The database: [tasks] in rowid order, [sessions] by primary key. *)
Record Db : Type := mkDb {
  tasks : list TaskRow;
  sessions : gmap string SessionRow
}.

Definition empty : Db := mkDb [] ∅.

(** ** Prepared statements *)

(** [SELECT * FROM tasks WHERE id = ?] *)
Definition taskGet (taskId : string) (rows : list TaskRow) : option TaskRow :=
  snd <$> list_find (λ r, row_id r = taskId) rows.

(** [INSERT INTO tasks ...]: [id] is the primary key, so inserting a
    taken id fails with a constraint error. *)
Definition taskInsert (r : TaskRow) (rows : list TaskRow) : Result (list TaskRow) :=
  match taskGet (row_id r) rows with
  | Some _ => Throw "UNIQUE constraint failed: tasks.id"
  | None => Ok (rows ++ [r])
  end.

(** [UPDATE tasks SET state = ?, message = ?, updated_at = ? WHERE id = ?] *)
Definition taskUpdateStatus (s : TaskState) (m : option string) (now : Z)
    (taskId : string) (rows : list TaskRow) : list TaskRow :=
  (λ r, if decide (row_id r = taskId)
        then mkRow (row_id r) (row_context_id r) s m (row_artifacts r)
                   (row_created_at r) now
        else r) <$> rows.

(** [UPDATE tasks SET artifacts = ?, updated_at = ? WHERE id = ?] *)
Definition taskSetArtifacts (arts : list TaskArtifact) (now : Z)
    (taskId : string) (rows : list TaskRow) : list TaskRow :=
  (λ r, if decide (row_id r = taskId)
        then mkRow (row_id r) (row_context_id r) (row_state r) (row_message r)
                   arts (row_created_at r) now
        else r) <$> rows.

Definition is_active (contextId : string) (r : TaskRow) : bool :=
  bool_decide (row_context_id r = contextId)
  && bool_decide (row_state r = input_required).

(** [SELECT * FROM tasks WHERE context_id = ? AND state = 'input-required'
     ORDER BY updated_at DESC LIMIT 1].  Among rows with the same
    [updated_at] SQL leaves the choice open; the earliest row is taken. *)
Definition activeTaskByContext (contextId : string) (rows : list TaskRow)
    : option TaskRow :=
  foldl (λ best r,
           if is_active contextId r then
             match best with
             | None => Some r
             | Some b => if row_updated_at b <? row_updated_at r
                         then Some r else Some b
             end
           else best)
        None rows.

(** ** Session methods *)

Definition getSession (db : Db) (contextId : string) : option string :=
  response_id <$> sessions db !! contextId.

Definition setSession (db : Db) (now : Z) (contextId responseId : string) : Db :=
  mkDb (tasks db) (<[contextId := mkSession responseId now]> (sessions db)).

(** ** Task methods *)

Definition rowToTask (row : TaskRow) : Task :=
  mkTask (row_id row) (row_context_id row)
         (mkStatus (row_state row) (truthy_opt (row_message row)))
         (row_artifacts row) (row_created_at row) (row_updated_at row).

Definition createTask (db : Db) (now : Z) (id contextId : string)
    : Result (Task * Db) :=
  match taskInsert (mkRow id contextId submitted None [] now now) (tasks db) with
  | Throw e => Throw e
  | Ok rows => Ok (mkTask id contextId (mkStatus submitted None) [] now now,
                   mkDb rows (sessions db))
  end.

Definition getTask (db : Db) (taskId : string) : option Task :=
  rowToTask <$> taskGet taskId (tasks db).

Definition getActiveTask (db : Db) (contextId : string) : option Task :=
  rowToTask <$> activeTaskByContext contextId (tasks db).

Definition updateTaskStatus (db : Db) (now : Z) (taskId : string)
    (s : TaskState) (m : option string) : Db :=
  mkDb (taskUpdateStatus s m now taskId (tasks db)) (sessions db).

Definition setTaskArtifacts (db : Db) (now : Z) (taskId : string)
    (arts : list TaskArtifact) : Db :=
  mkDb (taskSetArtifacts arts now taskId (tasks db)) (sessions db).

Definition is_text (p : Part) : Prop := ptype p = "text".

#[global] Instance is_text_dec p : Decision (is_text p).
Proof. unfold is_text. apply _. Defined.

Definition text_part (text : string) : Part := mkPart "text" (Some text).

(** The body of [appendToTaskArtifact] on the parts of [artifacts[0]]:
    [find] the first text part and extend it in place, or [push] one. *)
Definition append_parts (text : string) (ps : list Part) : list Part :=
  match list_find is_text ps with
  | Some (i, textPart) =>
      <[i := mkPart (ptype textPart) (Some (default "" (ptext textPart) +:+ text))]> ps
  | None => ps ++ [text_part text]
  end.

Definition append_artifacts (text : string) (arts : list TaskArtifact)
    : list TaskArtifact :=
  match arts with
  | [] => [mkArtifact "response" [text_part text] None]
  | last :: rest =>
      mkArtifact (a_name last) (append_parts text (a_parts last)) (a_append last)
      :: rest
  end.

Definition appendToTaskArtifact (db : Db) (now : Z) (taskId text : string) : Db :=
  match getTask db taskId with
  | None => db
  | Some task =>
      mkDb (taskSetArtifacts (append_artifacts text (artifacts task)) now taskId
                             (tasks db))
           (sessions db)
  end.

(** The text an artifact carries: that of its first text part. *)
Definition artifact_text (a : TaskArtifact) : string :=
  match list_find is_text (a_parts a) with
  | Some (_, p) => default "" (ptext p)
  | None => ""
  end.

(** ** Queries and maintenance *)

(** [SELECT * FROM tasks WHERE context_id = ? ORDER BY created_at DESC].
    Among rows with the same [created_at] SQL leaves the order open; the
    merge sort fixes one, which need not be the one SQLite returns, and
    nothing is stated about it. *)
Definition created_not_before (a b : TaskRow) : Prop :=
  row_created_at b ≤ row_created_at a.

#[global] Instance created_not_before_dec a b : Decision (created_not_before a b).
Proof. unfold created_not_before. apply _. Defined.

Definition tasksByContext (contextId : string) (rows : list TaskRow)
    : list TaskRow :=
  merge_sort created_not_before
             (filter (λ r, row_context_id r = contextId) rows).

Definition getTasksByContext (db : Db) (contextId : string) : list Task :=
  rowToTask <$> tasksByContext contextId (tasks db).

(** [prune]: both [DELETE ... WHERE updated_at < sevenDaysAgo], with
    [sevenDaysAgo = Date.now() - 7 * 24 * 60 * 60 * 1000]. *)
Definition prune (db : Db) (now : Z) : Db :=
  let sevenDaysAgo := now - 7 * 24 * 60 * 60 * 1000 in
  mkDb (filter (λ r, ¬ row_updated_at r < sevenDaysAgo) (tasks db))
       (filter (λ kv, ¬ session_updated_at kv.2 < sevenDaysAgo) (sessions db)).

End Store.
(* ================================================================== *)
(** * The A2A JSON-RPC endpoint (server with the SQLite task store) *)

Module Server.
Import Store.

(** The one-character string ["\n"]. *)
Definition nl : string := String (Ascii.ascii_of_nat 10) EmptyString.

(** ** Wire types *)

Record MessagePart : Set := mkMsgPart { mp_type : string; mp_text : option string }.

Record A2AMessage : Set := mkMessage { role : string; mparts : list MessagePart }.

Record Params : Set := mkParams {
  p_message : option A2AMessage;
  p_contextId : option string;
  p_id : option string
}.

(** The JSON-RPC envelope; its [id] is echoed unchanged in every reply
    and is left out. *)
Record A2AJsonRpcRequest : Set := mkRequest {
  method : string;
  params : option Params
}.

(** What [taskToA2A] returns ([kind] is the constant ["task"]). *)
Record A2ATask : Set := mkA2ATask {
  a2a_id : string;
  a2a_contextId : string;
  a2a_status : TaskStatus;
  a2a_artifacts : list TaskArtifact
}.

(** A [data:] line written to the SSE response. *)
Inductive SseEvent : Set :=
  | StatusUpdate (taskId contextId : string) (st : TaskState) (msg : option string)
  | ArtifactUpdate (taskId contextId : string) (artifact : TaskArtifact)
  | TaskSnapshot (task : A2ATask)
  | DONE.

(** What the caller receives: a JSON-RPC error with its HTTP status, a
    JSON-RPC result, or the SSE lines written ([ended] tells whether
    [res.end()] was reached). *)
Inductive Response : Set :=
  | RpcError (http : Z) (code : Z) (msg : string)
  | RpcResult (task : A2ATask)
  | EventStream (events : list SseEvent) (ended : bool).

(** ** The generation collaborator *)

(** What [run(agent, ...)] settles to.  A thrown value is an [Error]
    carrying its [message]. *)
Inductive RunResult : Set :=
  | RunThrows (msg : string)
  | RunReturns (finalOutput lastResponseId : option string).

(** What happens on the event loop while a handler is suspended in
    [await]: the agent invokes the [request_clarification] tool, or a
    [tasks/cancel] request is served. *)
Inductive Interrupt : Set :=
  | Clarification
  | CancelArrives (taskId : option string) (now : Z).

(** What a suspended run delivers, in order: a
    [response.output_text.delta] event with its [delta], any other
    stream event, or an interrupt. *)
Inductive StreamItem : Set :=
  | ModelDelta (delta : option string)
  | OtherEvent
  | Meanwhile (i : Interrupt).

(** The environment of one request: the [uuidv4()] values, the
    [Date.now()] readings per call site, what happens during the run
    and how the run settles. *)
Record Env : Type := mkEnv {
  uuid_context : string;
  uuid_task : string;
  clock : nat → Z;
  during : list StreamItem;
  outcome : RunResult
}.

(** ** Server state: the variables [createServer] closes over *)

Record Srv : Type := mkSrv {
  store : Db;
  inputRequiredFlags : gmap string bool;
  activeRunTaskId : option string;
  abortControllers : gmap string nat;
  (** the [AbortController] objects allocated so far: [signal.aborted] *)
  controllers : list bool
}.

Definition init : Srv := mkSrv Store.empty ∅ None ∅ [].

Definition with_store (s : Srv) (db : Db) : Srv :=
  mkSrv db (inputRequiredFlags s) (activeRunTaskId s) (abortControllers s)
        (controllers s).

Definition with_flags (s : Srv) (f : gmap string bool) : Srv :=
  mkSrv (store s) f (activeRunTaskId s) (abortControllers s) (controllers s).

Definition with_active (s : Srv) (a : option string) : Srv :=
  mkSrv (store s) (inputRequiredFlags s) a (abortControllers s) (controllers s).

(** ** Helpers *)

Definition wanted (p : MessagePart) : bool :=
  bool_decide (mp_type p = "text")
  && match mp_text p with Some t => truthy t | None => false end.

Definition extractText (m : A2AMessage) : string :=
  String.concat nl ((λ p, default "" (mp_text p)) <$> List.filter wanted (mparts m)).

Definition taskToA2A (task : Task) : A2ATask :=
  mkA2ATask (task_id task) (Store.contextId task) (status task) (artifacts task).

Definition state_name (st : TaskState) : string :=
  match st with
  | submitted => "submitted"
  | working => "working"
  | input_required => "input-required"
  | completed => "completed"
  | failed => "failed"
  | canceled => "canceled"
  end.

(** The [TypeError] raised by [taskToA2A(store.getTask(taskId)!)] when
    the task is missing. *)
Definition type_error : string :=
  "Cannot read properties of undefined (reading 'id')".

(** The callback handed to [createOracleAgent]. *)
Definition onInputRequired (s : Srv) : Srv :=
  match activeRunTaskId s with
  | Some t => if truthy t
              then with_flags s (<[t := true]> (inputRequiredFlags s))
              else s
  | None => s
  end.

Definition resolveTask (s : Srv) (now : Z) (uuid contextId : string)
    : Result (string * bool * Srv) :=
  match getActiveTask (store s) contextId with
  | Some active => Ok (task_id active, true, s)
  | None =>
      match createTask (store s) now uuid contextId with
      | Throw e => Throw e
      | Ok (_, db) => Ok (uuid, false, with_store s db)
      end
  end.

Definition resolveEndState (s : Srv) (taskId : string) : TaskState * Srv :=
  let flagged := inputRequiredFlags s !! taskId in
  (if default false flagged then input_required else completed,
   with_flags s (delete taskId (inputRequiredFlags s))).

(** ** [tasks/get] *)

Definition tasksGet (s : Srv) (ps : option Params) : Srv * Response :=
  match ps ≫= p_id with
  | None => (s, RpcError 400 (-32602) "Missing task id in params")
  | Some taskId =>
      if negb (truthy taskId)
      then (s, RpcError 400 (-32602) "Missing task id in params")
      else match getTask (store s) taskId with
           | None => (s, RpcError 404 (-32001) ("Task not found: " +:+ taskId))
           | Some task => (s, RpcResult (taskToA2A task))
           end
  end.

(** ** [tasks/cancel] *)

Definition abort (s : Srv) (taskId : string) : Srv :=
  match abortControllers s !! taskId with
  | Some ac =>
      mkSrv (store s) (inputRequiredFlags s) (activeRunTaskId s)
            (delete taskId (abortControllers s))
            (<[ac := true]> (controllers s))
  | None => s
  end.

Definition tasksCancel (s : Srv) (ps : option Params) (now : Z) : Srv * Response :=
  match ps ≫= p_id with
  | None => (s, RpcError 400 (-32602) "Missing task id in params")
  | Some taskId =>
      if negb (truthy taskId)
      then (s, RpcError 400 (-32602) "Missing task id in params")
      else match getTask (store s) taskId with
           | None => (s, RpcError 404 (-32001) ("Task not found: " +:+ taskId))
           | Some task =>
               if bool_decide (state (status task) = completed)
                  || bool_decide (state (status task) = failed)
               then (s, RpcError 400 (-32002)
                          ("Task already " +:+ state_name (state (status task))))
               else
                 let s1 := abort s taskId in
                 let s2 := with_store s1
                             (updateTaskStatus (store s1) now taskId canceled
                                               (Some "Canceled by client")) in
                 match getTask (store s2) taskId with
                 | Some updated => (s2, RpcResult (taskToA2A updated))
                 | None => (s2, RpcError 500 (-32603) type_error)
                 end
           end
  end.

(** An interrupt taking place while some handler is suspended. *)
Definition interrupt (s : Srv) (i : Interrupt) : Srv :=
  match i with
  | Clarification => onInputRequired s
  | CancelArrives taskId now =>
      fst (tasksCancel s (Some (mkParams None None taskId)) now)
  end.

(** The validation shared by [message/send] and [message/stream]. *)
Definition userTextOf (ps : option Params) : Result string :=
  match ps ≫= p_message with
  | None => Throw "Missing message in params"
  | Some message =>
      let userText := extractText message in
      if negb (truthy userText) then Throw "Empty message text" else Ok userText
  end.

(** A handler suspended in [await run(...)]. *)
Record Pending : Set := mkPending {
  run_taskId : string;
  run_contextId : string;
  run_resumed : bool;
  run_previousResponseId : option string;
  (** the handler's own [AbortController] ([message/stream] only) *)
  run_ac : nat
}.

Definition workingMsg (resumed : bool) : string :=
  if resumed then "Continuing..." else "Thinking...".

Definition response_artifact (text : string) : TaskArtifact :=
  mkArtifact "response" [text_part text] None.

(** ** [message/send] *)

(** Up to and including [activeRunTaskId = taskId]. *)
Definition send_begin (s : Srv) (ps : option Params) (e : Env)
    : Srv * (Response + Pending) :=
  match userTextOf ps with
  | Throw m => (s, inl (RpcError 400 (-32602) m))
  | Ok _ =>
      let contextId := default (uuid_context e) (ps ≫= p_contextId) in
      match resolveTask s (clock e 0) (uuid_task e) contextId with
      | Throw m => (s, inl (RpcError 500 (-32603) m))
      | Ok (taskId, resumed, s1) =>
          let previousResponseId := getSession (store s1) contextId in
          let s2 := with_store s1
                      (updateTaskStatus (store s1) (clock e 1) taskId working
                                        (Some (workingMsg resumed))) in
          (with_active s2 (Some taskId),
           inr (mkPending taskId contextId resumed previousResponseId 0))
      end
  end.

(** The [catch] block of [message/send]; the rethrown error reaches the
    outer [catch], which answers 500. *)
Definition send_catch (s : Srv) (p : Pending) (now : Z) (m : string)
    : Srv * Response :=
  let s1 := with_active s None in
  let s2 := with_flags s1 (delete (run_taskId p) (inputRequiredFlags s1)) in
  let s3 := with_store s2
              (updateTaskStatus (store s2) now (run_taskId p) failed (Some m)) in
  (s3, RpcError 500 (-32603) m).

(** From the moment [run] settles. *)
Definition send_end (s : Srv) (p : Pending) (e : Env) (r : RunResult)
    : Srv * Response :=
  match r with
  | RunThrows m => send_catch s p (clock e 5) m
  | RunReturns finalOutput lastResponseId =>
      let taskId := run_taskId p in
      let s1 := with_active s None in
      let output := default "I was unable to generate a response." finalOutput in
      let s2 := match truthy_opt lastResponseId with
                | Some rid =>
                    with_store s1 (setSession (store s1) (clock e 2)
                                              (run_contextId p) rid)
                | None => s1
                end in
      let '(endState, s3) := resolveEndState s2 taskId in
      let s4 := with_store s3
                  (setTaskArtifacts (store s3) (clock e 3) taskId
                                    [response_artifact output]) in
      let s5 := with_store s4
                  (updateTaskStatus (store s4) (clock e 4) taskId endState None) in
      match getTask (store s5) taskId with
      | Some task => (s5, RpcResult (taskToA2A task))
      | None => send_catch s5 p (clock e 5) type_error
      end
  end.

(** The interrupts among the items of a run. *)
Definition interrupts (items : list StreamItem) : list Interrupt :=
  omap (λ it, match it with Meanwhile i => Some i | _ => None end) items.

Definition messageSend (s : Srv) (ps : option Params) (e : Env) : Srv * Response :=
  match send_begin s ps e with
  | (s1, inl resp) => (s1, resp)
  | (s1, inr p) =>
      send_end (foldl interrupt s1 (interrupts (during e))) p e (outcome e)
  end.

(** ** [message/stream] *)

Definition aborted (s : Srv) (ac : nat) : bool :=
  default false (controllers s !! ac).

(** Up to and including [activeRunTaskId = taskId]; the second
    component of a suspended handler is what it has written so far. *)
Definition stream_begin (s : Srv) (ps : option Params) (e : Env)
    : Srv * (Response + Pending * list SseEvent) :=
  match userTextOf ps with
  | Throw m => (s, inl (RpcError 400 (-32602) m))
  | Ok _ =>
      let contextId := default (uuid_context e) (ps ≫= p_contextId) in
      match resolveTask s (clock e 0) (uuid_task e) contextId with
      | Throw m => (s, inl (RpcError 500 (-32603) m))
      | Ok (taskId, resumed, s1) =>
          let previousResponseId := getSession (store s1) contextId in
          let ac := length (controllers s1) in
          let s2 := mkSrv (store s1) (inputRequiredFlags s1) (activeRunTaskId s1)
                          (<[taskId := ac]> (abortControllers s1))
                          (controllers s1 ++ [false]) in
          let s3 := if resumed
                    then with_store s2
                           (setTaskArtifacts (store s2) (clock e 6) taskId [])
                    else s2 in
          let s4 := with_store s3
                      (updateTaskStatus (store s3) (clock e 1) taskId working
                                        (Some (workingMsg resumed))) in
          (with_active s4 (Some taskId),
           inr (mkPending taskId contextId resumed previousResponseId ac,
                [StatusUpdate taskId contextId working (Some (workingMsg resumed))]))
      end
  end.

(** The variables of the [for await] loop. *)
Record Loop : Type := mkLoop {
  l_srv : Srv;
  l_fullText : string;
  l_events : list SseEvent;
  (** number of stream events received *)
  l_count : nat;
  (** left through [break] *)
  l_broke : bool
}.

(** One item delivered to the suspended loop. *)
Definition stream_item (p : Pending) (e : Env) (l : Loop) (it : StreamItem) : Loop :=
  if l_broke l then l
  else match it with
       | Meanwhile i =>
           mkLoop (interrupt (l_srv l) i) (l_fullText l) (l_events l) (l_count l) false
       | OtherEvent =>
           if aborted (l_srv l) (run_ac p)
           then mkLoop (l_srv l) (l_fullText l) (l_events l) (l_count l) true
           else mkLoop (l_srv l) (l_fullText l) (l_events l) (S (l_count l)) false
       | ModelDelta d =>
           if aborted (l_srv l) (run_ac p)
           then mkLoop (l_srv l) (l_fullText l) (l_events l) (l_count l) true
           else
             let delta := default "" d in
             let s := l_srv l in
             mkLoop (with_store s
                       (appendToTaskArtifact (store s) (clock e (10 + l_count l))
                                             (run_taskId p) delta))
                    (l_fullText l +:+ delta)
                    (l_events l ++
                       [ArtifactUpdate (run_taskId p) (run_contextId p)
                          (mkArtifact "response" [text_part delta] (Some true))])
                    (S (l_count l)) false
       end.

(** The [finally] block. *)
Definition stream_finally (s : Srv) (p : Pending) : Srv :=
  mkSrv (store s) (inputRequiredFlags s) (activeRunTaskId s)
        (delete (run_taskId p) (abortControllers s)) (controllers s).

(** [sendEvent(taskToA2A(store.getTask(taskId)!)); res.write("[DONE]");
    res.end()], and what is left when [getTask] finds nothing. *)
Definition close_stream (s : Srv) (p : Pending) (events : list SseEvent)
    : option Response :=
  match getTask (store s) (run_taskId p) with
  | Some task => Some (EventStream (events ++ [TaskSnapshot (taskToA2A task); DONE]) true)
  | None => None
  end.

(** The [catch] block of [message/stream] followed by [finally]. *)
Definition stream_catch (s : Srv) (p : Pending) (events : list SseEvent)
    (now : Z) (m : string) : Srv * Response :=
  let s1 := with_active s None in
  let s2 := with_flags s1 (delete (run_taskId p) (inputRequiredFlags s1)) in
  let s3 := with_store s2
              (updateTaskStatus (store s2) now (run_taskId p) failed (Some m)) in
  let events1 := events ++ [StatusUpdate (run_taskId p) (run_contextId p) failed (Some m)] in
  (stream_finally s3 p,
   default (EventStream events1 false) (close_stream s3 p events1)).

(** After the loop, on the path taken when the controller was aborted. *)
Definition stream_canceled (s : Srv) (p : Pending) (events : list SseEvent) (e : Env)
    : Srv * Response :=
  let s1 := with_flags s (delete (run_taskId p) (inputRequiredFlags s)) in
  let s2 := with_store s1
              (updateTaskStatus (store s1) (clock e 7) (run_taskId p) canceled
                                (Some "Canceled by client")) in
  let events1 := events ++
                   [StatusUpdate (run_taskId p) (run_contextId p) canceled
                                 (Some "Canceled by client")] in
  match close_stream s2 p events1 with
  | Some resp => (stream_finally s2 p, resp)
  | None => stream_catch s2 p events1 (clock e 5) type_error
  end.

(** After the loop, when the stream was exhausted without abort. *)
Definition stream_settled (s : Srv) (p : Pending) (fullText : string)
    (events : list SseEvent) (e : Env) (finalOutput lastResponseId : option string)
    : Srv * Response :=
  let taskId := run_taskId p in
  let fallback := if truthy fullText then None else truthy_opt finalOutput in
  let s1 := match fallback with
            | Some out =>
                with_store s
                  (setTaskArtifacts (store s) (clock e 3) taskId [response_artifact out])
            | None => s
            end in
  let events1 := match fallback with
                 | Some out =>
                     events ++ [ArtifactUpdate taskId (run_contextId p)
                                  (response_artifact out)]
                 | None => events
                 end in
  let s2 := match truthy_opt lastResponseId with
            | Some rid =>
                with_store s1 (setSession (store s1) (clock e 2) (run_contextId p) rid)
            | None => s1
            end in
  let '(endState, s3) := resolveEndState s2 taskId in
  let s4 := with_store s3
              (updateTaskStatus (store s3) (clock e 4) taskId endState None) in
  let events2 := events1 ++
                   [StatusUpdate taskId (run_contextId p) endState
                      (if bool_decide (endState = input_required)
                       then Some "Waiting for user input" else None)] in
  match close_stream s4 p events2 with
  | Some resp => (stream_finally s4 p, resp)
  | None => stream_catch s4 p events2 (clock e 5) type_error
  end.

(** From the moment the loop is left, by [break], by exhaustion of the
    stream or by an exception of the run. *)
Definition stream_end (p : Pending) (e : Env) (l : Loop) (r : RunResult)
    : Srv * Response :=
  if l_broke l then stream_canceled (with_active (l_srv l) None) p (l_events l) e
  else match r with
       | RunThrows m => stream_catch (l_srv l) p (l_events l) (clock e 5) m
       | RunReturns finalOutput lastResponseId =>
           let s1 := with_active (l_srv l) None in
           if aborted s1 (run_ac p)
           then stream_canceled s1 p (l_events l) e
           else stream_settled s1 p (l_fullText l) (l_events l) e
                               finalOutput lastResponseId
       end.

Definition messageStream (s : Srv) (ps : option Params) (e : Env) : Srv * Response :=
  match stream_begin s ps e with
  | (s1, inl resp) => (s1, resp)
  | (s1, inr (p, events)) =>
      stream_end p e (foldl (stream_item p e) (mkLoop s1 "" events 0 false) (during e))
                 (outcome e)
  end.

(** ** [POST /a2a] *)

Definition a2a (s : Srv) (req : A2AJsonRpcRequest) (e : Env) : Srv * Response :=
  if bool_decide (method req = "tasks/get") then tasksGet s (params req)
  else if bool_decide (method req = "tasks/cancel")
  then tasksCancel s (params req) (clock e 0)
  else if bool_decide (method req = "message/send")
          || bool_decide (method req = "tasks/send")
  then messageSend s (params req) e
  else if bool_decide (method req = "message/stream")
          || bool_decide (method req = "tasks/sendSubscribe")
  then messageStream s (params req) e
  else (s, RpcError 400 (-32601) ("Method not found: " +:+ method req)).

(** The server after serving the requests one after the other. *)
Definition serve (s : Srv) (reqs : list (A2AJsonRpcRequest * Env)) : Srv :=
  foldl (λ s re, fst (a2a s re.1 re.2)) s reqs.

(** ** Requests used in the statements *)

Definition cancel_params (taskId : string) : option Params :=
  Some (mkParams None None (Some taskId)).

(** [tasks/cancel] and [tasks/get] for a task id. *)
Definition cancel_request (taskId : string) : A2AJsonRpcRequest :=
  mkRequest "tasks/cancel" (cancel_params taskId).

Definition get_request (taskId : string) : A2AJsonRpcRequest :=
  mkRequest "tasks/get" (Some (mkParams None None (Some taskId))).

(** A handler gives up control only in [await run(...)], so two
    overlapping [message/send] requests execute as their segments in
    some order.  Here: A begins, B begins, the agent running for A calls
    [request_clarification] when [clarifyA] is set, A's run returns, B's
    run returns.  The result is what A and B are answered. *)
Definition overlap (s : Srv) (psA psB : option Params) (eA eB : Env) (clarifyA : bool)
    : option (Response * Response) :=
  match send_begin s psA eA with
  | (s1, inr pA) =>
      match send_begin s1 psB eB with
      | (s2, inr pB) =>
          let s3 := if clarifyA then onInputRequired s2 else s2 in
          let '(s4, respA) := send_end s3 pA eA (outcome eA) in
          let '(s5, respB) := send_end s4 pB eB (outcome eB) in
          Some (respA, respB)
      | _ => None
      end
  | _ => None
  end.

(** ** Predicates used in the statements *)

(** [id] is the primary key of [tasks]. *)
Definition wf (db : Db) : Prop := NoDup (row_id <$> tasks db).

(** The tasks of a context that wait for input. *)
Definition waiting (db : Db) (contextId : string) : list TaskRow :=
  List.filter (is_active contextId) (tasks db).

Definition is_cancel (it : StreamItem) : bool :=
  match it with
  | Meanwhile (CancelArrives _ _) => true
  | _ => false
  end.

(** No [tasks/cancel] is served while the run is suspended. *)
Definition undisturbed (e : Env) : Prop :=
  forallb (λ it, negb (is_cancel it)) (during e) = true.

(** The deltas a run streams, in order. *)
Definition deltas (items : list StreamItem) : list string :=
  omap (λ it, match it with ModelDelta d => Some (default "" d) | _ => None end) items.

(** [parts.join("")] *)
Definition join (l : list string) : string := foldr String.append "" l.

(** The artifacts holding the answer of a streamed run, and nothing
    else: the streamed text when there is some, else the final output
    when there is some. *)
Definition streamed_answer (items : list StreamItem) (finalOutput : option string)
    : list TaskArtifact :=
  let text := join (deltas items) in
  if truthy text then [response_artifact text]
  else match truthy_opt finalOutput with
       | Some out => [response_artifact out]
       | None => match deltas items with
                 | [] => []
                 | _ => [response_artifact ""]
                 end
       end.

End Server.

(* ================================================================== *)
(** * The SDK-based executor (a2a-executor.ts, a2a-helpers.ts) *)

Module Executor.
Import Store.

(** A part of an SDK [Message]; [x_text] is absent when the part has no
    [text] property. *)
Record MessagePart : Set := mkMsgPart { x_kind : string; x_text : option string }.

Record Message : Set := mkMessage { x_parts : list MessagePart }.

(** The [RequestContext] handed to [execute]; [x_task] tells whether
    [context.task] is set. *)
Record RequestContext : Set := mkContext {
  x_taskId : string;
  x_contextId : string;
  x_userMessage : Message;
  x_task : bool
}.

(** What is published on the event bus (timestamps and generated message
    and artifact ids left out). *)
Inductive Event : Set :=
  | InitialTask (id contextId : string) (history : list Message)
  | StatusUpdate (taskId contextId : string) (st : TaskState)
                 (message : option string) (final : bool)
  | ArtifactUpdate (taskId contextId name text : string) (lastChunk : bool)
  | Finished.

(** What [run] settles to; a thrown value need not be an [Error]. *)
Inductive Thrown : Set :=
  | ErrorWith (message : string)
  | NotAnError.

Inductive RunResult : Set :=
  | RunThrows (err : Thrown)
  | RunReturns (finalOutput lastResponseId : option string).

Definition extractText (message : Message) : string :=
  match list_find (λ p, x_kind p = "text") (x_parts message) with
  | Some (_, textPart) => default "" (x_text textPart)
  | None => ""
  end.

Definition publishInitialTask (context : RequestContext) : list Event :=
  if x_task context then []
  else [InitialTask (x_taskId context) (x_contextId context) [x_userMessage context]].

Definition publishStatus (taskId contextId : string) (st : TaskState)
    (message : option string) : list Event :=
  [StatusUpdate taskId contextId st (truthy_opt message)
                (bool_decide (st = completed) || bool_decide (st = input_required))].

Definition publishFailure (taskId contextId text : string) : list Event :=
  [StatusUpdate taskId contextId failed (Some text) true].

Definition publishArtifact (taskId contextId name text : string) : list Event :=
  [ArtifactUpdate taskId contextId name text true].

Definition publishCanceled (taskId : string) : list Event :=
  [StatusUpdate taskId "" canceled None true; Finished].

(** One execution suspended in [await run(...)]: its context, what it
    has published, and its own [inputRequired] variable, captured by the
    callback of the agent created for this execution. *)
Record Run : Set := mkRun {
  r_context : RequestContext;
  r_published : list Event;
  r_inputRequired : bool;
  r_previousResponseId : option string
}.

(** [execute] up to [await run(...)]; [inl] when it returns before. *)
Definition execute_begin (sessionStore : Db) (context : RequestContext)
    : list Event + Run :=
  let taskId := x_taskId context in
  let contextId := x_contextId context in
  let userText := extractText (x_userMessage context) in
  if negb (truthy userText)
  then inl (publishFailure taskId contextId "Empty message text" ++ [Finished])
  else inr (mkRun context
                  (publishInitialTask context
                   ++ publishStatus taskId contextId working None)
                  false
                  (getSession sessionStore contextId)).

(** The callback [(_question) => { inputRequired = true; }]. *)
Definition onInputRequired (r : Run) : Run :=
  mkRun (r_context r) (r_published r) true (r_previousResponseId r).

(** [execute] from the moment [run] settles. *)
Definition execute_end (sessionStore : Db) (now : Z) (r : Run) (res : RunResult)
    : Db * list Event :=
  let taskId := x_taskId (r_context r) in
  let contextId := x_contextId (r_context r) in
  match res with
  | RunReturns finalOutput lastResponseId =>
      let output := default "I was unable to generate a response." finalOutput in
      let db := match truthy_opt lastResponseId with
                | Some rid => setSession sessionStore now contextId rid
                | None => sessionStore
                end in
      (db,
       r_published r
       ++ publishArtifact taskId contextId "response" output
       ++ (if r_inputRequired r
           then publishStatus taskId contextId input_required
                              (Some "Waiting for user input")
           else publishStatus taskId contextId completed None)
       ++ [Finished])
  | RunThrows err =>
      let msg := match err with
                 | ErrorWith message => message
                 | NotAnError => "Unknown error"
                 end in
      (sessionStore,
       r_published r ++ publishFailure taskId contextId msg ++ [Finished])
  end.

(** Executions in flight, each with its own variables. *)
Definition fire (i : nat) (runs : list Run) : list Run :=
  alter onInputRequired i runs.

(** The state an execution ends in. *)
Definition end_state (r : Run) : TaskState :=
  if r_inputRequired r then input_required else completed.

(** [execute] as a whole, while no other execution touches the session
    store: [clarifications] is how often the agent calls the callback
    while [run] is awaited. *)
Definition execute (sessionStore : Db) (now : Z) (context : RequestContext)
    (clarifications : nat) (res : RunResult) : Db * list Event :=
  match execute_begin sessionStore context with
  | inl events => (sessionStore, events)
  | inr r => execute_end sessionStore now (Nat.iter clarifications onInputRequired r) res
  end.

Definition cancelTask (taskId : string) : list Event := publishCanceled taskId.

End Executor.

(* ================================================================== *)
(** * Retrieval: chunker, embedding cache, vector store (rag.ts) *)

Module Rag.

(** A JavaScript string is the sequence of its UTF-16 code units;
    [length], [split], [trim] and [startsWith] work on code units. *)
Abbreviation jsstring := (list N).

(** A literal of the source, which has ASCII literals only. *)
Definition lit (s : string) : jsstring :=
  (λ a, Ascii.N_of_ascii a) <$> String.list_ascii_of_string s.

(** [String(n)] for an array length or a counter. *)
Definition dec (n : nat) : jsstring := lit (NilZero.string_of_uint (Nat.to_uint n)).

(** The line feed, ["\n"]. *)
Definition LF : N := 10%N.

(** [WhiteSpace] and [LineTerminator] of ECMAScript: what [trim] strips
    and what [\s] matches. *)
Definition is_space (c : N) : bool :=
  ((9 <=? c) && (c <=? 13) || (c =? 32) || (c =? 160) || (c =? 5760)
   || (8192 <=? c) && (c <=? 8202) || (c =? 8232) || (c =? 8233)
   || (c =? 8239) || (c =? 8287) || (c =? 12288) || (c =? 65279))%N.

Fixpoint dropWhile (f : N → bool) (s : jsstring) : jsstring :=
  match s with
  | [] => []
  | c :: rest => if f c then dropWhile f rest else s
  end.

Definition trimStart (s : jsstring) : jsstring := dropWhile is_space s.

Definition trimEnd (s : jsstring) : jsstring := rev (dropWhile is_space (rev s)).

Definition trim (s : jsstring) : jsstring := trimEnd (trimStart s).

Fixpoint startsWith (prefix s : jsstring) : bool :=
  match prefix with
  | [] => true
  | a :: prefix' =>
      match s with
      | [] => false
      | b :: s' => (a =? b)%N && startsWith prefix' s'
      end
  end.

(** [s.split("\n")] *)
Fixpoint split (s : jsstring) : list jsstring :=
  match s with
  | [] => [[]]
  | c :: rest =>
      if (c =? LF)%N then [] :: split rest
      else match split rest with
           | line :: lines => (c :: line) :: lines
           | [] => [[c]]
           end
  end.

(** [lines.join("\n")] *)
Fixpoint join (lines : list jsstring) : jsstring :=
  match lines with
  | [] => []
  | [line] => line
  | line :: rest => line ++ LF :: join rest
  end.

(** [line.replace(/^##\s+/, "")], with the run of ["#"] as [marker]: the
    marker and the white space after it are removed when there is some. *)
Definition stripMarker (marker line : jsstring) : jsstring :=
  if startsWith marker line then
    match drop (length marker) line with
    | c :: rest => if is_space c then dropWhile is_space (c :: rest) else line
    | [] => line
    end
  else line.

(** ** Chunker *)

Record Chunk : Set := mkChunk {
  id : jsstring;
  source : jsstring;
  heading : jsstring;
  content : jsstring
}.

(** The variables of the loop of [chunkMarkdown]. *)
Record Scan : Set := mkScan {
  chunks : list Chunk;
  currentHeading : jsstring;
  currentLines : list jsstring
}.

(** The noise threshold and the size ceiling. *)
Definition long_enough (text : jsstring) : bool := (50 <? length text)%nat.

Definition oversized (text : jsstring) : bool := (3000 <? length text)%nat.

(** [if (currentLines.length > 0) { ... chunks.push(...) }] *)
Definition flush (source : jsstring) (st : Scan) : list Chunk :=
  match currentLines st with
  | [] => chunks st
  | _ =>
      let text := trim (join (currentLines st)) in
      if long_enough text
      then chunks st ++ [mkChunk (source ++ lit ":" ++ dec (length (chunks st)))
                                 source (currentHeading st) text]
      else chunks st
  end.

Definition is_h2 (line : jsstring) : bool :=
  startsWith (lit "## ") line && negb (startsWith (lit "### ") line).

Definition scan_line (source : jsstring) (st : Scan) (line : jsstring) : Scan :=
  if is_h2 line
  then mkScan (flush source st) (trim (stripMarker (lit "##") line)) [line]
  else mkScan (chunks st) (currentHeading st) (currentLines st ++ [line]).

(** The variables of the loop of [splitBySubheadings]. *)
Record SubScan : Set := mkSubScan {
  subChunks : list Chunk;
  subHeading : jsstring;
  subLines : list jsstring;
  idx : nat
}.

Definition is_h3 (line : jsstring) : bool := startsWith (lit "### ") line.

Definition sub_id (chunk : Chunk) (i : nat) : jsstring :=
  source chunk ++ lit ":" ++ id chunk ++ lit ":" ++ dec i.

Definition sub_line (chunk : Chunk) (st : SubScan) (line : jsstring) : SubScan :=
  if is_h3 line
  then
    let heading' := heading chunk ++ lit " > " ++ trim (stripMarker (lit "###") line) in
    match subLines st with
    | [] => mkSubScan (subChunks st) heading' [line] (idx st)
    | _ =>
        let text := trim (join (subLines st)) in
        if long_enough text
        then mkSubScan (subChunks st ++ [mkChunk (sub_id chunk (idx st)) (source chunk)
                                                 (subHeading st) text])
                       heading' [line] (S (idx st))
        else mkSubScan (subChunks st) heading' [line] (idx st)
    end
  else mkSubScan (subChunks st) (subHeading st) (subLines st ++ [line]) (idx st).

Definition splitBySubheadings (chunk : Chunk) : list Chunk :=
  let st := foldl (sub_line chunk) (mkSubScan [] (heading chunk) [] 0)
                  (split (content chunk)) in
  let subChunks' :=
    match subLines st with
    | [] => subChunks st
    | _ =>
        let text := trim (join (subLines st)) in
        if long_enough text
        then subChunks st ++ [mkChunk (sub_id chunk (idx st)) (source chunk)
                                      (subHeading st) text]
        else subChunks st
    end in
  match subChunks' with
  | [] => [chunk]
  | _ => subChunks'
  end.

(** The chunks of [chunkMarkdown] before the refinement pass. *)
Definition topLevel (source content : jsstring) : list Chunk :=
  flush source (foldl (scan_line source) (mkScan [] (lit "Introduction") [])
                      (split content)).

Definition chunkMarkdown (source content : jsstring) : list Chunk :=
  flat_map (λ chunk, if oversized (Rag.content chunk)
                     then splitBySubheadings chunk else [chunk])
           (topLevel source content).

(** ** Sections of a text, for the statements *)

(** The lines of a text grouped at the lines [h] accepts: a group runs
    from such a line, or from the start, up to the next one. *)
Fixpoint group_lines (h : jsstring → bool) (current : list jsstring)
    (lines : list jsstring) : list (list jsstring) :=
  match lines with
  | [] => [current]
  | line :: rest =>
      if h line then current :: group_lines h [line] rest
      else group_lines h (current ++ [line]) rest
  end.

Definition nonempty (g : list jsstring) : bool :=
  match g with [] => false | _ => true end.

(** The sections of a text, each with its lines joined again. *)
Definition sections (h : jsstring → bool) (text : jsstring) : list jsstring :=
  join <$> List.filter nonempty (group_lines h [] (split text)).

(** What is kept of some sections: the trimmed ones above the noise
    threshold. *)
Definition kept (pieces : list jsstring) : list jsstring :=
  List.filter long_enough (trim <$> pieces).

(** ** Embedding cache and vector store *)

Record EmbeddedChunk : Set := mkEmbedded {
  chunk : Chunk;
  embedding : list float
}.

Record CacheFile : Set := mkCache {
  sourceHash : jsstring;
  model : jsstring;
  cached : list EmbeddedChunk
}.

Definition EMBEDDING_MODEL : jsstring := lit "text-embedding-3-small".

Definition TOP_K : Z := 5.

Definition KNOWLEDGE_FILES : list jsstring :=
  [lit "protocol.md"; lit "sdk-guide.md"; lit "faq.md"].

(** The files [init] touches: the knowledge files under [prompts/]
    ([None]: [readFileSync] throws) and [.cache/embeddings.json]
    ([None]: [existsSync] is false). *)
Record Disk : Type := mkDisk {
  prompts : jsstring → option jsstring;
  cacheFile : option jsstring
}.

(** What [init] leaves: its return value, [this.chunks], the disk, and
    the batches it sent to the embedding API. *)
Record Init : Type := mkInit {
  count : nat;
  index : list EmbeddedChunk;
  disk_after : Disk;
  embedded : list (list jsstring)
}.

(** Stable insertion sort.  [Array.prototype.sort] is stable, and
    ECMAScript fixes its result when the comparator is consistent: the
    arrangement in which [x] precedes [y] whenever the comparator puts
    [x] first, ties staying in their order; [before x y] tells that the
    comparator of [x] and [y] is negative.  With a comparator that is
    not consistent (a NaN score) the order is implementation-defined and
    Node's may differ from this one; nothing is stated about it. *)
Fixpoint insert {A : Type} (before : A → A → bool) (x : A) (l : list A) : list A :=
  match l with
  | [] => [x]
  | y :: l' => if before x y then x :: l else y :: insert before x l'
  end.

Definition sort {A : Type} (before : A → A → bool) (l : list A) : list A :=
  foldl (λ sorted x, insert before x sorted) [] l.

(** [l.slice(0, end)] for an integer [end]. *)
Definition slice0 {A : Type} (end_ : Z) (l : list A) : list A :=
  if (end_ <? 0)%Z
  then take (Z.to_nat (Z.max (Z.of_nat (length l) + end_) 0)) l
  else take (Z.to_nat end_) l.

Definition cosineSimilarity (a b : list float) : float :=
  let '(dot, normA, normB) :=
    foldl (λ '(dot, normA, normB) i,
             let ai := nth i a nan in
             let bi := nth i b nan in
             (dot + ai * bi, normA + ai * ai, normB + bi * bi)%float)
          (0, 0, 0)%float (seq 0 (length a)) in
  (dot / (sqrt normA * sqrt normB))%float.

(** What [search] scores: every chunk of the store with its similarity
    to the query embedding, in the order of the store. *)
Definition scored (q : list float) (chunks : list EmbeddedChunk) : list (Chunk * float) :=
  (λ c, (chunk c, cosineSimilarity q (embedding c))) <$> chunks.

(** The comparator [(a, b) => b.score - a.score] is negative. *)
Definition by_score (a b : Chunk * float) : bool := (b.2 - a.2 <? 0)%float.

Section Collaborators.

(** [createHash("sha256")] fed with a text, as hex digest. *)
Variable sha256 : jsstring → jsstring.

(** [JSON.parse] of the cache file as a [CacheFile] ([None]: it throws),
    and [JSON.stringify]. *)
Variable JSON_parse : jsstring → option CacheFile.
Variable JSON_stringify : CacheFile → jsstring.

(** [openai.embeddings.create] for a batch of inputs: the [data] of the
    response as (index, embedding) pairs, unless the call fails. *)
Variable embeddings_create : list jsstring → Result (list (nat * list float)).

Definition embedTexts (texts : list jsstring) : Result (list (list float)) :=
  match embeddings_create texts with
  | Throw e => Throw e
  | Ok data => Ok (snd <$> sort (λ a b, (a.1 <? b.1)%nat) data)
  end.

(** The knowledge files read in order; the error of [readFileSync] is
    given by the head of its message, to which Node appends the path. *)
Fixpoint readAll (d : Disk) (files : list jsstring) : Result (list (jsstring * jsstring)) :=
  match files with
  | [] => Ok []
  | file :: rest =>
      match prompts d file with
      | None => Throw "ENOENT: no such file or directory"
      | Some text =>
          match readAll d rest with
          | Throw e => Throw e
          | Ok l => Ok ((file, text) :: l)
          end
      end
  end.

Definition computeSourceHash (d : Disk) : Result jsstring :=
  match readAll d KNOWLEDGE_FILES with
  | Throw e => Throw e
  | Ok l => Ok (sha256 (concat (snd <$> l)))
  end.

(** The text embedded for a chunk. *)
Definition embed_text (c : Chunk) : jsstring :=
  lit "[" ++ source c ++ lit "] " ++ heading c ++ [LF; LF] ++ content c.

(** The part of [init] after "Build from scratch". *)
Definition build (d : Disk) (hash : jsstring) : Result Init :=
  match readAll d KNOWLEDGE_FILES with
  | Throw e => Throw e
  | Ok l =>
      let allChunks := flat_map (λ '(file, text), chunkMarkdown file text) l in
      let texts := embed_text <$> allChunks in
      match embedTexts texts with
      | Throw e => Throw e
      | Ok embeddings =>
          let chunks := imap (λ i c, mkEmbedded c (default [] (embeddings !! i)))
                             allChunks in
          let cache := mkCache hash EMBEDDING_MODEL chunks in
          Ok (mkInit (length chunks) chunks
                     (mkDisk (prompts d) (Some (JSON_stringify cache)))
                     [texts])
      end
  end.

(** The snapshot [init] loads, if it does. *)
Definition load (d : Disk) (hash : jsstring) : option CacheFile :=
  match cacheFile d with
  | Some text =>
      match JSON_parse text with
      | Some cache =>
          if bool_decide (sourceHash cache = hash)
             && bool_decide (model cache = EMBEDDING_MODEL)
          then Some cache else None
      | None => None
      end
  | None => None
  end.

(** The snapshot on disk is valid for the current sources. *)
Definition valid (d : Disk) (hash : jsstring) (cache : CacheFile) : Prop :=
  ∃ text, cacheFile d = Some text
          ∧ JSON_parse text = Some cache
          ∧ sourceHash cache = hash
          ∧ model cache = EMBEDDING_MODEL.

Definition init (d : Disk) : Result Init :=
  match computeSourceHash d with
  | Throw e => Throw e
  | Ok hash =>
      match load d hash with
      | Some cache => Ok (mkInit (length (cached cache)) (cached cache) d [])
      | None => build d hash
      end
  end.

(** [search] on a store whose [this.chunks] is [chunks]. *)
Definition search (chunks : list EmbeddedChunk) (query : jsstring) (topK : Z)
    : Result (list (Chunk * float)) :=
  match embedTexts [query] with
  | Throw e => Throw e
  | Ok embeddings =>
      match embeddings with
      | queryEmbedding :: _ =>
          Ok (slice0 topK (sort by_score (scored queryEmbedding chunks)))
      | [] =>
          match chunks with
          | [] => Ok []
          | _ => Throw "Cannot read properties of undefined (reading 'length')"
          end
      end
  end.

End Collaborators.

(** ** Scores that the comparator orders *)

(** On these scores the sign of a difference is the order of its
    operands and the order is a strict weak one; so it is whenever no
    score is NaN. *)
Definition comparable (scores : list float) : bool :=
  forallb (λ x,
    negb (x <? x)%float
    && forallb (λ y,
         Bool.eqb (y - x <? 0)%float (y <? x)%float
         && forallb (λ z,
              implb ((x <? y) && (y <? z))%float (x <? z)%float
              && implb (negb (x <? y)%float && negb (y <? z)%float)
                       (negb (x <? z)%float))
            scores)
       scores)
  scores.

(** Neither score is below the other. *)
Definition tie (a b : float) : bool := negb (a <? b)%float && negb (b <? a)%float.

End Rag.

(* ================================================================== *)
(** * Facts about the store *)

Lemma string_app_cons x (a b : string) : String x a +:+ b = String x (a +:+ b).
Proof. reflexivity. Qed.

Lemma string_app_assoc (a b c : string) : (a +:+ b) +:+ c = a +:+ (b +:+ c).
Proof. induction a as [|x a IH]; [done|]. by rewrite !string_app_cons, IH. Qed.

Lemma string_app_empty_r (a : string) : a +:+ "" = a.
Proof. induction a as [|x a IH]; [done|]. by rewrite string_app_cons, IH. Qed.

Module StoreFacts.
Import Store.

Lemma taskGet_cons taskId r rows :
  taskGet taskId (r :: rows) =
  if decide (row_id r = taskId) then Some r else taskGet taskId rows.
Proof.
  unfold taskGet. cbn. destruct (decide (row_id r = taskId)); cbn; [done|].
  by destruct (list_find _ rows) as [[? ?]|].
Qed.

Lemma taskGet_fmap (f : TaskRow → TaskRow) taskId rows :
  (∀ r, row_id (f r) = row_id r) →
  taskGet taskId (f <$> rows) = f <$> taskGet taskId rows.
Proof.
  intros Hf. induction rows as [|r rows IH]; [done|].
  rewrite fmap_cons, !taskGet_cons, Hf. by destruct (decide _).
Qed.

Lemma taskGet_Some taskId rows r :
  taskGet taskId rows = Some r → r ∈ rows ∧ row_id r = taskId.
Proof.
  induction rows as [|x rows IH]; [done|].
  rewrite taskGet_cons. destruct (decide _) as [Heq|Hne].
  - intros [= <-]. split; [left | done].
  - intros H. destruct (IH H). split; [by right | done].
Qed.

Lemma taskGet_None taskId rows :
  taskGet taskId rows = None ↔ taskId ∉ row_id <$> rows.
Proof.
  induction rows as [|x rows IH]; [by split; [intros _; apply not_elem_of_nil|]|].
  rewrite taskGet_cons, fmap_cons, not_elem_of_cons.
  destruct (decide _) as [Heq|Hne].
  - split; [done|]. intros [Hx _]. by destruct Hx.
  - rewrite IH. split; [by split|by intros [_ ?]].
Qed.

(** Rows with another id are left alone by both [UPDATE] statements. *)
Lemma taskUpdateStatus_other s m now taskId rows i r :
  rows !! i = Some r → row_id r ≠ taskId →
  taskUpdateStatus s m now taskId rows !! i = Some r.
Proof.
  intros Hi Hne. unfold taskUpdateStatus.
  rewrite list_lookup_fmap, Hi. cbn. by rewrite decide_False.
Qed.

Lemma taskUpdateStatus_ids s m now taskId rows :
  row_id <$> taskUpdateStatus s m now taskId rows = row_id <$> rows.
Proof.
  unfold taskUpdateStatus. rewrite <- list_fmap_compose.
  apply list_fmap_ext. intros _ r _. cbn. by destruct (decide _).
Qed.

Lemma taskSetArtifacts_ids arts now taskId rows :
  row_id <$> taskSetArtifacts arts now taskId rows = row_id <$> rows.
Proof.
  unfold taskSetArtifacts. rewrite <- list_fmap_compose.
  apply list_fmap_ext. intros _ r _. cbn. by destruct (decide _).
Qed.

Lemma getTask_updateTaskStatus db now taskId s m other :
  getTask (updateTaskStatus db now taskId s m) other =
  (λ t, if decide (task_id t = taskId)
        then mkTask (task_id t) (contextId t) (mkStatus s (truthy_opt m))
                    (artifacts t) (createdAt t) now
        else t) <$> getTask db other.
Proof.
  unfold getTask, updateTaskStatus, taskUpdateStatus. cbn [tasks].
  rewrite taskGet_fmap by (intros r; by destruct (decide _)).
  destruct (taskGet other (tasks db)) as [r|]; [cbn|done].
  by destruct (decide (row_id r = taskId)).
Qed.

Lemma getTask_setTaskArtifacts db now taskId arts other :
  getTask (setTaskArtifacts db now taskId arts) other =
  (λ t, if decide (task_id t = taskId)
        then mkTask (task_id t) (contextId t) (status t) arts (createdAt t) now
        else t) <$> getTask db other.
Proof.
  unfold getTask, setTaskArtifacts, taskSetArtifacts. cbn [tasks].
  rewrite taskGet_fmap by (intros r; by destruct (decide _)).
  destruct (taskGet other (tasks db)) as [r|]; [cbn|done].
  by destruct (decide (row_id r = taskId)).
Qed.

Lemma getTask_id db taskId t : getTask db taskId = Some t → task_id t = taskId.
Proof.
  unfold getTask. destruct (taskGet _ _) as [r|] eqn:E; [|done].
  intros [= <-]. by apply taskGet_Some in E as [_ ?].
Qed.

(** C9.  [updateTaskStatus(t.id, state, message)] on a stored task [t]
    rewrites the state, the message and [updatedAt] of [t] and nothing
    else: [t] keeps its id, context, artifacts and [createdAt], every
    row with another id stays as it is and where it is, no row appears
    or disappears, and the session table is untouched. *)
Theorem updateTaskStatus_frame (db : Db) (now : Z) (taskId : string)
    (s : TaskState) (m : option string) (t : Task) :
  getTask db taskId = Some t →
  let db' := updateTaskStatus db now taskId s m in
  getTask db' taskId =
    Some (mkTask (task_id t) (contextId t) (mkStatus s (truthy_opt m))
                 (artifacts t) (createdAt t) now)
  ∧ (∀ other, other ≠ taskId → getTask db' other = getTask db other)
  ∧ (∀ i r, tasks db !! i = Some r → row_id r ≠ taskId → tasks db' !! i = Some r)
  ∧ row_id <$> tasks db' = row_id <$> tasks db
  ∧ sessions db' = sessions db.
Proof.
  intros Ht db'. subst db'. repeat split.
  - rewrite getTask_updateTaskStatus, Ht. cbn.
    by rewrite decide_True by (by eapply getTask_id).
  - intros other Hne. rewrite getTask_updateTaskStatus.
    destruct (getTask db other) as [t'|] eqn:E; [cbn|done].
    apply getTask_id in E. by rewrite decide_False by congruence.
  - intros i r Hi Hne. by apply taskUpdateStatus_other.
  - apply taskUpdateStatus_ids.
Qed.

Definition db_one : Db :=
  mkDb [mkRow "t1" "c1" working (Some "Thinking...") [] 10 11;
        mkRow "t2" "c1" completed None [] 12 13]
       (<["c1" := mkSession "resp_1" 13]> ∅).

Lemma updateTaskStatus_frame_witness :
  getTask db_one "t1" = Some (mkTask "t1" "c1" (mkStatus working (Some "Thinking...")) [] 10 11)
  ∧ getTask (updateTaskStatus db_one 20 "t1" failed (Some "boom")) "t2" = getTask db_one "t2".
Proof.
  split; [reflexivity|].
  refine (proj1 (proj2 (updateTaskStatus_frame db_one 20 "t1" failed (Some "boom") _ _)) "t2" _).
  - reflexivity.
  - discriminate.
Defined.

(** ** Appending to the artifact *)

Lemma artifact_text_append_parts text a :
  artifact_text (mkArtifact (a_name a) (append_parts text (a_parts a)) (a_append a))
  = artifact_text a +:+ text.
Proof.
  unfold artifact_text, append_parts. cbn.
  destruct (list_find is_text (a_parts a)) as [[i p]|] eqn:E.
  - apply list_find_Some in E as (Hi & Hp & Hlt).
    set (p' := mkPart _ _).
    assert (list_find is_text (<[i:=p']> (a_parts a)) = Some (i, p')) as ->; [|done].
    apply list_find_Some. split_and!.
    + apply list_lookup_insert_eq. by eapply lookup_lt_Some.
    + done.
    + intros j y Hj Hji. rewrite list_lookup_insert_ne in Hj by lia. eauto.
  - apply list_find_None in E.
    assert (list_find is_text (a_parts a ++ [text_part text])
            = Some (length (a_parts a), text_part text)) as ->; [|done].
    apply list_find_Some. split_and!.
    + by rewrite lookup_app_r, Nat.sub_diag by lia.
    + done.
    + intros j y Hj Hlt. rewrite lookup_app_l in Hj by done.
      eapply Forall_lookup_1 in E; eauto.
Qed.

Lemma append_parts_twice s1 s2 ps :
  append_parts s2 (append_parts s1 ps) = append_parts (s1 +:+ s2) ps.
Proof.
  unfold append_parts at 2 3.
  destruct (list_find is_text ps) as [[i p]|] eqn:E.
  - pose proof E as (Hi & Hp & Hlt)%list_find_Some.
    set (p' := mkPart _ _). unfold append_parts.
    assert (list_find is_text (<[i:=p']> ps) = Some (i, p')) as ->.
    { apply list_find_Some. split_and!.
      - apply list_lookup_insert_eq. by eapply lookup_lt_Some.
      - done.
      - intros j y Hj Hji. rewrite list_lookup_insert_ne in Hj by lia. eauto. }
    rewrite list_insert_insert_eq. subst p'. cbn.
    by rewrite string_app_assoc.
  - pose proof E as HE%list_find_None. unfold append_parts.
    assert (list_find is_text (ps ++ [text_part s1])
            = Some (length ps, text_part s1)) as ->.
    { apply list_find_Some. split_and!.
      - by rewrite lookup_app_r, Nat.sub_diag by lia.
      - done.
      - intros j y Hj Hlt. rewrite lookup_app_l in Hj by done.
        eapply Forall_lookup_1 in HE; eauto. }
    rewrite insert_app_r_alt, Nat.sub_diag by lia. done.
Qed.

Lemma append_artifacts_twice s1 s2 arts :
  append_artifacts s2 (append_artifacts s1 arts) = append_artifacts (s1 +:+ s2) arts.
Proof.
  destruct arts as [|a rest]; cbn.
  - unfold append_parts. cbn. reflexivity.
  - by rewrite append_parts_twice.
Qed.

Lemma taskSetArtifacts_twice a1 a2 now1 now2 taskId rows :
  taskSetArtifacts a2 now2 taskId (taskSetArtifacts a1 now1 taskId rows)
  = taskSetArtifacts a2 now2 taskId rows.
Proof.
  unfold taskSetArtifacts. rewrite <- list_fmap_compose.
  apply list_fmap_ext. intros _ r _. cbn.
  destruct (decide (row_id r = taskId)) as [E|E]; cbn;
    [by rewrite decide_True by done | by rewrite decide_False by done].
Qed.

Lemma setTaskArtifacts_twice db a1 a2 now1 now2 taskId :
  setTaskArtifacts (setTaskArtifacts db now1 taskId a1) now2 taskId a2
  = setTaskArtifacts db now2 taskId a2.
Proof. unfold setTaskArtifacts. cbn [tasks sessions]. by rewrite taskSetArtifacts_twice. Qed.

Lemma appendToTaskArtifact_Some db now taskId text t :
  getTask db taskId = Some t →
  appendToTaskArtifact db now taskId text
  = setTaskArtifacts db now taskId (append_artifacts text (artifacts t)).
Proof. intros Ht. unfold appendToTaskArtifact. by rewrite Ht. Qed.

Lemma getTask_appendToTaskArtifact db now taskId text t :
  getTask db taskId = Some t →
  getTask (appendToTaskArtifact db now taskId text) taskId =
  Some (mkTask (task_id t) (contextId t) (status t)
               (append_artifacts text (artifacts t)) (createdAt t) now).
Proof.
  intros Ht. rewrite (appendToTaskArtifact_Some _ _ _ _ _ Ht).
  rewrite getTask_setTaskArtifacts, Ht. cbn.
  by rewrite decide_True by (by eapply getTask_id).
Qed.

(** C10.  [appendToTaskArtifact(taskId, s1)]: on an unknown id the
    database is unchanged; on a stored task without artifacts the task
    gets the single artifact ["response"] whose text is [s1]; on a
    stored task with artifacts the first artifact keeps its name, its
    text becomes the previous text followed by [s1], and the other
    artifacts stay; and appending [s1] then [s2] is appending
    [s1 + s2]. *)
Theorem appendToTaskArtifact_spec (db : Db) (now1 now2 : Z) (taskId s1 s2 : string) :
  (getTask db taskId = None → appendToTaskArtifact db now1 taskId s1 = db)
  ∧ (∀ t, getTask db taskId = Some t →
       ∃ t', getTask (appendToTaskArtifact db now1 taskId s1) taskId = Some t'
         ∧ match artifacts t with
           | [] => artifacts t' = [mkArtifact "response" [mkPart "text" (Some s1)] None]
           | a :: rest =>
               ∃ a', artifacts t' = a' :: rest
                     ∧ a_name a' = a_name a
                     ∧ artifact_text a' = artifact_text a +:+ s1
           end)
  ∧ appendToTaskArtifact (appendToTaskArtifact db now1 taskId s1) now2 taskId s2
    = appendToTaskArtifact db now2 taskId (s1 +:+ s2).
Proof.
  split_and!.
  - intros Hn. unfold appendToTaskArtifact. by rewrite Hn.
  - intros t Ht. eexists. split; [by apply getTask_appendToTaskArtifact|]. cbn.
    destruct (artifacts t) as [|a rest]; [done|]. cbn.
    eexists. split_and!; [done|done|]. apply artifact_text_append_parts.
  - destruct (getTask db taskId) as [t|] eqn:Ht.
    + rewrite (appendToTaskArtifact_Some _ _ _ _ _ (getTask_appendToTaskArtifact _ now1 _ s1 _ Ht)).
      rewrite !(appendToTaskArtifact_Some _ _ _ _ _ Ht). cbn [artifacts].
      by rewrite setTaskArtifacts_twice, append_artifacts_twice.
    + unfold appendToTaskArtifact. by rewrite !Ht.
Qed.

Lemma appendToTaskArtifact_spec_witness :
  getTask db_one "t1" = Some (mkTask "t1" "c1" (mkStatus working (Some "Thinking...")) [] 10 11)
  ∧ ∃ t', getTask (appendToTaskArtifact db_one 20 "t1" "Hel") "t1" = Some t'
          ∧ artifacts t' = [mkArtifact "response" [mkPart "text" (Some "Hel")] None].
Proof.
  split; [reflexivity|].
  exact (proj1 (proj2 (appendToTaskArtifact_spec db_one 20 21 "t1" "Hel" "lo")) _ eq_refl).
Defined.

End StoreFacts.

(* ================================================================== *)
(** * Facts about the endpoint *)

Module ServerFacts.
Import Store Server StoreFacts.

(** Projections of the updated server records. *)
Ltac srv_simpl :=
  cbv zeta; unfold with_store, with_flags, with_active;
  cbn [store inputRequiredFlags activeRunTaskId abortControllers controllers fst snd].

(** ** Cancellation *)

Definition env0 : Env :=
  mkEnv "ctx-0" "task-0" (λ n, 1000 + Z.of_nat n) [] (RunReturns (Some "ok") (Some "resp_0")).

(** A server holding one task that is being worked on. *)
Definition srv_working : Srv :=
  mkSrv (mkDb [mkRow "t1" "c1" working (Some "Thinking...") [] 10 11] ∅) ∅ (Some "t1") ∅ [].

Lemma truthy_ne (s : string) : s ≠ "" → truthy s = true.
Proof. intros H. unfold truthy. by rewrite bool_decide_eq_false_2. Qed.

(** C1, as the endpoint has it.  For a stored task [t], a [tasks/cancel]
    request is rejected exactly when [t] is [completed] or [failed]: the
    reply is the error [-32002] and the server state is unchanged.  In
    every other state, [working] and also [canceled] among them, the
    request is accepted: the task is stored as [canceled] with the
    message ["Canceled by client"], keeps its id, context and artifacts,
    and is returned as updated. *)
Theorem tasksCancel_spec (s : Srv) (e : Env) (taskId : string) (t : Task) :
  taskId ≠ "" →
  getTask (store s) taskId = Some t →
  let r := a2a s (cancel_request taskId) e in
  ((state (status t) = completed ∨ state (status t) = failed) →
     r = (s, RpcError 400 (-32002) ("Task already " +:+ state_name (state (status t)))))
  ∧ (state (status t) ≠ completed → state (status t) ≠ failed →
     ∃ t', getTask (store r.1) taskId = Some t'
           ∧ r.2 = RpcResult (taskToA2A t')
           ∧ status t' = mkStatus canceled (Some "Canceled by client")
           ∧ task_id t' = taskId
           ∧ Store.contextId t' = Store.contextId t
           ∧ artifacts t' = artifacts t).
Proof.
  intros Hne Ht r. subst r.
  unfold a2a, cancel_request, cancel_params. cbn [method params].
  rewrite bool_decide_eq_false_2 by discriminate.
  rewrite bool_decide_eq_true_2 by reflexivity.
  unfold tasksCancel. cbn [mbind option_bind p_id].
  rewrite (truthy_ne _ Hne). cbn [negb]. rewrite Ht.
  split.
  - intros [Hs|Hs]; rewrite Hs; reflexivity.
  - intros Hc Hf.
    rewrite (bool_decide_eq_false_2 _ Hc), (bool_decide_eq_false_2 _ Hf). cbn [orb].
    assert (store (abort s taskId) = store s) as Hab.
    { unfold abort. by destruct (abortControllers s !! taskId). }
    srv_simpl. rewrite Hab.
    rewrite getTask_updateTaskStatus, Ht. cbn [fmap option_fmap option_map].
    rewrite decide_True by (by eapply getTask_id).
    eexists. srv_simpl. rewrite getTask_updateTaskStatus, Ht.
    cbn [fmap option_fmap option_map]. rewrite decide_True by (by eapply getTask_id).
    split_and!; try reflexivity. cbn [task_id]. by eapply getTask_id.
Qed.

Lemma tasksCancel_spec_witness :
  getTask (store srv_working) "t1"
  = Some (mkTask "t1" "c1" (mkStatus working (Some "Thinking...")) [] 10 11)
  ∧ ∃ t', getTask (store (a2a srv_working (cancel_request "t1") env0).1) "t1" = Some t'
          ∧ (a2a srv_working (cancel_request "t1") env0).2 = RpcResult (taskToA2A t')
          ∧ status t' = mkStatus canceled (Some "Canceled by client")
          ∧ task_id t' = "t1"
          ∧ Store.contextId t' = "c1"
          ∧ artifacts t' = [].
Proof.
  split; [reflexivity|].
  refine (proj2 (tasksCancel_spec srv_working env0 "t1"
                  (mkTask "t1" "c1" (mkStatus working (Some "Thinking...")) [] 10 11)
                  _ _) _ _);
    [discriminate | reflexivity | discriminate | discriminate].
Defined.

(** C1 as stated fails on its second sentence: after a first
    cancellation of the working task ["t1"] has stored it as [canceled],
    a second [tasks/cancel] is not answered with an error: it is accepted
    and returns the task, still [canceled]. *)
Lemma second_cancel_is_accepted :
  let s1 := (a2a srv_working (cancel_request "t1") env0).1 in
  state <$> (status <$> getTask (store s1) "t1") = Some canceled
  ∧ (a2a s1 (cancel_request "t1") env0).2
    = RpcResult (mkA2ATask "t1" "c1" (mkStatus canceled (Some "Canceled by client")) [])
  ∧ ∀ http msg, (a2a s1 (cancel_request "t1") env0).2 ≠ RpcError http (-32002) msg.
Proof. vm_compute. split_and!; [reflexivity | reflexivity | discriminate]. Qed.

(** ** How a run changes the task table

    While a request for task [T] is served, the database changes only
    through writes of the status and the artifacts of [T], through
    session upserts, and through cancellations accepted meanwhile. *)

Inductive op_by (T : string) (db : Db) : Db → Prop :=
  | op_status now st m : op_by T db (updateTaskStatus db now T st m)
  | op_artifacts now arts : op_by T db (setTaskArtifacts db now T arts)
  | op_session now c rid : op_by T db (setSession db now c rid)
  | op_cancel now x t :
      getTask db x = Some t →
      state (status t) ≠ completed →
      state (status t) ≠ failed →
      op_by T db (updateTaskStatus db now x canceled (Some "Canceled by client")).

Definition evolve (T : string) : Db → Db → Prop := rtc (op_by T).

Ltac evolve_tac :=
  repeat first
    [ apply rtc_refl
    | eapply rtc_r; [| apply op_status]
    | eapply rtc_r; [| apply op_artifacts]
    | eapply rtc_r; [| apply op_session] ];
  try eassumption.

Lemma store_abort s taskId : store (abort s taskId) = store s.
Proof. unfold abort. by destruct (abortControllers s !! taskId). Qed.

(** What serving one [tasks/cancel] does to the database. *)
Definition cancels (db db' : Db) : Prop :=
  db' = db
  ∨ ∃ now x t, getTask db x = Some t
               ∧ state (status t) ≠ completed
               ∧ state (status t) ≠ failed
               ∧ db' = updateTaskStatus db now x canceled (Some "Canceled by client").

Lemma tasksCancel_cancels s ps now : cancels (store s) (store (tasksCancel s ps now).1).
Proof.
  unfold tasksCancel.
  destruct (ps ≫= p_id) as [taskId|]; [|by left].
  destruct (negb (truthy taskId)); [by left|].
  destruct (getTask (store s) taskId) as [t|] eqn:Ht; [|by left].
  destruct (bool_decide (state (status t) = completed)) eqn:Hc; [by left|].
  destruct (bool_decide (state (status t) = failed)) eqn:Hf; [by left|].
  cbn [orb]. apply bool_decide_eq_false_1 in Hc, Hf.
  right. exists now, taskId, t. split_and!; [done..|].
  srv_simpl. rewrite store_abort. by case_match.
Qed.

Lemma cancels_evolve T db db' : cancels db db' → evolve T db db'.
Proof.
  intros [->|(now & x & t & Ht & Hc & Hf & ->)]; [apply rtc_refl|].
  apply rtc_once. by eapply op_cancel.
Qed.

Lemma tasksCancel_evolve T s ps now : evolve T (store s) (store (tasksCancel s ps now).1).
Proof. apply cancels_evolve, tasksCancel_cancels. Qed.

Lemma interrupt_evolve T s i : evolve T (store s) (store (interrupt s i)).
Proof.
  destruct i as [|taskId now]; cbn [interrupt].
  - unfold onInputRequired. destruct (activeRunTaskId s) as [t|]; [|apply rtc_refl].
    destruct (truthy t); apply rtc_refl.
  - apply tasksCancel_evolve.
Qed.

Lemma interrupts_evolve T ints s : evolve T (store s) (store (foldl interrupt s ints)).
Proof.
  revert s. induction ints as [|i ints IH]; intros s; [apply rtc_refl|].
  cbn [foldl]. etrans; [apply interrupt_evolve | apply IH].
Qed.

Lemma send_catch_evolve s p now m :
  evolve (run_taskId p) (store s) (store (send_catch s p now m).1).
Proof. unfold send_catch. srv_simpl. evolve_tac. Qed.

Lemma send_end_evolve s p e r :
  evolve (run_taskId p) (store s) (store (send_end s p e r).1).
Proof.
  destruct r as [m|finalOutput lastResponseId]; cbn [send_end].
  - apply send_catch_evolve.
  - unfold resolveEndState. srv_simpl.
    set (db2 := store (match truthy_opt lastResponseId with Some _ => _ | None => _ end)).
    assert (evolve (run_taskId p) (store s) db2) as H2.
    { subst db2. destruct (truthy_opt lastResponseId); srv_simpl; evolve_tac. }
    match goal with |- context [getTask ?db _] => set (db5 := db) end.
    assert (evolve (run_taskId p) (store s) db5) as H5.
    { subst db5. srv_simpl.
      destruct (truthy_opt lastResponseId); srv_simpl; evolve_tac. }
    destruct (getTask db5 (run_taskId p)).
    + destruct (truthy_opt lastResponseId); srv_simpl; exact H5.
    + etrans; [|apply send_catch_evolve].
      destruct (truthy_opt lastResponseId); srv_simpl; exact H5.
Qed.

Lemma appendToTaskArtifact_evolve db now T text :
  evolve T db (appendToTaskArtifact db now T text).
Proof.
  unfold appendToTaskArtifact. destruct (getTask db T); [|apply rtc_refl].
  apply rtc_once. apply (op_artifacts T db now).
Qed.

Lemma stream_item_evolve p e l it :
  evolve (run_taskId p) (store (l_srv l)) (store (l_srv (stream_item p e l it))).
Proof.
  unfold stream_item. destruct (l_broke l); [apply rtc_refl|].
  destruct it as [d| |i].
  - destruct (aborted (l_srv l) (run_ac p)); cbn [l_srv]; [apply rtc_refl|].
    srv_simpl. apply appendToTaskArtifact_evolve.
  - destruct (aborted (l_srv l) (run_ac p)); apply rtc_refl.
  - cbn [l_srv]. apply interrupt_evolve.
Qed.

Lemma stream_loop_evolve p e items l :
  evolve (run_taskId p) (store (l_srv l))
         (store (l_srv (foldl (stream_item p e) l items))).
Proof.
  revert l. induction items as [|it items IH]; intros l; [apply rtc_refl|].
  cbn [foldl]. etrans; [apply stream_item_evolve | apply IH].
Qed.

Lemma stream_catch_evolve s p events now m :
  evolve (run_taskId p) (store s) (store (stream_catch s p events now m).1).
Proof. unfold stream_catch, stream_finally. srv_simpl. evolve_tac. Qed.

Lemma stream_canceled_evolve s p events e :
  evolve (run_taskId p) (store s) (store (stream_canceled s p events e).1).
Proof.
  unfold stream_canceled. srv_simpl. case_match.
  - unfold stream_finally. srv_simpl. evolve_tac.
  - etrans; [|apply stream_catch_evolve]. srv_simpl. evolve_tac.
Qed.

Lemma stream_settled_evolve s p fullText events e finalOutput lastResponseId :
  evolve (run_taskId p) (store s)
         (store (stream_settled s p fullText events e finalOutput lastResponseId).1).
Proof.
  unfold stream_settled, resolveEndState. srv_simpl.
  set (fallback := if truthy fullText then None else truthy_opt finalOutput).
  match goal with |- context [close_stream ?s4 _ _] => set (s4' := s4) end.
  assert (evolve (run_taskId p) (store s) (store s4')) as H4.
  { subst s4'. srv_simpl.
    destruct fallback, (truthy_opt lastResponseId); srv_simpl; evolve_tac. }
  case_match.
  - unfold stream_finally. srv_simpl. exact H4.
  - etrans; [exact H4 | apply stream_catch_evolve].
Qed.

Lemma stream_end_evolve p e l r :
  evolve (run_taskId p) (store (l_srv l)) (store (stream_end p e l r).1).
Proof.
  unfold stream_end. destruct (l_broke l).
  - apply (stream_canceled_evolve (with_active (l_srv l) None)).
  - destruct r as [m|finalOutput lastResponseId].
    + apply stream_catch_evolve.
    + srv_simpl. case_match.
      * apply (stream_canceled_evolve (with_active (l_srv l) None)).
      * apply (stream_settled_evolve (with_active (l_srv l) None)).
Qed.

(** How a request gets its task: the waiting task of the context is
    taken as it is, or a row with a fresh id is inserted. *)
Definition starts (db db0 : Db) (T c : string) (resumed : bool) : Prop :=
  (resumed = true ∧ db0 = db
   ∧ ∃ ra, activeTaskByContext c (tasks db) = Some ra ∧ row_id ra = T)
  ∨ (resumed = false
     ∧ activeTaskByContext c (tasks db) = None
     ∧ taskGet T (tasks db) = None
     ∧ ∃ now, db0 = mkDb (tasks db ++ [mkRow T c submitted None [] now now])
                         (sessions db)).

Lemma resolveTask_Ok s now uuid c T resumed s1 :
  resolveTask s now uuid c = Ok (T, resumed, s1) →
  starts (store s) (store s1) T c resumed
  ∧ inputRequiredFlags s1 = inputRequiredFlags s
  ∧ activeRunTaskId s1 = activeRunTaskId s
  ∧ abortControllers s1 = abortControllers s
  ∧ controllers s1 = controllers s.
Proof.
  unfold resolveTask, getActiveTask.
  destruct (activeTaskByContext c (tasks (store s))) as [ra|] eqn:Ha; cbn.
  - intros [= <- <- <-]. split_and!; try done. left. eauto.
  - unfold createTask, taskInsert. cbn [row_id].
    destruct (taskGet uuid (tasks (store s))) eqn:Hg; [done|].
    intros [= <- <- <-]. split_and!; try done. right. eauto.
Qed.

Lemma send_begin_inl s ps e s1 r : send_begin s ps e = (s1, inl r) → s1 = s.
Proof.
  unfold send_begin. destruct (userTextOf ps); [|by intros [= <-]].
  destruct (resolveTask _ _ _ _) as [[[T resumed] s0]|]; [done|by intros [= <-]].
Qed.

Lemma send_begin_inr s ps e s1 p :
  send_begin s ps e = (s1, inr p) →
  ∃ db0, starts (store s) db0 (run_taskId p) (run_contextId p) (run_resumed p)
         ∧ evolve (run_taskId p) db0 (store s1).
Proof.
  unfold send_begin. destruct (userTextOf ps); [|done].
  destruct (resolveTask _ _ _ _) as [[[T resumed] s0]|] eqn:Hr; [|done].
  intros [= <- <-]. apply resolveTask_Ok in Hr as (Hs & _).
  exists (store s0). split; [exact Hs|]. srv_simpl. cbn [run_taskId]. evolve_tac.
Qed.

Lemma stream_begin_inl s ps e s1 r : stream_begin s ps e = (s1, inl r) → s1 = s.
Proof.
  unfold stream_begin. destruct (userTextOf ps); [|by intros [= <-]].
  destruct (resolveTask _ _ _ _) as [[[T resumed] s0]|]; [done|by intros [= <-]].
Qed.

Lemma stream_begin_inr s ps e s1 p events :
  stream_begin s ps e = (s1, inr (p, events)) →
  ∃ db0, starts (store s) db0 (run_taskId p) (run_contextId p) (run_resumed p)
         ∧ evolve (run_taskId p) db0 (store s1).
Proof.
  unfold stream_begin. destruct (userTextOf ps); [|done].
  destruct (resolveTask _ _ _ _) as [[[T resumed] s0]|] eqn:Hr; [|done].
  intros [= <- <- <-]. apply resolveTask_Ok in Hr as (Hs & _).
  exists (store s0). split; [exact Hs|]. cbn [run_taskId].
  destruct resumed; srv_simpl; evolve_tac.
Qed.

(** What serving one request does to the database. *)
Definition served (db db' : Db) : Prop :=
  cancels db db'
  ∨ ∃ T c resumed db0, starts db db0 T c resumed ∧ evolve T db0 db'.

Lemma messageSend_served s ps e : served (store s) (store (messageSend s ps e).1).
Proof.
  unfold messageSend. destruct (send_begin s ps e) as [s1 [r|p]] eqn:Hb.
  - apply send_begin_inl in Hb as ->. by left; left.
  - apply send_begin_inr in Hb as (db0 & Hs & He).
    right. eexists _, _, _, db0. split; [exact Hs|].
    etrans; [exact He|]. etrans; [apply interrupts_evolve | apply send_end_evolve].
Qed.

Lemma messageStream_served s ps e : served (store s) (store (messageStream s ps e).1).
Proof.
  unfold messageStream. destruct (stream_begin s ps e) as [s1 [r|[p events]]] eqn:Hb.
  - apply stream_begin_inl in Hb as ->. by left; left.
  - apply stream_begin_inr in Hb as (db0 & Hs & He).
    right. eexists _, _, _, db0. split; [exact Hs|].
    etrans; [exact He|].
    etrans; [apply (stream_loop_evolve p e (during e) (mkLoop s1 "" events 0 false))|].
    apply stream_end_evolve.
Qed.

Lemma tasksGet_store s ps : (tasksGet s ps).1 = s.
Proof.
  unfold tasksGet. destruct (ps ≫= p_id) as [taskId|]; [|done].
  destruct (negb (truthy taskId)); [done|]. by destruct (getTask _ _).
Qed.

Lemma a2a_served s req e : served (store s) (store (a2a s req e).1).
Proof.
  unfold a2a. repeat case_match.
  - rewrite tasksGet_store. by left; left.
  - left. apply tasksCancel_cancels.
  - apply messageSend_served.
  - apply messageStream_served.
  - by left; left.
Qed.

(** ** At most one waiting task per context *)

(** Two waiting rows of one context carry the same id. *)
Definition pairwise (rows : list TaskRow) : Prop :=
  ∀ r1 r2, r1 ∈ rows → r2 ∈ rows →
    row_context_id r1 = row_context_id r2 →
    row_state r1 = input_required → row_state r2 = input_required →
    row_id r1 = row_id r2.

(** No task other than [T] waits in the context of [T]. *)
Definition alone (T : string) (rows : list TaskRow) : Prop :=
  ∀ r r', r ∈ rows → r' ∈ rows → row_id r = T →
    row_context_id r' = row_context_id r →
    row_state r' = input_required → row_id r' = T.

(** The invariant between requests, and the one that holds while the
    request for task [T] is served. *)
Definition settled (db : Db) : Prop := wf db ∧ pairwise (tasks db).

Definition serving (T : string) (db : Db) : Prop := settled db ∧ alone T (tasks db).

Lemma activeTaskByContext_foldl c rows best :
  let step := λ best r,
    if is_active c r then
      match best with
      | None => Some r
      | Some b => if row_updated_at b <? row_updated_at r then Some r else Some b
      end
    else best in
  (∀ ra, foldl step best rows = Some ra →
         best = Some ra ∨ (ra ∈ rows ∧ is_active c ra = true))
  ∧ (foldl step best rows = None →
     best = None ∧ ∀ r, r ∈ rows → is_active c r = false).
Proof.
  intros step. revert best. induction rows as [|x rows IH]; intros best.
  - cbn. split; [auto|]. intros ->. split; [done|]. intros r Hr. by apply elem_of_nil in Hr.
  - cbn [foldl]. destruct (IH (step best x)) as [IH1 IH2]. split.
    + intros ra Hra. destruct (IH1 ra Hra) as [Hb|[Hin Hact]].
      * unfold step in Hb. destruct (is_active c x) eqn:Hx; [|by left].
        destruct best as [b|].
        -- destruct (row_updated_at b <? row_updated_at x); injection Hb as <-.
           ++ right. split; [left|done].
           ++ by left.
        -- injection Hb as <-. right. split; [left|done].
      * right. split; [by right|done].
    + intros Hn. destruct (IH2 Hn) as [Hb Hall].
      unfold step in Hb. destruct (is_active c x) eqn:Hx.
      * destruct best as [b|]; [|done]. by destruct (row_updated_at b <? row_updated_at x).
      * split; [done|]. intros r [->|Hr]%elem_of_cons; [done|by apply Hall].
Qed.

Lemma is_active_true c r :
  is_active c r = true ↔ row_context_id r = c ∧ row_state r = input_required.
Proof.
  unfold is_active. rewrite andb_true_iff, !bool_decide_eq_true. done.
Qed.

Lemma activeTaskByContext_Some c rows ra :
  activeTaskByContext c rows = Some ra →
  ra ∈ rows ∧ row_context_id ra = c ∧ row_state ra = input_required.
Proof.
  intros H. destruct (activeTaskByContext_foldl c rows None) as [H1 _].
  destruct (H1 ra H) as [?|[Hin Hact]]; [done|].
  apply is_active_true in Hact. tauto.
Qed.

Lemma activeTaskByContext_None c rows r :
  activeTaskByContext c rows = None →
  r ∈ rows → row_context_id r = c → row_state r ≠ input_required.
Proof.
  intros H Hr Hc Hs. destruct (activeTaskByContext_foldl c rows None) as [_ H2].
  destruct (H2 H) as [_ Hall]. specialize (Hall r Hr).
  assert (is_active c r = true) by (by apply is_active_true). congruence.
Qed.

Lemma same_id_same_row (rows : list TaskRow) r1 r2 :
  NoDup (row_id <$> rows) → r1 ∈ rows → r2 ∈ rows → row_id r1 = row_id r2 → r1 = r2.
Proof.
  induction rows as [|x rows IH]; [by intros _ ?%elem_of_nil|].
  rewrite fmap_cons, NoDup_cons. intros [Hx Hnd].
  intros [->|H1]%elem_of_cons [->|H2]%elem_of_cons Heq; [done| | |by apply IH].
  - exfalso. apply Hx. rewrite Heq. by apply list_elem_of_fmap_2.
  - exfalso. apply Hx. rewrite <- Heq. by apply list_elem_of_fmap_2.
Qed.

(** A row-wise rewrite that keeps ids and contexts and makes no row wait
    except possibly [T]'s keeps the serving invariant. *)
Lemma serving_fmap (f : TaskRow → TaskRow) T db db' :
  (∀ r, row_id (f r) = row_id r) →
  (∀ r, row_context_id (f r) = row_context_id r) →
  (∀ r, row_state (f r) = input_required →
        row_state r = input_required ∨ row_id r = T) →
  tasks db' = f <$> tasks db →
  serving T db → serving T db'.
Proof.
  intros Hid Hctx Hst Hrows [[Hwf Hpw] Hal]. unfold serving, settled, wf.
  rewrite Hrows. split_and!.
  - rewrite <- list_fmap_compose.
    rewrite (list_fmap_ext (row_id ∘ f) row_id (tasks db) (λ _ r _, Hid r)). exact Hwf.
  - intros r1' r2' (r1 & -> & H1)%list_elem_of_fmap (r2 & -> & H2)%list_elem_of_fmap.
    rewrite !Hid, !Hctx. intros Hc [S1|T1]%Hst [S2|T2]%Hst.
    + by apply Hpw.
    + rewrite T2. by apply (Hal r2 r1).
    + rewrite T1. symmetry. by apply (Hal r1 r2).
    + congruence.
  - intros r' r0' (r & -> & H1)%list_elem_of_fmap (r0 & -> & H2)%list_elem_of_fmap.
    rewrite !Hid, !Hctx. intros HT Hc [S|?]%Hst; [|done]. by apply (Hal r r0).
Qed.

(** A rewrite that makes no row wait keeps the invariant between requests. *)
Lemma settled_fmap (f : TaskRow → TaskRow) db db' :
  (∀ r, row_id (f r) = row_id r) →
  (∀ r, row_context_id (f r) = row_context_id r) →
  (∀ r, row_state (f r) = input_required → row_state r = input_required) →
  tasks db' = f <$> tasks db →
  settled db → settled db'.
Proof.
  intros Hid Hctx Hst Hrows [Hwf Hpw]. unfold settled, wf.
  rewrite Hrows. split.
  - rewrite <- list_fmap_compose.
    rewrite (list_fmap_ext (row_id ∘ f) row_id (tasks db) (λ _ r _, Hid r)). exact Hwf.
  - intros r1' r2' (r1 & -> & H1)%list_elem_of_fmap (r2 & -> & H2)%list_elem_of_fmap.
    rewrite !Hid, !Hctx. intros Hc S1%Hst S2%Hst. by apply Hpw.
Qed.

Lemma serving_op T db db' : op_by T db db' → serving T db → serving T db'.
Proof.
  intros [now st m|now arts|now c rid|now x t Ht Hc Hf].
  - eapply serving_fmap; [..|reflexivity]; intros r; cbn;
      destruct (decide (row_id r = T)); cbn; auto.
  - eapply serving_fmap; [..|reflexivity]; intros r; cbn;
      destruct (decide (row_id r = T)); cbn; auto.
  - done.
  - eapply serving_fmap; [..|reflexivity]; intros r; cbn;
      destruct (decide (row_id r = x)); cbn; auto; done.
Qed.

Lemma serving_evolve T db db' : evolve T db db' → serving T db → serving T db'.
Proof. induction 1; eauto using serving_op. Qed.

Lemma settled_cancels db db' : cancels db db' → settled db → settled db'.
Proof.
  intros [->|(now & x & t & _ & _ & _ & ->)]; [done|].
  eapply settled_fmap; [..|reflexivity]; intros r; cbn;
    destruct (decide (row_id r = x)); cbn; auto; done.
Qed.

Lemma starts_serving db db0 T c resumed :
  starts db db0 T c resumed → settled db → serving T db0.
Proof.
  intros [(_ & -> & ra & Ha & Hid)|(_ & Hnone & Hfresh & now & ->)] [Hwf Hpw].
  - apply activeTaskByContext_Some in Ha as (Hin & Hc & Hs).
    split; [done|]. intros r r' Hr Hr' HT Hctx Hst.
    assert (r = ra) as ->
      by (apply (same_id_same_row (tasks db)); [exact Hwf|done|done|congruence]).
    rewrite <- Hid. by apply Hpw.
  - apply taskGet_None in Hfresh. split; [split|].
    + unfold wf. cbn [tasks]. rewrite fmap_app. apply NoDup_app. split_and!.
      * exact Hwf.
      * intros y Hy [->|[]%elem_of_nil]%elem_of_cons. done.
      * apply NoDup_singleton.
    + cbn [tasks]. intros r1 r2 [H1|H1]%elem_of_app [H2|H2]%elem_of_app Hc S1 S2.
      * by apply Hpw.
      * apply list_elem_of_singleton in H2 as ->. done.
      * apply list_elem_of_singleton in H1 as ->. done.
      * apply list_elem_of_singleton in H1 as ->. done.
    + cbn [tasks]. intros r r' [H1|H1]%elem_of_app [H2|H2]%elem_of_app HT Hc Hst.
      * exfalso. apply Hfresh. rewrite <- HT. by apply list_elem_of_fmap_2.
      * apply list_elem_of_singleton in H2 as ->. done.
      * apply list_elem_of_singleton in H1 as ->. cbn in Hc.
        exfalso. by eapply activeTaskByContext_None.
      * apply list_elem_of_singleton in H2 as ->. done.
Qed.

Lemma settled_served db db' : served db db' → settled db → settled db'.
Proof.
  intros [Hc|(T & c & resumed & db0 & Hs & He)] Hdb.
  - by eapply settled_cancels.
  - eapply serving_evolve; [exact He|]. by eapply starts_serving.
Qed.

Lemma settled_serve reqs s : settled (store s) → settled (store (serve s reqs)).
Proof.
  revert s. induction reqs as [|[req e] reqs IH]; intros s Hs; [done|].
  cbn [serve foldl]. apply IH. eapply settled_served; [apply a2a_served | done].
Qed.

Lemma filter_ids_NoDup (f : TaskRow → bool) rows :
  NoDup (row_id <$> rows) → NoDup (row_id <$> List.filter f rows).
Proof.
  induction rows as [|x rows IH]; [done|].
  rewrite fmap_cons, NoDup_cons. intros [Hx Hnd]. cbn [List.filter].
  destruct (f x); [|by apply IH].
  rewrite fmap_cons, NoDup_cons. split; [|by apply IH].
  intros (r & Hr & Hin)%list_elem_of_fmap. apply Hx. rewrite Hr.
  apply list_elem_of_fmap_2. apply list_elem_of_In in Hin.
  apply filter_In in Hin as [Hin _]. by apply list_elem_of_In.
Qed.

Lemma settled_waiting db c : settled db → (length (waiting db c) ≤ 1)%nat.
Proof.
  intros [Hwf Hpw]. unfold waiting.
  pose proof (filter_ids_NoDup (is_active c) _ Hwf) as Hnd.
  assert (∀ r, r ∈ List.filter (is_active c) (tasks db) →
               r ∈ tasks db ∧ row_context_id r = c ∧ row_state r = input_required) as Hin.
  { intros r Hr%list_elem_of_In. apply filter_In in Hr as [Hr Ha].
    apply is_active_true in Ha. split; [by apply list_elem_of_In | done]. }
  destruct (List.filter (is_active c) (tasks db)) as [|a [|b l]]; cbn; [lia..|].
  exfalso. destruct (Hin a) as (Ha1 & Ha2 & Ha3); [left|].
  destruct (Hin b) as (Hb1 & Hb2 & Hb3); [right; left|].
  rewrite !fmap_cons, NoDup_cons in Hnd. destruct Hnd as [Hnd _].
  apply Hnd. rewrite (Hpw a b) by congruence. left.
Qed.

(** C3.  Starting from the empty store, after any sequence of requests
    served one after the other ([message/send], [message/stream],
    [tasks/cancel], [tasks/get] under either of their method names, or
    anything else), every context has at most one task in
    [input-required].  The invariant also survives clarification
    callbacks and cancellations that take place while a run is
    suspended. *)
Theorem at_most_one_input_required (reqs : list (A2AJsonRpcRequest * Env)) (c : string) :
  (length (waiting (store (serve init reqs)) c) ≤ 1)%nat.
Proof.
  apply settled_waiting, settled_serve. split.
  - apply NoDup_nil_2.
  - intros r1 r2 Hr1. by apply elem_of_nil in Hr1.
Qed.

(** ** Resuming a waiting task *)

Lemma getTask_is_Some db T : is_Some (getTask db T) ↔ T ∈ row_id <$> tasks db.
Proof.
  unfold getTask. rewrite fmap_is_Some, <- not_eq_None_Some, taskGet_None.
  split; [apply dec_stable | auto].
Qed.

Lemma op_by_ids T db db' : op_by T db db' → row_id <$> tasks db' = row_id <$> tasks db.
Proof.
  intros [now st m|now arts|now c rid|now x t _ _ _]; cbn [tasks updateTaskStatus
    setTaskArtifacts setSession]; auto using taskUpdateStatus_ids, taskSetArtifacts_ids.
Qed.

Lemma evolve_ids T db db' : evolve T db db' → row_id <$> tasks db' = row_id <$> tasks db.
Proof. induction 1 as [|db db1 db2 H _ IH]; [done|]. rewrite IH. by eapply op_by_ids. Qed.

Lemma evolve_is_Some T x db db' :
  evolve T db db' → is_Some (getTask db x) → is_Some (getTask db' x).
Proof. intros He. rewrite !getTask_is_Some. by rewrite (evolve_ids _ _ _ He). Qed.

Lemma resolveTask_active s now uuid c t :
  getActiveTask (store s) c = Some t →
  resolveTask s now uuid c = Ok (task_id t, true, s).
Proof. intros H. unfold resolveTask. by rewrite H. Qed.

Lemma getActiveTask_stored db c t :
  getActiveTask db c = Some t → is_Some (getTask db (task_id t)).
Proof.
  unfold getActiveTask. destruct (activeTaskByContext c (tasks db)) as [ra|] eqn:Ha; [|done].
  intros [= <-]. apply activeTaskByContext_Some in Ha as (Hin & _).
  apply getTask_is_Some. cbn. by apply list_elem_of_fmap_2.
Qed.

Lemma getTask_setSession db now c rid T :
  getTask (setSession db now c rid) T = getTask db T.
Proof. reflexivity. Qed.

Lemma send_end_artifacts s p e finalOutput lastResponseId :
  is_Some (getTask (store s) (run_taskId p)) →
  artifacts <$> getTask (store (send_end s p e (RunReturns finalOutput lastResponseId)).1)
                        (run_taskId p)
  = Some [response_artifact (default "I was unable to generate a response." finalOutput)].
Proof.
  intros [t0 Ht0]. cbn [send_end]. unfold resolveEndState. srv_simpl.
  pose proof (getTask_id _ _ _ Ht0) as Hid.
  match goal with
  | |- context [match getTask ?db ?T with _ => _ end] =>
      assert (∃ t5, getTask db T = Some t5
                    ∧ artifacts t5 = [response_artifact
                        (default "I was unable to generate a response." finalOutput)])
        as (t5 & H5 & Ha)
  end.
  { srv_simpl. rewrite getTask_updateTaskStatus, getTask_setTaskArtifacts.
    assert (getTask (store (match truthy_opt lastResponseId with
                            | Some rid =>
                                mkSrv (setSession (store s) (clock e 2) (run_contextId p) rid)
                                      (inputRequiredFlags s) None (abortControllers s)
                                      (controllers s)
                            | None =>
                                mkSrv (store s) (inputRequiredFlags s) None
                                      (abortControllers s) (controllers s)
                            end)) (run_taskId p) = Some t0) as ->.
    { by destruct (truthy_opt lastResponseId). }
    cbn [fmap option_fmap option_map].
    rewrite !(decide_True (P := task_id t0 = run_taskId p)) by done.
    cbn [task_id]. rewrite ?(decide_True (P := task_id t0 = run_taskId p)) by done.
    eauto. }
  rewrite H5. srv_simpl. rewrite H5. cbn [fmap option_fmap option_map]. by rewrite Ha.
Qed.

(** The text streamed so far as the task carries it. *)
Definition streamed (ds : list string) : list TaskArtifact :=
  match ds with
  | [] => []
  | _ => [response_artifact (join ds)]
  end.

Lemma join_texts_app a b : join (a ++ b) = join a +:+ join b.
Proof.
  induction a as [|x a IH]; [done|].
  cbn [app join foldr]. fold (join (a ++ b)). fold (join a).
  by rewrite IH, string_app_assoc.
Qed.

Lemma join_texts_singleton d : join [d] = d.
Proof. apply string_app_empty_r. Qed.

Lemma streamed_snoc ds d : append_artifacts d (streamed ds) = streamed (ds ++ [d]).
Proof.
  destruct ds as [|x ds].
  - cbn. by rewrite string_app_empty_r.
  - change (streamed ((x :: ds) ++ [d])) with [response_artifact (join ((x :: ds) ++ [d]))].
    rewrite join_texts_app, join_texts_singleton. reflexivity.
Qed.

(** What the loop of an undisturbed streamed run leaves behind. *)
Lemma stream_loop_undisturbed p e items l ds t0 :
  forallb (λ it, negb (is_cancel it)) items = true →
  l_broke l = false →
  controllers (l_srv l) !! run_ac p = Some false →
  getTask (store (l_srv l)) (run_taskId p) = Some t0 →
  artifacts t0 = streamed ds →
  l_fullText l = join ds →
  let l' := foldl (stream_item p e) l items in
  l_broke l' = false
  ∧ controllers (l_srv l') !! run_ac p = Some false
  ∧ l_fullText l' = join (ds ++ deltas items)
  ∧ ∃ t1, getTask (store (l_srv l')) (run_taskId p) = Some t1
          ∧ artifacts t1 = streamed (ds ++ deltas items).
Proof.
  revert l ds t0. induction items as [|it items IH]; intros l ds t0 Hu Hb Hc Ht Ha Hf.
  - cbn [foldl]. unfold deltas. cbn [omap]. rewrite app_nil_r. split_and!; [done..|]. eauto.
  - cbn [foldl].
    cbn [forallb] in Hu. apply andb_true_iff in Hu as [Hit Hu'].
    assert (aborted (l_srv l) (run_ac p) = false) as Hab.
    { unfold aborted. by rewrite Hc. }
    destruct it as [d| |i].
    + (* a delta *)
      assert (stream_item p e l (ModelDelta d)
              = mkLoop (with_store (l_srv l)
                          (appendToTaskArtifact (store (l_srv l)) (clock e (10 + l_count l))
                                                (run_taskId p) (default "" d)))
                       (l_fullText l +:+ default "" d)
                       (l_events l ++
                          [ArtifactUpdate (run_taskId p) (run_contextId p)
                             (mkArtifact "response" [text_part (default "" d)] (Some true))])
                       (S (l_count l)) false) as ->.
      { unfold stream_item. by rewrite Hb, Hab. }
      change (deltas (ModelDelta d :: items)) with (default "" d :: deltas items).
      replace (ds ++ default "" d :: deltas items)
        with ((ds ++ [default "" d]) ++ deltas items) by (by rewrite <- app_assoc).
      eapply IH; try done.
      * cbn [l_srv]. srv_simpl. by apply getTask_appendToTaskArtifact.
      * cbn [artifacts]. rewrite Ha. apply streamed_snoc.
      * cbn [l_fullText]. by rewrite Hf, join_texts_app, join_texts_singleton.
    + (* another event *)
      assert (stream_item p e l OtherEvent
              = mkLoop (l_srv l) (l_fullText l) (l_events l) (S (l_count l)) false) as ->.
      { unfold stream_item. by rewrite Hb, Hab. }
      change (deltas (OtherEvent :: items)) with (deltas items).
      eapply IH; done.
    + (* the clarification callback *)
      destruct i as [|taskId now]; [|discriminate Hit].
      assert (stream_item p e l (Meanwhile Clarification)
              = mkLoop (onInputRequired (l_srv l)) (l_fullText l) (l_events l)
                       (l_count l) false) as ->.
      { unfold stream_item. by rewrite Hb. }
      assert (store (onInputRequired (l_srv l)) = store (l_srv l)
              ∧ controllers (onInputRequired (l_srv l)) = controllers (l_srv l)) as [Hs1 Hs2].
      { unfold onInputRequired. destruct (activeRunTaskId (l_srv l)) as [a|]; [|done].
        by destruct (truthy a). }
      change (deltas (Meanwhile Clarification :: items)) with (deltas items).
      eapply IH; try done; cbn [l_srv]; by rewrite ?Hs1, ?Hs2.
Qed.

Lemma truthy_false (s : string) : truthy s = false → s = "".
Proof. unfold truthy. intros H. apply negb_false_iff in H. by apply bool_decide_eq_true in H. Qed.

Lemma stream_settled_artifacts s p ds events e finalOutput lastResponseId t1 :
  getTask (store s) (run_taskId p) = Some t1 →
  artifacts t1 = streamed ds →
  artifacts <$> getTask (store (stream_settled s p (join ds) events e
                                               finalOutput lastResponseId).1)
                        (run_taskId p)
  = Some (if truthy (join ds) then [response_artifact (join ds)]
          else match truthy_opt finalOutput with
               | Some out => [response_artifact out]
               | None => match ds with [] => [] | _ => [response_artifact ""] end
               end).
Proof.
  intros Ht Ha. pose proof (getTask_id _ _ _ Ht) as Hid.
  unfold stream_settled, resolveEndState. srv_simpl.
  destruct (truthy (join ds)) eqn:Htext;
    destruct (truthy_opt finalOutput) as [out|];
    destruct (truthy_opt lastResponseId) as [rid|];
    srv_simpl; unfold close_stream; srv_simpl;
    rewrite getTask_updateTaskStatus, ?getTask_setSession, ?getTask_setTaskArtifacts, Ht;
    cbn [fmap option_fmap option_map];
    rewrite ?(decide_True (P := task_id t1 = run_taskId p)) by done;
    cbn [task_id]; rewrite ?(decide_True (P := task_id t1 = run_taskId p)) by done;
    unfold stream_finally; srv_simpl;
    rewrite getTask_updateTaskStatus, ?getTask_setSession, ?getTask_setTaskArtifacts, Ht;
    cbn [fmap option_fmap option_map];
    rewrite ?(decide_True (P := task_id t1 = run_taskId p)) by done;
    cbn [task_id artifacts]; rewrite ?(decide_True (P := task_id t1 = run_taskId p)) by done;
    cbn [artifacts]; try reflexivity; rewrite Ha;
    destruct ds as [|d ds]; try reflexivity; try discriminate;
    change (streamed (d :: ds)) with [response_artifact (join (d :: ds))];
    by rewrite (truthy_false _ Htext).
Qed.

(** C2.  When the context [c] of a [message/send] or [message/stream]
    request has a task [t] in [input-required], [resolveTask] returns the
    id of [t] with [resumed = true] and leaves the server as it is, and
    the request adds no row to the task table.  When the run returns,
    the artifacts of [t] hold the answer of this turn and nothing of what
    they held before: after [message/send] the single artifact
    ["response"] with the output of the run; after [message/stream] (no
    cancellation being served meanwhile) the single artifact ["response"]
    with the streamed text, or with the final output when no text was
    streamed, or no artifact when the run produced neither. *)
Theorem resumed_task_holds_only_the_new_answer
    (s : Srv) (ps : option Params) (e : Env) (c text : string) (t : Task)
    (finalOutput lastResponseId : option string) :
  userTextOf ps = Ok text →
  ps ≫= p_contextId = Some c →
  getActiveTask (store s) c = Some t →
  outcome e = RunReturns finalOutput lastResponseId →
  resolveTask s (clock e 0) (uuid_task e) c = Ok (task_id t, true, s)
  ∧ (let s' := (messageSend s ps e).1 in
     row_id <$> tasks (store s') = row_id <$> tasks (store s)
     ∧ artifacts <$> getTask (store s') (task_id t)
       = Some [response_artifact
                 (default "I was unable to generate a response." finalOutput)])
  ∧ (undisturbed e →
     let s' := (messageStream s ps e).1 in
     row_id <$> tasks (store s') = row_id <$> tasks (store s)
     ∧ artifacts <$> getTask (store s') (task_id t)
       = Some (streamed_answer (during e) finalOutput)).
Proof.
  intros Hu Hc Ha Ho.
  pose proof (resolveTask_active s (clock e 0) (uuid_task e) c t Ha) as Hr.
  destruct (getActiveTask_stored _ _ _ Ha) as [t0 Ht0].
  pose proof (getTask_id _ _ _ Ht0) as Hid.
  split; [exact Hr|]. split.
  - (* message/send *)
    intros s'. subst s'. unfold messageSend, send_begin.
    rewrite Hu, Hc. change (default (uuid_context e) (Some c)) with c. rewrite Hr, Ho.
    set (p := mkPending _ _ _ _ _).
    set (s1 := with_active _ _).
    assert (evolve (task_id t) (store s) (store s1)) as H1.
    { subst s1. srv_simpl. evolve_tac. }
    assert (evolve (task_id t) (store s) (store (foldl interrupt s1 (interrupts (during e)))))
      as H2 by (etrans; [exact H1 | apply interrupts_evolve]).
    split.
    + eapply evolve_ids. etrans; [exact H2|]. apply (send_end_evolve _ p).
    + apply (send_end_artifacts _ p). eapply evolve_is_Some; [exact H2|].
      change (is_Some (getTask (store s) (task_id t))). by rewrite Ht0.
  - (* message/stream *)
    intros Hund s'. subst s'. unfold messageStream, stream_begin.
    rewrite Hu, Hc. change (default (uuid_context e) (Some c)) with c. rewrite Hr, Ho.
    set (p := mkPending _ _ _ _ _).
    set (s1 := with_active _ _).
    set (l0 := mkLoop s1 _ _ _ _).
    assert (getTask (store s1) (task_id t)
            = Some (mkTask (task_id t0) (Store.contextId t0)
                           (mkStatus working (Some "Continuing...")) []
                           (createdAt t0) (clock e 1))) as Hg1.
    { subst s1. srv_simpl. rewrite getTask_updateTaskStatus, getTask_setTaskArtifacts, Ht0.
      cbn [fmap option_fmap option_map].
      rewrite !(decide_True (P := task_id t0 = task_id t)) by done.
      cbn [task_id]. by rewrite ?(decide_True (P := task_id t0 = task_id t)) by done. }
    assert (evolve (task_id t) (store s) (store s1)) as H1.
    { subst s1. srv_simpl. evolve_tac. }
    assert (controllers (l_srv l0) !! run_ac p = Some false) as Hc0.
    { subst l0 s1. cbn [l_srv run_ac p]. srv_simpl.
      by rewrite lookup_app_r, Nat.sub_diag by lia. }
    destruct (stream_loop_undisturbed p e (during e) l0 [] _ Hund eq_refl Hc0 Hg1
                                      eq_refl eq_refl)
      as (Hb & Hctl & Hft & t1 & Ht1 & Hart).
    cbn [app] in Hft, Hart. split.
    + eapply evolve_ids. etrans; [exact H1|].
      etrans; [apply (stream_loop_evolve p e (during e) l0) | apply (stream_end_evolve p)].
    + unfold stream_end. rewrite Hb.
      assert (aborted (with_active (foldl (stream_item p e) l0 (during e)).(l_srv) None)
                      (run_ac p) = false) as ->.
      { unfold aborted. srv_simpl. by rewrite Hctl. }
      rewrite Hft. unfold streamed_answer.
      rewrite (stream_settled_artifacts _ p (deltas (during e)) _ e _ _ t1); [done| |done].
      srv_simpl. exact Ht1.
Qed.

(** A server whose context ["c1"] has a task waiting for input, with the
    partial answer of the previous turn as its artifact. *)
Definition srv_waiting : Srv :=
  mkSrv (mkDb [mkRow "t1" "c1" input_required None
                     [response_artifact "Which network do you mean?"] 10 20]
              (<["c1" := mkSession "resp_1" 20]> ∅))
        ∅ None ∅ [].

Definition ps_reply : option Params :=
  Some (mkParams (Some (mkMessage "user" [mkMsgPart "text" (Some "devnet")]))
                 (Some "c1") None).

Definition env_reply : Env :=
  mkEnv "ctx-9" "task-9" (λ n, 1000 + Z.of_nat n)
        [ModelDelta (Some "Use "); OtherEvent; ModelDelta (Some "devnet.")]
        (RunReturns (Some "Use devnet.") (Some "resp_2")).

Lemma resumed_task_holds_only_the_new_answer_witness :
  userTextOf ps_reply = Ok "devnet"
  ∧ getActiveTask (store srv_waiting) "c1"
    = Some (mkTask "t1" "c1" (mkStatus input_required None)
                   [response_artifact "Which network do you mean?"] 10 20)
  ∧ undisturbed env_reply
  ∧ artifacts <$> getTask (store (messageSend srv_waiting ps_reply env_reply).1) "t1"
    = Some [response_artifact "Use devnet."]
  ∧ artifacts <$> getTask (store (messageStream srv_waiting ps_reply env_reply).1) "t1"
    = Some [response_artifact "Use devnet."].
Proof.
  pose proof (resumed_task_holds_only_the_new_answer srv_waiting ps_reply env_reply
                "c1" "devnet" _ _ _ eq_refl eq_refl eq_refl eq_refl) as (_ & Hsend & Hstream).
  split_and!; [reflexivity | reflexivity | reflexivity | apply Hsend |].
  apply (Hstream eq_refl).
Defined.

(** ** Generation failures *)

Lemma taskGet_app taskId rows rows' :
  taskGet taskId (rows ++ rows') =
  match taskGet taskId rows with
  | Some r => Some r
  | None => taskGet taskId rows'
  end.
Proof.
  induction rows as [|x rows IH]; [done|].
  cbn [app]. rewrite !taskGet_cons. by destruct (decide _).
Qed.

Lemma starts_wf db db0 T c resumed : starts db db0 T c resumed → wf db → wf db0.
Proof.
  intros [(_ & -> & _)|(_ & _ & Hfresh & now & ->)] Hwf; [done|].
  apply taskGet_None in Hfresh.
  unfold wf. cbn [tasks]. rewrite fmap_app. apply NoDup_app. split_and!.
  - exact Hwf.
  - intros y Hy [->|[]%elem_of_nil]%elem_of_cons. done.
  - apply NoDup_singleton.
Qed.

Lemma starts_is_Some db db0 T c resumed :
  starts db db0 T c resumed → is_Some (getTask db0 T).
Proof.
  intros [(_ & -> & ra & Ha & <-)|(_ & _ & Hfresh & now & ->)].
  - apply activeTaskByContext_Some in Ha as (Hin & _).
    apply getTask_is_Some. by apply list_elem_of_fmap_2.
  - unfold getTask. cbn [tasks]. rewrite taskGet_app, Hfresh, taskGet_cons.
    cbn [row_id]. by rewrite decide_True.
Qed.

Lemma wf_evolve T db db' : evolve T db db' → wf db → wf db'.
Proof. intros He. unfold wf. by rewrite (evolve_ids _ _ _ He). Qed.

(** A failed task stays as it is, whatever is served later. *)
Definition frozen (F : string) (t : Task) (db : Db) : Prop :=
  wf db ∧ getTask db F = Some t ∧ state (status t) = failed.

Lemma frozen_write F t db db' x (f : Task → Task) :
  x ≠ F →
  row_id <$> tasks db' = row_id <$> tasks db →
  (∀ other, getTask db' other
            = (λ t, if decide (task_id t = x) then f t else t) <$> getTask db other) →
  frozen F t db → frozen F t db'.
Proof.
  intros Hne Hids Hget (Hwf & Ht & Hf). split_and!; [|
    |done].
  - unfold wf. by rewrite Hids.
  - rewrite Hget, Ht. cbn. rewrite decide_False; [done|].
    rewrite (getTask_id _ _ _ Ht). congruence.
Qed.

Lemma frozen_cancel F t db now x t' :
  getTask db x = Some t' → state (status t') ≠ failed →
  frozen F t db →
  frozen F t (updateTaskStatus db now x canceled (Some "Canceled by client")).
Proof.
  intros Hx Hnf Hfr.
  eapply (frozen_write F t db _ x); [|apply taskUpdateStatus_ids| |done].
  - intros ->. destruct Hfr as (_ & Ht & Hf). congruence.
  - intros other. apply getTask_updateTaskStatus.
Qed.

Lemma frozen_op F t T db db' :
  T ≠ F → op_by T db db' → frozen F t db → frozen F t db'.
Proof.
  intros Hne [now st m|now arts|now c rid|now x t' Hx Hc Hnf] Hfr.
  - eapply (frozen_write F t db _ T); [done|apply taskUpdateStatus_ids| |done].
    intros other. apply getTask_updateTaskStatus.
  - eapply (frozen_write F t db _ T); [done|apply taskSetArtifacts_ids| |done].
    intros other. apply getTask_setTaskArtifacts.
  - exact Hfr.
  - by eapply frozen_cancel.
Qed.

Lemma frozen_evolve F t T db db' :
  T ≠ F → evolve T db db' → frozen F t db → frozen F t db'.
Proof. intros Hne. induction 1; eauto using frozen_op. Qed.

Lemma frozen_cancels F t db db' : cancels db db' → frozen F t db → frozen F t db'.
Proof.
  intros [->|(now & x & t' & Hx & Hc & Hnf & ->)] Hfr; [done|]. by eapply frozen_cancel.
Qed.

Lemma getTask_row db F t :
  getTask db F = Some t →
  ∃ r, r ∈ tasks db ∧ row_id r = F ∧ row_state r = state (status t).
Proof.
  unfold getTask. destruct (taskGet F (tasks db)) as [r|] eqn:E; [|done].
  intros [= <-]. apply taskGet_Some in E as [Hin Hid]. eauto.
Qed.

Lemma frozen_starts F t db db0 T c resumed :
  starts db db0 T c resumed → frozen F t db → T ≠ F ∧ frozen F t db0.
Proof.
  intros Hs (Hwf & Ht & Hf).
  pose proof (starts_wf _ _ _ _ _ Hs Hwf) as Hwf0.
  destruct Hs as [(_ & -> & ra & Ha & Hid)|(_ & _ & Hfresh & now & ->)].
  - split; [|done]. intros HTF.
    apply activeTaskByContext_Some in Ha as (Hin & _ & Hst).
    destruct (getTask_row _ _ _ Ht) as (r & Hr & Hrid & Hrs).
    assert (r = ra) as ->
      by (apply (same_id_same_row (tasks db)); [exact Hwf|done|done|congruence]).
    congruence.
  - split.
    + intros ->. unfold getTask in Ht. by rewrite Hfresh in Ht.
    + split_and!; [done| |done].
      unfold getTask in *. cbn [tasks]. rewrite taskGet_app.
      by destruct (taskGet F (tasks db)).
Qed.

Lemma frozen_served F t db db' : served db db' → frozen F t db → frozen F t db'.
Proof.
  intros [Hc|(T & c & resumed & db0 & Hs & He)] Hfr.
  - by eapply frozen_cancels.
  - destruct (frozen_starts _ _ _ _ _ _ _ Hs Hfr) as [Hne Hfr0].
    by eapply frozen_evolve.
Qed.

Lemma frozen_serve F t reqs s :
  frozen F t (store s) → frozen F t (store (serve s reqs)).
Proof.
  revert s. induction reqs as [|[req e] reqs IH]; intros s Hs; [done|].
  cbn [serve foldl]. apply IH. eapply frozen_served; [apply a2a_served | done].
Qed.

Lemma tasksGet_frozen F t s e :
  F ≠ "" → frozen F t (store s) →
  (a2a s (get_request F) e).2 = RpcResult (taskToA2A t).
Proof.
  intros Hne (_ & Ht & _). unfold a2a, get_request. cbn [method params].
  rewrite bool_decide_eq_true_2 by done. unfold tasksGet. cbn [mbind option_bind p_id].
  by rewrite (truthy_ne _ Hne), Ht.
Qed.

Lemma stream_loop_not_broken p e items l :
  forallb (λ it, negb (is_cancel it)) items = true →
  l_broke l = false →
  controllers (l_srv l) !! run_ac p = Some false →
  let l' := foldl (stream_item p e) l items in
  l_broke l' = false ∧ controllers (l_srv l') !! run_ac p = Some false.
Proof.
  revert l. induction items as [|it items IH]; intros l Hu Hb Hc; [done|].
  cbn [foldl]. cbn [forallb] in Hu. apply andb_true_iff in Hu as [Hit Hu'].
  assert (aborted (l_srv l) (run_ac p) = false) as Hab.
  { unfold aborted. by rewrite Hc. }
  apply IH; [done|..]; unfold stream_item; rewrite Hb;
    destruct it as [d| |[|taskId now]]; rewrite ?Hab; try done; try discriminate Hit.
  cbn [l_srv interrupt]. unfold onInputRequired.
  destruct (activeRunTaskId (l_srv l)) as [a|]; [|done]. by destruct (truthy a).
Qed.

Lemma send_fails s ps e text T resumed s0 m :
  userTextOf ps = Ok text →
  resolveTask s (clock e 0) (uuid_task e)
              (default (uuid_context e) (ps ≫= p_contextId)) = Ok (T, resumed, s0) →
  outcome e = RunThrows m →
  wf (store s) →
  (messageSend s ps e).2 = RpcError 500 (-32603) m
  ∧ ∃ t', wf (store (messageSend s ps e).1)
          ∧ getTask (store (messageSend s ps e).1) T = Some t'
          ∧ status t' = mkStatus failed (truthy_opt (Some m)).
Proof.
  intros Hu Hr Ho Hwf. unfold messageSend, send_begin. rewrite Hu, Hr, Ho.
  apply resolveTask_Ok in Hr as (Hs & _).
  set (p := mkPending _ _ _ _ _). set (s1 := with_active _ _).
  set (sx := foldl interrupt s1 _).
  assert (evolve T (store s0) (store sx)) as Hx.
  { etrans; [|apply interrupts_evolve]. subst s1. srv_simpl. evolve_tac. }
  destruct (evolve_is_Some _ T _ _ Hx (starts_is_Some _ _ _ _ _ Hs)) as [tx Htx].
  cbn [send_end]. unfold send_catch. srv_simpl. split; [done|].
  eexists. split_and!.
  - eapply (wf_evolve T (store s0)); [|by eapply starts_wf].
    etrans; [exact Hx|]. evolve_tac.
  - cbn [run_taskId p]. rewrite getTask_updateTaskStatus, Htx.
    cbn [fmap option_fmap option_map].
    by rewrite decide_True by (by eapply getTask_id).
  - done.
Qed.

Lemma stream_fails s ps e text T resumed s0 m :
  userTextOf ps = Ok text →
  resolveTask s (clock e 0) (uuid_task e)
              (default (uuid_context e) (ps ≫= p_contextId)) = Ok (T, resumed, s0) →
  outcome e = RunThrows m →
  undisturbed e →
  wf (store s) →
  (∃ events t',
     (messageStream s ps e).2
     = EventStream (events ++ [Server.StatusUpdate T
                                 (default (uuid_context e) (ps ≫= p_contextId))
                                 failed (Some m);
                               TaskSnapshot (taskToA2A t'); DONE]) true
     ∧ getTask (store (messageStream s ps e).1) T = Some t'
     ∧ status t' = mkStatus failed (truthy_opt (Some m)))
  ∧ wf (store (messageStream s ps e).1).
Proof.
  intros Hu Hr Ho Hund Hwf. unfold messageStream, stream_begin. rewrite Hu, Hr, Ho.
  pose proof Hr as (Hs & _ & _ & _ & Hctl)%resolveTask_Ok.
  set (p := mkPending _ _ _ _ _). set (s1 := with_active _ _).
  set (l0 := mkLoop s1 _ _ _ _).
  assert (evolve T (store s0) (store s1)) as H1.
  { subst s1. destruct resumed; srv_simpl; evolve_tac. }
  assert (controllers (l_srv l0) !! run_ac p = Some false) as Hc0.
  { subst l0 s1. cbn [l_srv run_ac p]. destruct resumed; srv_simpl;
      by rewrite lookup_app_r, Nat.sub_diag by lia. }
  destruct (stream_loop_not_broken p e (during e) l0 Hund eq_refl Hc0) as [Hb _].
  set (lx := foldl (stream_item p e) l0 (during e)) in *.
  assert (evolve T (store s0) (store (l_srv lx))) as Hx.
  { etrans; [exact H1|]. apply (stream_loop_evolve p e (during e) l0). }
  destruct (evolve_is_Some _ T _ _ Hx (starts_is_Some _ _ _ _ _ Hs)) as [tx Htx].
  unfold stream_end. rewrite Hb. unfold stream_catch, close_stream, stream_finally.
  srv_simpl. cbn [run_taskId run_contextId p].
  rewrite getTask_updateTaskStatus, Htx. cbn [fmap option_fmap option_map].
  rewrite decide_True by (by eapply getTask_id). cbn [default from_option id].
  split.
  - eexists _, _. split_and!; [by rewrite <- app_assoc|reflexivity|reflexivity].
  - srv_simpl. eapply (wf_evolve T (store s0)); [|by eapply starts_wf].
    etrans; [exact Hx|]. evolve_tac.
Qed.

(** C7, as the endpoint has it.  Take a [message/send] or
    [message/stream] request that passes validation and gets its task
    [T], and whose run throws an error with a non-empty message [m] (for
    [message/stream]: while the handler is still iterating, no
    cancellation being served meanwhile).  Then the error reaches the
    caller, as the JSON-RPC error [-32603] carrying [m] for
    [message/send] and as the [failed] status update carrying [m],
    followed by the task snapshot and the end marker, for
    [message/stream]; the task is stored as [failed] with [m]; and after
    any requests served later, [tasks/get] for [T] still returns the
    status [failed] carrying [m].  The SDK-based executor, on its side,
    publishes the final [failed] status carrying [m] and finishes. *)
Theorem generation_failure_is_recorded
    (s : Srv) (ps : option Params) (e : Env) (text T m : string) (resumed : bool)
    (s0 : Srv) (later : list (A2AJsonRpcRequest * Env)) (e' : Env) :
  wf (store s) →
  userTextOf ps = Ok text →
  resolveTask s (clock e 0) (uuid_task e)
              (default (uuid_context e) (ps ≫= p_contextId)) = Ok (T, resumed, s0) →
  T ≠ "" →
  outcome e = RunThrows m →
  m ≠ "" →
  (let r := messageSend s ps e in
   r.2 = RpcError 500 (-32603) m
   ∧ ∃ t', getTask (store r.1) T = Some t'
           ∧ status t' = mkStatus failed (Some m)
           ∧ (a2a (serve r.1 later) (get_request T) e').2 = RpcResult (taskToA2A t'))
  ∧ (undisturbed e →
     let r := messageStream s ps e in
     ∃ events t',
       r.2 = EventStream (events ++ [Server.StatusUpdate T
                                       (default (uuid_context e) (ps ≫= p_contextId))
                                       failed (Some m);
                                     TaskSnapshot (taskToA2A t'); DONE]) true
       ∧ getTask (store r.1) T = Some t'
       ∧ status t' = mkStatus failed (Some m)
       ∧ (a2a (serve r.1 later) (get_request T) e').2 = RpcResult (taskToA2A t'))
  ∧ (∀ db now run,
       Executor.execute_end db now run (Executor.RunThrows (Executor.ErrorWith m))
       = (db, Executor.r_published run
              ++ [Executor.StatusUpdate (Executor.x_taskId (Executor.r_context run))
                                        (Executor.x_contextId (Executor.r_context run))
                                        failed (Some m) true;
                  Executor.Finished])).
Proof.
  intros Hwf Hu Hr HT Ho Hm.
  assert (truthy_opt (Some m) = Some m) as Htm.
  { cbn. by rewrite (truthy_ne _ Hm). }
  split_and!; [| |done].
  - intros r. subst r.
    destruct (send_fails s ps e text T resumed s0 m Hu Hr Ho Hwf) as (Hresp & t' & Hwf' & Ht' & Hst).
    rewrite Htm in Hst. split; [done|]. exists t'. split_and!; [done..|].
    apply tasksGet_frozen; [done|]. apply frozen_serve. split_and!; [done..|by rewrite Hst].
  - intros Hund r. subst r.
    destruct (stream_fails s ps e text T resumed s0 m Hu Hr Ho Hund Hwf)
      as ((events & t' & Hresp & Ht' & Hst) & Hwf').
    rewrite Htm in Hst. exists events, t'. split_and!; [done..|].
    apply tasksGet_frozen; [done|]. apply frozen_serve. split_and!; [done..|by rewrite Hst].
Qed.

Definition ps_ask : option Params :=
  Some (mkParams (Some (mkMessage "user" [mkMsgPart "text" (Some "What is x84?")]))
                 (Some "s1") None).

Definition env_fail (m : string) : Env :=
  mkEnv "ctx-1" "task-1" (λ n, 2000 + Z.of_nat n) [ModelDelta (Some "x84 is")]
        (RunThrows m).

Lemma generation_failure_is_recorded_witness :
  wf (store init)
  ∧ userTextOf ps_ask = Ok "What is x84?"
  ∧ undisturbed (env_fail "rate limited")
  ∧ (messageSend init ps_ask (env_fail "rate limited")).2
    = RpcError 500 (-32603) "rate limited"
  ∧ (a2a (serve (messageSend init ps_ask (env_fail "rate limited")).1
                [(cancel_request "task-1", env0)])
         (get_request "task-1") env0).2
    = RpcResult (mkA2ATask "task-1" "s1" (mkStatus failed (Some "rate limited")) []).
Proof.
  assert (wf (store init)) as Hwf by apply NoDup_nil_2.
  destruct (generation_failure_is_recorded init ps_ask (env_fail "rate limited")
              "What is x84?" "task-1" "rate limited" false _
              [(cancel_request "task-1", env0)] env0 Hwf eq_refl eq_refl
              ltac:(discriminate) eq_refl ltac:(discriminate))
    as ((Hresp & t' & Ht' & Hst & Hget) & _).
  split_and!; [exact Hwf | reflexivity | reflexivity | exact Hresp |].
  rewrite Hget. vm_compute in Ht'. by injection Ht' as <-.
Defined.

(** C7 as stated fails for an error whose message is the empty string:
    the row stores the empty message, and [rowToTask] leaves a falsy
    message out, so [tasks/get] returns the [failed] status without a
    message. *)
Lemma empty_failure_message_is_dropped :
  let r := messageSend init ps_ask (env_fail "") in
  r.2 = RpcError 500 (-32603) ""
  ∧ row_message <$> taskGet "task-1" (tasks (store r.1)) = Some (Some "")
  ∧ (a2a r.1 (get_request "task-1") env0).2
    = RpcResult (mkA2ATask "task-1" "s1" (mkStatus failed None) []).
Proof. vm_compute. done. Qed.

(** ** Two runs in flight *)

Definition ps_of (contextId text : string) : option Params :=
  Some (mkParams (Some (mkMessage "user" [mkMsgPart "text" (Some text)]))
                 (Some contextId) None).

Definition env_of (taskId answer : string) : Env :=
  mkEnv "ctx" taskId (λ n, 3000 + Z.of_nat n) [] (RunReturns (Some answer) None).

(** C8 at the failing input.  Requests A (context ["cA"], task ["tA"])
    and B (context ["cB"], task ["tB"]) overlap, and only the agent
    running for A asks for clarification.  The callback reads the shared
    [activeRunTaskId], which B's handler has overwritten, so the flag is
    set for ["tB"]: A is answered [completed] and B [input-required]. *)
Theorem clarification_marks_the_other_run :
  overlap init (ps_of "cA" "how do I set it up?") (ps_of "cB" "What is x84?")
          (env_of "tA" "Set up what?") (env_of "tB" "x84 is a protocol.") true
  = Some (RpcResult (mkA2ATask "tA" "cA" (mkStatus completed None)
                               [response_artifact "Set up what?"]),
          RpcResult (mkA2ATask "tB" "cB" (mkStatus input_required None)
                               [response_artifact "x84 is a protocol."])).
Proof. vm_compute. reflexivity. Qed.

(** Served one after the other, the same two requests end as they should. *)
Lemma clarification_in_sequence :
  let rA := messageSend init (ps_of "cA" "how do I set it up?")
              (mkEnv "ctx" "tA" (λ n, 3000 + Z.of_nat n) [Meanwhile Clarification]
                     (RunReturns (Some "Set up what?") None)) in
  let rB := messageSend rA.1 (ps_of "cB" "What is x84?") (env_of "tB" "x84 is a protocol.") in
  a2a_status <$> (match rA.2 with RpcResult t => Some t | _ => None end)
  = Some (mkStatus input_required None)
  ∧ a2a_status <$> (match rB.2 with RpcResult t => Some t | _ => None end)
    = Some (mkStatus completed None).
Proof. vm_compute. done. Qed.

(** ** Scenarios *)

(** The scenario of the specification: [message/send] with context
    ["s1"] and text ["What is x84?"] ends [completed] with the answer as
    artifact, and the session of ["s1"] holds the response id. *)
Example send_completes :
  let e := mkEnv "ctx-1" "task-1" (λ n, 2000 + Z.of_nat n) []
                 (RunReturns (Some "x84 is a settlement layer.") (Some "resp_7")) in
  let r := messageSend init ps_ask e in
  r.2 = RpcResult (mkA2ATask "task-1" "s1" (mkStatus completed None)
                             [response_artifact "x84 is a settlement layer."])
  ∧ getSession (store r.1) "s1" = Some "resp_7".
Proof. vm_compute. done. Qed.

(** A [tasks/cancel] served in the middle of a stream: the task is
    [working] when it arrives, the loop is left at the next event, and
    the task ends [canceled] with the text streamed until then. *)
Example stream_canceled_midway :
  let e := mkEnv "ctx-1" "task-1" (λ n, 2000 + Z.of_nat n)
                 [ModelDelta (Some "x84 ");
                  Meanwhile (CancelArrives (Some "task-1") 2500);
                  ModelDelta (Some "is")]
                 (RunReturns (Some "x84 is") (Some "resp_7")) in
  (messageStream init ps_ask e).2
  = EventStream
      [Server.StatusUpdate "task-1" "s1" working (Some "Thinking...");
       ArtifactUpdate "task-1" "s1" (mkArtifact "response" [text_part "x84 "] (Some true));
       Server.StatusUpdate "task-1" "s1" canceled (Some "Canceled by client");
       TaskSnapshot (mkA2ATask "task-1" "s1"
                               (mkStatus canceled (Some "Canceled by client"))
                               [response_artifact "x84 "]);
       DONE]
      true.
Proof. vm_compute. reflexivity. Qed.

End ServerFacts.

(* ================================================================== *)
(** * Facts about the executor *)

Module ExecutorFacts.
Import Store Executor.

(** In the executor each execution owns its [inputRequired] variable: a
    clarification asked by execution [i] changes the end state of [i]
    only. *)
Lemma fire_self (i : nat) (runs : list Run) (r : Run) :
  runs !! i = Some r → end_state <$> fire i runs !! i = Some input_required.
Proof. intros H. unfold fire. by rewrite list_lookup_alter_eq, H. Qed.

Lemma fire_other (i j : nat) (runs : list Run) :
  i ≠ j → fire i runs !! j = runs !! j.
Proof. intros H. unfold fire. by rewrite list_lookup_alter_ne. Qed.

Lemma execute_end_state db now r finalOutput lastResponseId :
  ∃ events,
    (execute_end db now r (RunReturns finalOutput lastResponseId)).2
    = events ++ [StatusUpdate (x_taskId (r_context r)) (x_contextId (r_context r))
                              (end_state r)
                              (if r_inputRequired r then Some "Waiting for user input"
                               else None)
                              true;
                 Finished].
Proof.
  exists (r_published r
          ++ publishArtifact (x_taskId (r_context r)) (x_contextId (r_context r)) "response"
                             (default "I was unable to generate a response." finalOutput)).
  cbn [execute_end snd]. unfold end_state. rewrite <- app_assoc.
  by destruct (r_inputRequired r).
Qed.

End ExecutorFacts.

(* ================================================================== *)
(** * Facts about retrieval *)

Module RagFacts.
Import Rag.

(** ** Strings *)

Lemma split_not_nil s : split s ≠ [].
Proof.
  destruct s as [|c rest]; [done|]. cbn [split].
  destruct (c =? LF)%N; [done|]. by destruct (split rest).
Qed.

Lemma join_cons line line' rest : join (line :: line' :: rest) = line ++ LF :: join (line' :: rest).
Proof. reflexivity. Qed.

Lemma join_split s : join (split s) = s.
Proof.
  induction s as [|c rest IH]; [done|]. cbn [split].
  destruct (c =? LF)%N eqn:E.
  - apply N.eqb_eq in E as ->.
    destruct (split rest) as [|l ls] eqn:Es; [by apply split_not_nil in Es|].
    rewrite join_cons, IH. reflexivity.
  - destruct (split rest) as [|l ls] eqn:Es; [by apply split_not_nil in Es|].
    destruct ls as [|l' ls].
    + cbn in *. by rewrite IH.
    + rewrite join_cons in *. cbn [app]. by rewrite IH.
Qed.

Lemma join_lines_app a b : a ≠ [] → b ≠ [] → join (a ++ b) = join a ++ LF :: join b.
Proof.
  intros Ha Hb. induction a as [|x a IH]; [done|].
  destruct a as [|y a].
  - destruct b as [|z b]; [done|]. reflexivity.
  - cbn [app] in *. rewrite !join_cons, IH by done. by rewrite <- app_assoc.
Qed.

Lemma dropWhile_split f s :
  ∃ dropped, s = dropped ++ dropWhile f s ∧ forallb f dropped = true.
Proof.
  induction s as [|c rest (d & Hd & Hf)]; [by exists []|].
  cbn [dropWhile]. destruct (f c) eqn:E.
  - exists (c :: d). cbn. rewrite E, Hf. split; [by f_equal|done].
  - by exists [].
Qed.

(** [trim] removes white space at both ends and nothing else. *)
Lemma trim_split s :
  ∃ front back, s = front ++ trim s ++ back
                ∧ forallb is_space front = true ∧ forallb is_space back = true.
Proof.
  unfold trim, trimEnd, trimStart.
  destruct (dropWhile_split is_space s) as (front & Hs & Hfront).
  destruct (dropWhile_split is_space (rev (dropWhile is_space s))) as (kcab & Hr & Hback).
  exists front, (rev kcab). split_and!; [|done|].
  - rewrite Hs at 1. f_equal. rewrite <- rev_app_distr, <- Hr. by rewrite rev_involutive.
  - rewrite forallb_forall in *. intros x Hx. apply Hback. by apply in_rev.
Qed.

(** ** Sections *)

Lemma concat_group_lines h current lines :
  concat (group_lines h current lines) = current ++ lines.
Proof.
  revert current. induction lines as [|line rest IH]; intros current; cbn [group_lines].
  - cbn. by rewrite !app_nil_r.
  - destruct (h line).
    + cbn [concat]. by rewrite IH.
    + by rewrite IH, <- app_assoc.
Qed.

Lemma concat_filter_nonempty (gs : list (list jsstring)) :
  concat (List.filter nonempty gs) = concat gs.
Proof.
  induction gs as [|g gs IH]; [done|]. cbn [List.filter].
  destruct g as [|x g]; cbn [nonempty concat]; by rewrite IH.
Qed.

Lemma join_concat (gs : list (list jsstring)) :
  forallb nonempty gs = true → join (join <$> gs) = join (concat gs).
Proof.
  induction gs as [|g gs IH]; [done|]. cbn [forallb]. intros [Hg Hgs]%andb_true_iff.
  destruct gs as [|g' gs].
  - cbn. by rewrite app_nil_r.
  - rewrite !fmap_cons, join_cons. rewrite !fmap_cons in IH. rewrite IH by done.
    cbn [concat]. rewrite (join_lines_app g (g' ++ concat gs)); [done|by destruct g|].
    cbn [forallb] in Hgs. apply andb_true_iff in Hgs as [Hg' _]. by destruct g'.
Qed.

Lemma forallb_filter {A} (f : A → bool) (l : list A) : forallb f (List.filter f l) = true.
Proof.
  induction l as [|x l IH]; [done|]. cbn [List.filter].
  destruct (f x) eqn:E; [|done]. cbn [forallb]. by rewrite E, IH.
Qed.

(** The sections of a text, joined by the line feeds that separated
    them, are the text. *)
Lemma join_sections h text : join (sections h text) = text.
Proof.
  unfold sections. rewrite join_concat by apply forallb_filter.
  rewrite concat_filter_nonempty, concat_group_lines. apply join_split.
Qed.

Lemma kept_app a b : kept (a ++ b) = kept a ++ kept b.
Proof. unfold kept. by rewrite fmap_app, List.filter_app. Qed.

Lemma filter_nonempty_cons (g : list jsstring) gs :
  List.filter nonempty (g :: gs)
  = (match g with [] => [] | _ => [g] end) ++ List.filter nonempty gs.
Proof. by destruct g. Qed.

(** ** The chunker *)

Lemma flush_content source st :
  content <$> flush source st
  = (content <$> chunks st)
    ++ kept (join <$> List.filter nonempty [currentLines st]).
Proof.
  unfold flush, kept. destruct (currentLines st) as [|line rest] eqn:E.
  - cbn. by rewrite app_nil_r.
  - cbn [List.filter nonempty fmap list_fmap].
    set (text := trim (join (line :: rest))).
    destruct (long_enough text) eqn:El.
    + by rewrite fmap_app.
    + by rewrite app_nil_r.
Qed.

Lemma scan_content source lines st :
  content <$> flush source (foldl (scan_line source) st lines)
  = (content <$> chunks st)
    ++ kept (join <$> List.filter nonempty (group_lines is_h2 (currentLines st) lines)).
Proof.
  revert st. induction lines as [|line rest IH]; intros st.
  - apply flush_content.
  - cbn [foldl group_lines]. rewrite IH. unfold scan_line.
    destruct (is_h2 line); cbn [chunks currentLines]; [|done].
    rewrite flush_content, <- app_assoc. f_equal.
    rewrite <- kept_app, <- fmap_app. do 2 f_equal. by destruct (currentLines st).
Qed.

Lemma topLevel_content source text :
  content <$> topLevel source text = kept (sections is_h2 text).
Proof. unfold topLevel. by rewrite scan_content. Qed.

(** The last lines of [splitBySubheadings] before its [return]. *)
Definition sub_flush (chunk : Chunk) (st : SubScan) : list Chunk :=
  match subLines st with
  | [] => subChunks st
  | _ =>
      let text := trim (join (subLines st)) in
      if long_enough text
      then subChunks st ++ [mkChunk (sub_id chunk (idx st)) (source chunk)
                                    (subHeading st) text]
      else subChunks st
  end.

Lemma sub_flush_content chunk st :
  content <$> sub_flush chunk st
  = (content <$> subChunks st)
    ++ kept (join <$> List.filter nonempty [subLines st]).
Proof.
  unfold sub_flush, kept. destruct (subLines st) as [|line rest] eqn:E.
  - cbn. by rewrite app_nil_r.
  - cbn [List.filter nonempty fmap list_fmap].
    set (text := trim (join (line :: rest))).
    destruct (long_enough text) eqn:El.
    + by rewrite fmap_app.
    + by rewrite app_nil_r.
Qed.

Lemma sub_line_heading chunk st line :
  is_h3 line = true →
  subChunks (sub_line chunk st line) = sub_flush chunk st
  ∧ subLines (sub_line chunk st line) = [line].
Proof.
  intros H. unfold sub_line, sub_flush. rewrite H.
  destruct (subLines st) as [|l ls]; [done|].
  by destruct (long_enough (trim (join (l :: ls)))).
Qed.

Lemma sub_scan_content chunk lines st :
  content <$> sub_flush chunk (foldl (sub_line chunk) st lines)
  = (content <$> subChunks st)
    ++ kept (join <$> List.filter nonempty (group_lines is_h3 (subLines st) lines)).
Proof.
  revert st. induction lines as [|line rest IH]; intros st.
  - apply sub_flush_content.
  - cbn [foldl group_lines]. rewrite IH.
    destruct (is_h3 line) eqn:Hh.
    + destruct (sub_line_heading chunk st line Hh) as [-> ->].
      rewrite sub_flush_content, <- app_assoc. f_equal.
      rewrite <- kept_app, <- fmap_app. do 2 f_equal. by destruct (subLines st).
    + unfold sub_line. by rewrite Hh.
Qed.

Lemma splitBySubheadings_content chunk :
  content <$> splitBySubheadings chunk
  = match kept (sections is_h3 (content chunk)) with
    | [] => [content chunk]
    | sub => sub
    end.
Proof.
  pose proof (sub_scan_content chunk (split (content chunk))
                               (mkSubScan [] (heading chunk) [] 0)) as H.
  cbn [subChunks subLines fmap list_fmap app] in H. fold (sections is_h3 (content chunk)) in H.
  set (final := sub_flush chunk (foldl (sub_line chunk) (mkSubScan [] (heading chunk) [] 0)
                                       (split (content chunk)))) in *.
  assert (splitBySubheadings chunk = match final with [] => [chunk] | _ => final end) as ->
    by reflexivity.
  rewrite <- H. by destruct final.
Qed.

(** C5.  Cut the text at its top-level headings (lines starting with
    ["## "]): these sections, joined by the line feeds between them,
    are the text itself.  The chunks of [chunkMarkdown], in order, are
    the sections with white space trimmed off both ends, except that a
    section whose trimmed length is at most 50 is left out, and that a
    section longer than 3000 is replaced by its sub-sections (cut at the
    lines starting with ["### "], which joined give the section again),
    trimmed and filtered in the same way, or kept whole when no
    sub-section survives.  Trimming takes away white space at the two
    ends only. *)
Theorem chunkMarkdown_reconstructs (source text : jsstring) :
  let pieces := sections is_h2 text in
  join pieces = text
  ∧ content <$> topLevel source text = kept pieces
  ∧ content <$> chunkMarkdown source text
    = flat_map (λ c, if oversized c
                     then match kept (sections is_h3 c) with
                          | [] => [c]
                          | sub => sub
                          end
                     else [c])
               (kept pieces)
  ∧ (∀ c, join (sections is_h3 c) = c)
  ∧ (∀ s, ∃ front back, s = front ++ trim s ++ back
                        ∧ forallb is_space front = true
                        ∧ forallb is_space back = true).
Proof.
  intros pieces. subst pieces. split_and!.
  - apply join_sections.
  - apply topLevel_content.
  - unfold chunkMarkdown. rewrite <- (topLevel_content source).
    induction (topLevel source text) as [|c l IH]; [done|].
    cbn [flat_map fmap list_fmap]. rewrite fmap_app, IH. f_equal.
    destruct (oversized (content c)); [|done]. apply splitBySubheadings_content.
  - intros c. apply join_sections.
  - apply trim_split.
Qed.

(** The example of the specification: one document with two [##]
    sections above the noise threshold gives two chunks, numbered in
    order; the title line before them is noise. *)
Definition two_sections : jsstring :=
  lit "# Title" ++ [LF; LF]
  ++ lit "## First section" ++ [LF]
  ++ lit "This section has more than fifty characters of content, really." ++ [LF; LF]
  ++ lit "## Second section" ++ [LF]
  ++ lit "Another section which has more than fifty characters of content." ++ [LF].

Example chunkMarkdown_two_sections :
  (λ c, (id c, heading c)) <$> chunkMarkdown (lit "faq.md") two_sections
  = [(lit "faq.md:0", lit "First section"); (lit "faq.md:1", lit "Second section")].
Proof. vm_compute. reflexivity. Qed.

(** ** The embedding cache *)

Section Cache.

Context (sha256 : jsstring → jsstring).
Context (JSON_parse : jsstring → option CacheFile).
Context (JSON_stringify : CacheFile → jsstring).
Context (embeddings_create : list jsstring → Result (list (nat * list float))).

Local Abbreviation init := (init sha256 JSON_parse JSON_stringify embeddings_create).
Local Abbreviation build := (build JSON_stringify embeddings_create).
Local Abbreviation load := (load JSON_parse).
Local Abbreviation valid := (valid JSON_parse).

Lemma load_Some d hash cache : load d hash = Some cache ↔ valid d hash cache.
Proof.
  unfold Rag.load, valid. destruct (cacheFile d) as [text|].
  - destruct (JSON_parse text) as [c|] eqn:Ep.
    + destruct (decide (sourceHash c = hash)) as [E1|E1];
        destruct (decide (model c = EMBEDDING_MODEL)) as [E2|E2];
        rewrite ?(bool_decide_eq_true_2 _ E1), ?(bool_decide_eq_true_2 _ E2),
                ?(bool_decide_eq_false_2 _ E1), ?(bool_decide_eq_false_2 _ E2);
        cbn [andb]; (split; [intros [= <-] | intros (t & [= <-] & Hp & H1 & H2)]);
        try (rewrite Ep in Hp; injection Hp as <-); try done.
      by exists text.
    + split; [done|]. intros (t & [= <-] & Hp & _). congruence.
  - split; [done|]. by intros (t & Ht & _).
Qed.

Lemma chunk_imap (f : nat → Chunk → list float) (l : list Chunk) :
  chunk <$> imap (λ i c, mkEmbedded c (f i c)) l = l.
Proof.
  revert f. induction l as [|c l IH]; intros f; [done|].
  rewrite imap_cons, fmap_cons. cbn [chunk]. f_equal. apply (IH (λ i, f (S i))).
Qed.

Lemma build_Ok d hash r :
  build d hash = Ok r →
  ∃ files,
    readAll d KNOWLEDGE_FILES = Ok files
    ∧ chunk <$> index r = flat_map (λ '(file, text), chunkMarkdown file text) files
    ∧ embedded r = [embed_text <$> (chunk <$> index r)]
    ∧ count r = length (index r)
    ∧ ∃ snapshot, cacheFile (disk_after r) = Some (JSON_stringify snapshot)
                  ∧ sourceHash snapshot = hash
                  ∧ model snapshot = EMBEDDING_MODEL
                  ∧ cached snapshot = index r.
Proof.
  unfold Rag.build. destruct (readAll d KNOWLEDGE_FILES) as [files|]; [|done].
  destruct (embedTexts _ _) as [embeddings|]; [|done].
  intros [= <-]. exists files. cbn [index embedded count disk_after cacheFile].
  rewrite chunk_imap. split_and!; try done. eexists. split_and!; reflexivity.
Qed.

Lemma insert_at_end {A} (before : A → A → bool) (x : A) (l : list A) :
  Forall (λ y, before x y = false) l → insert before x l = l ++ [x].
Proof.
  induction 1 as [|y l Hy _ IH]; [done|]. cbn [insert]. by rewrite Hy, IH.
Qed.

(** Data listed by ascending index are left in place by the sort of
    [embedTexts]. *)
Lemma sort_in_order (es : list (list float)) :
  sort (λ a b : nat * list float, (a.1 <? b.1)%nat) (imap (λ i e, (i, e)) es)
  = imap (λ i e, (i, e)) es.
Proof.
  induction es as [|e es IH] using rev_ind; [done|].
  rewrite imap_app. cbn [imap]. unfold sort in *. rewrite foldl_app. cbn [foldl].
  rewrite IH. apply insert_at_end. apply Forall_forall. intros y Hy.
  apply elem_of_lookup_imap in Hy as (i & x & -> & Hi). cbn.
  apply lookup_lt_Some in Hi. apply Nat.ltb_ge. lia.
Qed.

Lemma snd_in_order (k : nat) (es : list (list float)) :
  snd <$> imap (λ i e, ((k + i)%nat, e)) es = es.
Proof.
  revert k. induction es as [|e es IH]; intros k; [done|].
  cbn [imap fmap list_fmap]. f_equal.
  rewrite <- (IH (S k)) at 2. f_equal. apply imap_ext. intros i x _. cbn. f_equal. lia.
Qed.

Lemma embedTexts_in_order texts es :
  embeddings_create texts = Ok (imap (λ i e, (i, e)) es) →
  embedTexts embeddings_create texts = Ok es.
Proof.
  intros H. unfold embedTexts. rewrite H, sort_in_order. f_equal.
  apply (snd_in_order 0).
Qed.

(** Pairing the [i]-th chunk with [embeddings[i]], when there is one
    embedding per chunk. *)
Lemma pair_by_position (cs : list Chunk) (es : list (list float)) :
  length es = length cs →
  imap (λ i c, mkEmbedded c (default [] (es !! i))) cs = zip_with mkEmbedded cs es.
Proof.
  revert es. induction cs as [|c cs IH]; intros [|e es] Hl; try done.
  cbn [imap zip_with]. f_equal. apply IH. by injection Hl.
Qed.

(** C6.  With [hash] the digest of the current source documents, which
    are then all readable:
    - when the cache file exists, parses, and carries this [hash] and
      the configured model, [init] loads it: it returns the chunks of the
      snapshot, sends nothing to the embedding API and leaves the disk
      alone;
    - in every other case [init] rebuilds in full: it sends one batch
      holding the text of every chunk of every knowledge file, and when
      the API answers, it returns all these chunks, the [i]-th with the
      [i]-th embedding of the answer sorted by index, and writes a
      snapshot holding [hash], the model and exactly this index; when the
      API lists one embedding per input in input order, the index is the
      chunks paired with them; when the API fails, so does [init], with
      the error of the API;
    - so [init] succeeds without embedding exactly when the snapshot is
      valid;
    - with a cache file that does not parse, [init] does what it does
      without a cache file: it rebuilds, and raises no error of its
      own. *)
Theorem init_cache_policy (d : Disk) (hash : jsstring) :
  computeSourceHash sha256 d = Ok hash →
  ∃ files,
    readAll d KNOWLEDGE_FILES = Ok files
    ∧ fst <$> files = KNOWLEDGE_FILES
    ∧ hash = sha256 (concat (snd <$> files))
    ∧ let allChunks := flat_map (λ '(file, text), chunkMarkdown file text) files in
      let texts := embed_text <$> allChunks in
      (∀ cache, valid d hash cache →
                init d = Ok (mkInit (length (cached cache)) (cached cache) d []))
      ∧ (∀ data,
           (∀ cache, ¬ valid d hash cache) →
           embeddings_create texts = Ok data →
           let embeddings := snd <$> sort (λ a b, (a.1 <? b.1)%nat) data in
           let chunks := imap (λ i c, mkEmbedded c (default [] (embeddings !! i)))
                              allChunks in
           init d = Ok (mkInit (length allChunks) chunks
                               (mkDisk (prompts d)
                                       (Some (JSON_stringify
                                                (mkCache hash EMBEDDING_MODEL chunks))))
                               [texts]))
      ∧ (∀ es,
           (∀ cache, ¬ valid d hash cache) →
           embeddings_create texts = Ok (imap (λ i e, (i, e)) es) →
           length es = length allChunks →
           let chunks := zip_with mkEmbedded allChunks es in
           init d = Ok (mkInit (length allChunks) chunks
                               (mkDisk (prompts d)
                                       (Some (JSON_stringify
                                                (mkCache hash EMBEDDING_MODEL chunks))))
                               [texts]))
      ∧ (∀ e,
           (∀ cache, ¬ valid d hash cache) →
           embeddings_create texts = Throw e →
           init d = Throw e)
      ∧ ((∃ r, init d = Ok r ∧ embedded r = []) ↔ ∃ cache, valid d hash cache)
      ∧ (∀ text, cacheFile d = Some text → JSON_parse text = None →
                 init d = init (mkDisk (prompts d) None)).
Proof.
  intros Hh.
  assert (∃ files, readAll d KNOWLEDGE_FILES = Ok files
                   ∧ hash = sha256 (concat (snd <$> files))) as (files & Hr & Hhash).
  { unfold computeSourceHash in Hh.
    destruct (readAll d KNOWLEDGE_FILES) as [files|]; [|discriminate].
    injection Hh as <-. eauto. }
  assert (fst <$> files = KNOWLEDGE_FILES) as Hnames.
  { clear Hh Hhash. revert files Hr.
    induction KNOWLEDGE_FILES as [|file rest IH]; intros files Hr; cbn [readAll] in Hr.
    - by injection Hr as <-.
    - destruct (prompts d file) as [text|]; [|discriminate].
      destruct (readAll d rest) as [l|]; [|discriminate].
      injection Hr as <-. cbn. f_equal. by apply IH. }
  exists files. split; [exact Hr|]. split; [exact Hnames|]. split; [exact Hhash|].
  cbv zeta.
  assert (∀ cache, valid d hash cache →
            init d = Ok (mkInit (length (cached cache)) (cached cache) d [])) as Hhit.
  { intros cache Hv%load_Some. unfold Rag.init. by rewrite Hh, Hv. }
  assert ((∀ cache, ¬ valid d hash cache) → init d = build d hash) as Hmiss.
  { intros Hn. unfold Rag.init. rewrite Hh.
    destruct (load d hash) as [cache|] eqn:El; [|done].
    apply load_Some in El. by apply Hn in El. }
  split_and!.
  - exact Hhit.
  - intros data Hn Hapi. rewrite (Hmiss Hn). unfold Rag.build, embedTexts.
    rewrite Hr, Hapi. by rewrite length_imap.
  - intros es Hn Hapi Hlen. rewrite (Hmiss Hn). unfold Rag.build.
    rewrite Hr, (embedTexts_in_order _ _ Hapi), (pair_by_position _ _ Hlen).
    by rewrite length_zip_with, Hlen, Nat.min_id.
  - intros e Hn Hapi. rewrite (Hmiss Hn). unfold Rag.build, embedTexts.
    by rewrite Hr, Hapi.
  - split.
    + intros (r & Hri & He).
      destruct (load d hash) as [cache|] eqn:El; [apply load_Some in El; eauto|].
      exfalso. rewrite Hmiss in Hri.
      * apply build_Ok in Hri as (_ & _ & _ & He' & _). congruence.
      * intros cache Hv%load_Some. congruence.
    + intros (cache & Hv). rewrite (Hhit _ Hv). eauto.
  - intros text Hc Hp. unfold Rag.init.
    assert (computeSourceHash sha256 (mkDisk (prompts d) None) = Ok hash) as ->
      by exact Hh.
    rewrite Hh. unfold Rag.load. cbn [cacheFile]. rewrite Hc, Hp. reflexivity.
Qed.

End Cache.

(** ** Sorting *)

Section Sorting.

Context {A : Type} (before : A → A → bool).

(** The elements on which [before] is a strict weak order. *)
Context (D : A → Prop).
Context (asym : ∀ x y, D x → D y → before x y = true → before y x = false).
Context (trans : ∀ x y z, D x → D y → D z →
                   before x y = true → before y z = true → before x z = true).
Context (negtrans : ∀ x y z, D x → D y → D z →
                      before x y = false → before y z = false → before x z = false).

(** [y] need not come before [x]. *)
Definition not_after (x y : A) : Prop := before y x = false.

(** [x] and [s] tie. *)
Definition tied (s x : A) : bool := negb (before s x) && negb (before x s).

Lemma insert_perm x l : insert before x l ≡ₚ x :: l.
Proof.
  induction l as [|y l IH]; [done|]. cbn [insert].
  destruct (before x y); [done|]. rewrite IH. apply Permutation_swap.
Qed.

Lemma sort_snoc l x : sort before (l ++ [x]) = insert before x (sort before l).
Proof. unfold sort. by rewrite foldl_snoc. Qed.

Lemma sort_perm l : sort before l ≡ₚ l.
Proof.
  induction l as [|x l IH] using rev_ind; [reflexivity|].
  rewrite sort_snoc, insert_perm, IH. by rewrite Permutation_cons_append.
Qed.

Lemma insert_sorted x l :
  D x → Forall D l →
  StronglySorted not_after l → StronglySorted not_after (insert before x l).
Proof using asym trans.
  intros Hx Hl Hs. induction l as [|y l IH]; [repeat constructor|].
  apply Forall_cons in Hl as [Hy Hl]. apply StronglySorted_cons in Hs as [Hyl Hs].
  cbn [insert]. destruct (before x y) eqn:Exy.
  - apply StronglySorted_cons. split; [|by apply StronglySorted_cons].
    apply Forall_cons. split; [by apply asym|].
    rewrite Forall_forall in Hyl, Hl |- *. intros z Hz. unfold not_after.
    destruct (before z x) eqn:Ezx; [|done].
    rewrite <- (Hyl z Hz). symmetry. by apply (trans z x y); auto.
  - apply StronglySorted_cons. split; [|by apply IH].
    rewrite (insert_perm x l). by apply Forall_cons.
Qed.

Lemma sort_sorted l : Forall D l → StronglySorted not_after (sort before l).
Proof using asym trans.
  induction l as [|x l IH] using rev_ind; [constructor|].
  intros [Hl Hx]%Forall_app. rewrite Forall_singleton in Hx.
  rewrite sort_snoc. apply insert_sorted; [done| |by apply IH].
  by rewrite sort_perm.
Qed.

Lemma tied_trans s z x :
  D s → D z → D x → tied s z = true → tied s x = true → before x z = false.
Proof using negtrans.
  unfold tied. intros Hs Hz Hx [H1 H2]%andb_true_iff [H3 H4]%andb_true_iff.
  apply negb_true_iff in H1, H2, H3, H4. by apply (negtrans x s z).
Qed.

Lemma insert_stable s x l :
  D s → D x → Forall D l → StronglySorted not_after l →
  List.filter (tied s) (insert before x l)
  = List.filter (tied s) l ++ List.filter (tied s) [x].
Proof using negtrans.
  intros Hs Hx Hl Hsort. induction l as [|y l IH]; [done|].
  apply Forall_cons in Hl as [Hy Hl]. apply StronglySorted_cons in Hsort as [Hyl Hsort].
  cbn [insert]. destruct (before x y) eqn:Exy.
  - change (x :: y :: l) with ([x] ++ (y :: l)). rewrite List.filter_app.
    set (rest := List.filter (tied s) (y :: l)).
    cbn [List.filter]. destruct (tied s x) eqn:Esx; [|by rewrite app_nil_r].
    (* nothing that [x] precedes ties with [s] *)
    assert (rest = []) as ->; [|done].
    assert (Forall (λ z, tied s z = false) (y :: l)) as Hnone.
    { apply Forall_cons. split.
      - destruct (tied s y) eqn:Esy; [|done].
        rewrite <- Exy. by apply (tied_trans s y x).
      - rewrite Forall_forall in Hyl, Hl |- *. intros z Hz.
        destruct (tied s z) eqn:Esz; [|done].
        rewrite <- Exy. apply (negtrans x z y); auto.
        + by apply (tied_trans s z x); auto.
        + by apply Hyl. }
    subst rest. clear -Hnone. induction Hnone as [|z l' Hz _ IH']; [done|].
    cbn [List.filter]. by rewrite Hz.
  - cbn [List.filter]. rewrite IH by done. by destruct (tied s y).
Qed.

Lemma sort_stable s l :
  D s → Forall D l →
  List.filter (tied s) (sort before l) = List.filter (tied s) l.
Proof using asym trans negtrans.
  intros Hs. induction l as [|x l IH] using rev_ind; [done|].
  intros [Hl Hx]%Forall_app. rewrite Forall_singleton in Hx.
  rewrite sort_snoc, insert_stable, List.filter_app, IH; try done.
  - by rewrite sort_perm.
  - by apply sort_sorted.
Qed.

Lemma sorted_lookup (l : list A) i j x y :
  StronglySorted not_after l → (i < j)%nat →
  l !! i = Some x → l !! j = Some y → before y x = false.
Proof.
  intros Hs. revert i j. induction Hs as [|z l Hs IH Hz]; intros i j Hij Hi Hj; [done|].
  destruct j as [|j]; [lia|]. cbn in Hj. destruct i as [|i].
  - injection Hi as ->. rewrite Forall_forall in Hz. apply Hz.
    by eapply list_elem_of_lookup_2.
  - cbn in Hi. apply (IH i j); [lia|done..].
Qed.

End Sorting.

(** ** Search *)

Lemma comparable_spec scores x y z :
  comparable scores = true → In x scores → In y scores → In z scores →
  (x <? x)%float = false
  ∧ (y - x <? 0)%float = (y <? x)%float
  ∧ ((x <? y)%float = true → (y <? z)%float = true → (x <? z)%float = true)
  ∧ ((x <? y)%float = false → (y <? z)%float = false → (x <? z)%float = false).
Proof.
  unfold comparable. rewrite forallb_forall. intros H Hx Hy Hz.
  specialize (H x Hx). apply andb_true_iff in H as [Hirr H].
  rewrite forallb_forall in H. specialize (H y Hy). apply andb_true_iff in H as [Hsub H].
  rewrite forallb_forall in H. specialize (H z Hz). apply andb_true_iff in H as [Ht Hn].
  apply negb_true_iff in Hirr. apply Bool.eqb_prop in Hsub.
  split_and!; [done|done| |].
  - intros H1 H2. by rewrite H1, H2 in Ht.
  - intros H1 H2. rewrite H1, H2 in Hn. cbn in Hn. by apply negb_true_iff in Hn.
Qed.

Section Search.

Context (embeddings_create : list jsstring → Result (list (nat * list float))).

Local Abbreviation embedTexts := (embedTexts embeddings_create).
Local Abbreviation search := (search embeddings_create).

Lemma search_Ok chunks query k q rest :
  embedTexts [query] = Ok (q :: rest) → (0 ≤ k)%Z →
  search chunks query k = Ok (take (Z.to_nat k) (sort by_score (scored q chunks))).
Proof.
  intros He Hk. unfold Rag.search. rewrite He. unfold slice0.
  by rewrite (proj2 (Z.ltb_ge k 0) Hk).
Qed.

(** C4, as the store has it.  When the embedding of the query succeeds
    and [k >= 0], [search] returns the first [k] entries of a ranking of
    all (chunk, score) pairs of the store, hence [min k n] of them, and
    none for [k = 0] or an empty store.  When the scores are comparable
    (no NaN among them), no entry of the ranking has a lower score than
    a later one, and entries with tied scores keep the order of the
    store. *)
Theorem search_ranks (chunks : list EmbeddedChunk) (query : jsstring) (k : Z)
    (q : list float) (rest : list (list float)) :
  embedTexts [query] = Ok (q :: rest) →
  (0 ≤ k)%Z →
  ∃ ranked,
    search chunks query k = Ok (take (Z.to_nat k) ranked)
    ∧ length (take (Z.to_nat k) ranked) = Nat.min (Z.to_nat k) (length chunks)
    ∧ ranked ≡ₚ scored q chunks
    ∧ (comparable (snd <$> scored q chunks) = true →
       (∀ i j x y, (i < j)%nat → ranked !! i = Some x → ranked !! j = Some y →
                   (x.2 <? y.2)%float = false)
       ∧ (∀ s, s ∈ snd <$> scored q chunks →
               List.filter (λ x, tie x.2 s) ranked
               = List.filter (λ x, tie x.2 s) (scored q chunks))).
Proof.
  intros He Hk. exists (sort by_score (scored q chunks)).
  pose proof (sort_perm by_score (scored q chunks)) as Hperm.
  split_and!; [by apply (search_Ok _ _ _ _ rest)| |done|].
  - rewrite length_take, Hperm. unfold scored. by rewrite length_fmap.
  - intros Hc. set (scores := snd <$> scored q chunks) in *.
    set (D := λ x : Chunk * float, In x.2 scores).
    assert (Forall D (scored q chunks)) as HD.
    { apply Forall_forall. intros x Hx. apply list_elem_of_In.
      by apply list_elem_of_fmap_2. }
    assert (∀ x y, D x → D y → by_score x y = (y.2 <? x.2)%float) as Hby.
    { intros x y Hx Hy. unfold by_score.
      by destruct (comparable_spec scores x.2 y.2 y.2 Hc Hx Hy Hy) as (_ & -> & _). }
    assert (∀ x y, D x → D y → by_score x y = true → by_score y x = false) as asym.
    { intros x y Hx Hy. rewrite !Hby by done. intros Hlt.
      destruct (x.2 <? y.2)%float eqn:E; [|done].
      destruct (comparable_spec scores x.2 y.2 x.2 Hc Hx Hy Hx) as (Hirr & _ & Ht & _).
      rewrite <- Hirr. symmetry. by apply Ht. }
    assert (∀ x y z, D x → D y → D z →
              by_score x y = true → by_score y z = true → by_score x z = true) as trans.
    { intros x y z Hx Hy Hz. rewrite !Hby by done. intros H1 H2.
      destruct (comparable_spec scores z.2 y.2 x.2 Hc Hz Hy Hx) as (_ & _ & Ht & _). auto. }
    assert (∀ x y z, D x → D y → D z →
              by_score x y = false → by_score y z = false → by_score x z = false)
      as negtrans.
    { intros x y z Hx Hy Hz. rewrite !Hby by done. intros H1 H2.
      destruct (comparable_spec scores z.2 y.2 x.2 Hc Hz Hy Hx) as (_ & _ & _ & Hn). auto. }
    assert (Forall D (sort by_score (scored q chunks))) as HD' by (by rewrite Hperm).
    split.
    + intros i j x y Hij Hi Hj.
      pose proof (sorted_lookup by_score _ i j x y
                    (sort_sorted by_score D asym trans _ HD) Hij Hi Hj) as Hyx.
      rewrite Forall_forall in HD'.
      rewrite Hby in Hyx; [done|..]; apply HD'; by eapply list_elem_of_lookup_2.
    + intros s (s' & -> & Hs')%list_elem_of_fmap.
      assert (D s') as Hs by (rewrite Forall_forall in HD; by apply HD).
      assert (∀ l, Forall D l →
                List.filter (λ x, tie x.2 s'.2) l = List.filter (tied by_score s') l) as Hext.
      { intros l Hl. apply List.filter_ext_in. intros x Hx%list_elem_of_In.
        rewrite Forall_forall in Hl. unfold tie, tied.
        by rewrite !Hby by auto. }
      rewrite !Hext by done.
      by apply (sort_stable by_score D asym trans negtrans).
Qed.

End Search.

(** ** Concrete stores *)

(** An embedding API that answers every input with the same vector, and
    one that is unreachable. *)
Definition api_ok (texts : list jsstring) : Result (list (nat * list float)) :=
  Ok (imap (λ i _, (i, [1; 0]%float)) texts).

Definition api_down (texts : list jsstring) : Result (list (nat * list float)) :=
  Throw "Connection error.".

Definition chunk_of (n : nat) : Chunk :=
  mkChunk (lit "faq.md:" ++ dec n) (lit "faq.md") (lit "Section") (lit "text").

Definition store4 : list EmbeddedChunk :=
  [mkEmbedded (chunk_of 0) [0; 1]%float;
   mkEmbedded (chunk_of 1) [1; 1]%float;
   mkEmbedded (chunk_of 2) [2; 0]%float;
   mkEmbedded (chunk_of 3) [1; 1]%float].

Lemma search_ranks_witness :
  embedTexts api_ok [lit "x84"] = Ok [[1; 0]%float]
  ∧ comparable (snd <$> scored [1; 0]%float store4) = true
  ∧ ∃ ranked,
      search api_ok store4 (lit "x84") 3 = Ok (take 3 ranked)
      ∧ length (take 3 ranked) = 3%nat
      ∧ fst <$> take 3 ranked = [chunk_of 2; chunk_of 1; chunk_of 3].
Proof.
  split; [reflexivity|]. split; [vm_compute; reflexivity|].
  destruct (search_ranks api_ok store4 (lit "x84") 3 [1; 0]%float [] eq_refl
                         ltac:(discriminate))
    as (ranked & Hs & Hlen & _).
  exists ranked. split_and!; [exact Hs | exact Hlen |].
  pose proof (search_Ok api_ok store4 (lit "x84") 3 [1; 0]%float [] eq_refl
                         ltac:(discriminate)) as Hs'.
  rewrite Hs in Hs'. injection Hs' as Hs'.
  change (Z.to_nat 3) with 3%nat in Hs'. rewrite Hs'. vm_compute. reflexivity.
Defined.

(** C4 as stated fails on its last sentence: [search] first awaits the
    embedding of the query, also when the store is empty or [k = 0], and
    an error of that call is the error of [search]. *)
Lemma search_raises_when_embedding_fails :
  search api_down [] (lit "What is x84?") 0 = Throw "Connection error.".
Proof. reflexivity. Qed.

(** A disk with the three knowledge files and a cache file whose text
    does not parse. *)
Definition disk_corrupt : Disk :=
  mkDisk (λ file, Some two_sections) (Some (lit "{sourceHash:")).

Definition no_parse (text : jsstring) : option CacheFile := None.

(** A serialisation that writes the model and the number of chunks. *)
Definition to_json (cache : CacheFile) : jsstring :=
  lit "{model:" ++ model cache ++ lit ",chunks:" ++ dec (length (cached cache)) ++ lit "}".

(** On [disk_corrupt] the snapshot is not valid, so [init] rebuilds: it
    embeds the six chunks of the three files in one batch, returns them
    with their embeddings and writes the snapshot; and it does what it
    does without a cache file. *)
Lemma init_cache_policy_witness :
  computeSourceHash (λ text, text) disk_corrupt
  = Ok (two_sections ++ two_sections ++ two_sections ++ [])
  ∧ (∃ r, init (λ text, text) no_parse to_json api_ok disk_corrupt = Ok r
          ∧ count r = 6%nat
          ∧ id <$> (chunk <$> index r)
            = [lit "protocol.md:0"; lit "protocol.md:1"; lit "sdk-guide.md:0";
               lit "sdk-guide.md:1"; lit "faq.md:0"; lit "faq.md:1"]
          ∧ embedding <$> index r = replicate 6 [1; 0]%float
          ∧ length <$> embedded r = [6%nat]
          ∧ cacheFile (disk_after r)
            = Some (lit "{model:text-embedding-3-small,chunks:6}"))
  ∧ init (λ text, text) no_parse to_json api_ok disk_corrupt
    = init (λ text, text) no_parse to_json api_ok (mkDisk (prompts disk_corrupt) None).
Proof.
  destruct (init_cache_policy (λ text, text) no_parse to_json api_ok disk_corrupt _ eq_refl)
    as (files & Hr & _ & _ & _ & Hmiss & _ & _ & _ & Hcorrupt).
  split; [reflexivity|]. split; [|exact (Hcorrupt _ eq_refl eq_refl)].
  vm_compute in Hr. injection Hr as <-.
  eexists. split.
  - apply Hmiss; [|reflexivity].
    intros cache (text & _ & Hp & _). discriminate Hp.
  - vm_compute. repeat split.
Defined.

End RagFacts.
(* ================================================================== *)
(** * The store: sessions, task creation, queries, pruning *)

Module StoreLaws.
Import Store StoreFacts.

(** X1 (sessions are an upsert keyed by context).  After
    [setSession c r], [getSession c] is [r]; the session of every other
    context and all the tasks are as before; and a second [setSession]
    for the same context replaces the first, so the context never has
    two rows. *)
Theorem setSession_upsert (db : Db) (now now' : Z) (c r r' : string) :
  let db' := setSession db now c r in
  getSession db' c = Some r
  ∧ (∀ c', c' ≠ c → getSession db' c' = getSession db c')
  ∧ tasks db' = tasks db
  ∧ setSession db' now' c r' = setSession db now' c r'.
Proof.
  cbv zeta. unfold getSession, setSession. cbn [sessions tasks].
  split_and!.
  - by rewrite lookup_insert_eq.
  - intros c' Hc. by rewrite lookup_insert_ne.
  - done.
  - by rewrite insert_insert_eq.
Qed.

Lemma getTask_None db taskId : getTask db taskId = None ↔ taskId ∉ row_id <$> tasks db.
Proof.
  unfold getTask. rewrite fmap_None. apply taskGet_None.
Qed.

(** X2 ([createTask] and the primary key).  On an id that is taken
    [createTask] throws the constraint error.  On a fresh id it appends
    one row, returns the submitted task without artifacts stamped [now]
    twice, [getTask] then reads back exactly the task returned, every
    other id reads as before, the sessions are untouched and ids stay
    unique. *)
Theorem createTask_spec (db : Db) (now : Z) (id c : string) :
  (is_Some (getTask db id) →
   createTask db now id c = Throw "UNIQUE constraint failed: tasks.id")
  ∧ (getTask db id = None →
     ∃ db', createTask db now id c
            = Ok (mkTask id c (mkStatus submitted None) [] now now, db')
       ∧ tasks db' = tasks db ++ [mkRow id c submitted None [] now now]
       ∧ sessions db' = sessions db
       ∧ getTask db' id = Some (mkTask id c (mkStatus submitted None) [] now now)
       ∧ (∀ other, other ≠ id → getTask db' other = getTask db other)
       ∧ (NoDup (row_id <$> tasks db) → NoDup (row_id <$> tasks db'))).
Proof.
  unfold createTask, taskInsert, getTask. cbn [row_id].
  split.
  - intros [t Ht]. destruct (taskGet id (tasks db)); [done | discriminate].
  - intros Hn. apply fmap_None in Hn. rewrite Hn.
    eexists. split; [reflexivity|]. cbn [tasks sessions].
    split_and!; try done.
    + rewrite ServerFacts.taskGet_app, Hn, taskGet_cons. cbn [row_id].
      by rewrite decide_True.
    + intros other Ho. rewrite ServerFacts.taskGet_app.
      destruct (taskGet other (tasks db)); [done|].
      rewrite taskGet_cons. cbn [row_id]. by rewrite decide_False.
    + intros Hnd. rewrite fmap_app. apply NoDup_app. split_and!; [done | |].
      * intros x Hx Hx'. cbn in Hx'. apply list_elem_of_singleton in Hx'. subst x.
        by apply taskGet_None in Hn.
      * cbn. apply NoDup_singleton.
Qed.

Lemma activeTaskByContext_snoc c rows r :
  activeTaskByContext c (rows ++ [r])
  = if is_active c r then
      match activeTaskByContext c rows with
      | None => Some r
      | Some b => if row_updated_at b <? row_updated_at r then Some r else Some b
      end
    else activeTaskByContext c rows.
Proof. unfold activeTaskByContext. by rewrite foldl_app. Qed.

Lemma activeTaskByContext_max c rows :
  match activeTaskByContext c rows with
  | Some ra => ra ∈ rows ∧ is_active c ra = true
               ∧ ∀ r, r ∈ rows → is_active c r = true →
                      row_updated_at r ≤ row_updated_at ra
  | None => ∀ r, r ∈ rows → is_active c r = false
  end.
Proof.
  induction rows as [|r rows IH] using rev_ind.
  - cbn. intros r Hr. by apply elem_of_nil in Hr.
  - rewrite activeTaskByContext_snoc.
    destruct (is_active c r) eqn:Hr.
    + destruct (activeTaskByContext c rows) as [b|].
      * destruct IH as (Hb & Hab & Hmax).
        destruct (row_updated_at b <? row_updated_at r) eqn:Hlt.
        -- apply Z.ltb_lt in Hlt. split_and!; [set_solver | done |].
           intros r' Hr' Ha'. apply elem_of_app in Hr' as [Hr'|Hr'].
           ++ specialize (Hmax r' Hr' Ha'). lia.
           ++ apply list_elem_of_singleton in Hr'. subst r'. lia.
        -- apply Z.ltb_ge in Hlt. split_and!; [set_solver | done |].
           intros r' Hr' Ha'. apply elem_of_app in Hr' as [Hr'|Hr'].
           ++ by apply Hmax.
           ++ apply list_elem_of_singleton in Hr'. by subst r'.
      * split_and!; [set_solver | done |].
        intros r' Hr' Ha'. apply elem_of_app in Hr' as [Hr'|Hr'].
        -- rewrite (IH r' Hr') in Ha'. discriminate.
        -- apply list_elem_of_singleton in Hr'. subst r'. lia.
    + destruct (activeTaskByContext c rows) as [b|].
      * destruct IH as (Hb & Hab & Hmax). split_and!; [set_solver | done |].
        intros r' Hr' Ha'. apply elem_of_app in Hr' as [Hr'|Hr'].
        -- by apply Hmax.
        -- apply list_elem_of_singleton in Hr'. subst r'. congruence.
      * intros r' Hr'. apply elem_of_app in Hr' as [Hr'|Hr'].
        -- by apply IH.
        -- apply list_elem_of_singleton in Hr'. by subst r'.
Qed.

Lemma taskGet_elem rows r :
  NoDup (row_id <$> rows) → r ∈ rows → taskGet (row_id r) rows = Some r.
Proof.
  intros Hnd Hr.
  destruct (taskGet (row_id r) rows) as [r'|] eqn:Hg.
  - apply taskGet_Some in Hg as [Hr' Hid].
    f_equal. by apply (ServerFacts.same_id_same_row rows).
  - apply taskGet_None in Hg. exfalso. apply Hg.
    by apply list_elem_of_fmap_2.
Qed.

(** X3 ([getActiveTask] finds the most recently updated waiting task).
    What it returns is a stored task of the context in state
    [input-required], and no waiting task of the context was updated
    later; it returns nothing exactly when the context has no task
    waiting for input. *)
Theorem getActiveTask_spec (db : Db) (c : string) :
  NoDup (row_id <$> tasks db) →
  match getActiveTask db c with
  | Some t =>
      getTask db (task_id t) = Some t
      ∧ contextId t = c
      ∧ state (status t) = input_required
      ∧ ∀ t', t' ∈ rowToTask <$> tasks db → contextId t' = c →
              state (status t') = input_required → updatedAt t' ≤ updatedAt t
  | None =>
      ∀ t', t' ∈ rowToTask <$> tasks db → contextId t' = c →
            state (status t') ≠ input_required
  end.
Proof.
  intros Hnd. unfold getActiveTask, getTask.
  pose proof (activeTaskByContext_max c (tasks db)) as H.
  destruct (activeTaskByContext c (tasks db)) as [ra|]; cbn [fmap option_fmap option_map].
  - destruct H as (Hin & Ha & Hmax).
    apply ServerFacts.is_active_true in Ha as [Hc Hs].
    cbn [rowToTask task_id contextId status state updatedAt].
    rewrite (taskGet_elem _ _ Hnd Hin). split_and!; try done.
    intros t' Ht' Hc' Hs'. apply list_elem_of_fmap in Ht' as (r & -> & Hr).
    cbn in *. apply Hmax; [done|]. by apply ServerFacts.is_active_true.
  - intros t' Ht' Hc' Hs'. apply list_elem_of_fmap in Ht' as (r & -> & Hr).
    cbn in *. specialize (H r Hr).
    assert (is_active c r = true) by by apply ServerFacts.is_active_true.
    congruence.
Qed.

Definition db_two : Db :=
  mkDb [mkRow "t1" "c1" input_required None [] 10 30;
        mkRow "t2" "c1" input_required None [] 12 40;
        mkRow "t3" "c2" working (Some "Thinking...") [] 14 50;
        mkRow "t4" "c1" completed None [] 16 60]
       (<["c1" := mkSession "resp_1" 60]> ∅).

Lemma getActiveTask_spec_witness :
  NoDup (row_id <$> tasks db_two)
  ∧ getActiveTask db_two "c1" = Some (mkTask "t2" "c1" (mkStatus input_required None) [] 12 40)
  ∧ getTask db_two "t2" = Some (mkTask "t2" "c1" (mkStatus input_required None) [] 12 40).
Proof.
  assert (Hnd : NoDup (row_id <$> tasks db_two)) by (apply (bool_decide_unpack _); vm_compute; exact I).
  split; [exact Hnd|].
  split; [reflexivity|].
  exact (proj1 (getActiveTask_spec db_two "c1" Hnd)).
Defined.

(** X4 ([setTaskArtifacts] replaces the artifacts and nothing else).
    The task then reads back with the new artifacts and the new
    timestamp and with its id, context, status and creation time as
    before; every other task and the sessions are unchanged, and
    setting the artifacts again overwrites them. *)
Theorem setTaskArtifacts_frame (db : Db) (now now' : Z) (taskId : string)
    (arts arts' : list TaskArtifact) (t : Task) :
  getTask db taskId = Some t →
  let db' := setTaskArtifacts db now taskId arts in
  getTask db' taskId
  = Some (mkTask (task_id t) (contextId t) (status t) arts (createdAt t) now)
  ∧ (∀ other, other ≠ taskId → getTask db' other = getTask db other)
  ∧ row_id <$> tasks db' = row_id <$> tasks db
  ∧ sessions db' = sessions db
  ∧ setTaskArtifacts db' now' taskId arts' = setTaskArtifacts db now' taskId arts'.
Proof.
  intros Ht. cbv zeta. split_and!.
  - rewrite getTask_setTaskArtifacts, Ht. cbn.
    by rewrite (getTask_id _ _ _ Ht), decide_True.
  - intros other Ho. rewrite getTask_setTaskArtifacts.
    destruct (getTask db other) as [t'|] eqn:Hg; [|done]. cbn.
    by rewrite (getTask_id _ _ _ Hg), decide_False.
  - apply taskSetArtifacts_ids.
  - done.
  - apply setTaskArtifacts_twice.
Qed.

Lemma setTaskArtifacts_frame_witness :
  getTask db_two "t3" = Some (mkTask "t3" "c2" (mkStatus working (Some "Thinking...")) [] 14 50)
  ∧ getTask (setTaskArtifacts db_two 70 "t3" [mkArtifact "response" [text_part "x84"] None]) "t3"
    = Some (mkTask "t3" "c2" (mkStatus working (Some "Thinking..."))
                   [mkArtifact "response" [text_part "x84"] None] 14 70).
Proof.
  split; [reflexivity|].
  exact (proj1 (setTaskArtifacts_frame db_two 70 70 "t3"
                  [mkArtifact "response" [text_part "x84"] None] [] _ eq_refl)).
Defined.

Lemma fmap_rows_id (f : TaskRow → TaskRow) (rows : list TaskRow) :
  (∀ r, r ∈ rows → f r = r) → f <$> rows = rows.
Proof.
  intros H. induction rows as [|r rows IH]; [done|].
  cbn. rewrite H by set_solver. f_equal. apply IH. intros. apply H. set_solver.
Qed.

(** X5 (updates of an unknown task are dropped).  [updateTaskStatus]
    and [setTaskArtifacts] on an id that names no task leave the
    database as it is: they neither fail nor create a row. *)
Theorem update_of_unknown_task_is_dropped (db : Db) (now : Z) (taskId : string)
    (s : TaskState) (m : option string) (arts : list TaskArtifact) :
  getTask db taskId = None →
  updateTaskStatus db now taskId s m = db
  ∧ setTaskArtifacts db now taskId arts = db.
Proof.
  intros Hn. apply getTask_None in Hn.
  unfold updateTaskStatus, setTaskArtifacts, taskUpdateStatus, taskSetArtifacts.
  destruct db as [rows ss]. cbn [tasks sessions] in *.
  split; f_equal; apply fmap_rows_id; intros r Hr;
    (rewrite decide_False; [done|]); intros <-; apply Hn;
    by apply list_elem_of_fmap_2.
Qed.

Lemma update_of_unknown_task_is_dropped_witness :
  getTask db_two "t9" = None
  ∧ updateTaskStatus db_two 70 "t9" failed (Some "boom") = db_two
  ∧ setTaskArtifacts db_two 70 "t9" [] = db_two.
Proof.
  split; [reflexivity|].
  exact (update_of_unknown_task_is_dropped db_two 70 "t9" failed (Some "boom") [] eq_refl).
Defined.

(** X6 ([prune] keeps what was touched in the last seven days).  A task
    row survives exactly when its [updated_at] is not older than
    [now - 604800000] ms, and so does a session; surviving tasks keep
    their order; pruning again at a later time gives what pruning once
    at that time gives, so pruning twice at the same time changes
    nothing more. *)
Theorem prune_spec (db : Db) (now now' : Z) :
  (∀ r, r ∈ tasks (prune db now)
        ↔ r ∈ tasks db ∧ now - 604800000 ≤ row_updated_at r)
  ∧ (∀ c, getSession (prune db now) c
          = match sessions db !! c with
            | Some s => if decide (session_updated_at s < now - 604800000)
                        then None else Some (response_id s)
            | None => None
            end)
  ∧ tasks (prune db now) `sublist_of` tasks db
  ∧ (now ≤ now' → prune (prune db now) now' = prune db now').
Proof.
  unfold prune. cbv zeta. cbn [tasks sessions].
  change (7 * 24 * 60 * 60 * 1000) with 604800000.
  split_and!.
  - intros r. rewrite list_elem_of_filter. split; intros [? ?]; split; try done; lia.
  - intros c. unfold getSession. cbn [sessions].
    destruct (sessions db !! c) as [s|] eqn:Hs.
    + destruct (decide (session_updated_at s < now - 604800000)) as [Hlt|Hge].
      * rewrite (proj2 (map_lookup_filter_None _ _ _)); [done|].
        right. intros x Hx. rewrite Hs in Hx. injection Hx as <-. cbn. lia.
      * rewrite (map_lookup_filter_Some_2 _ _ _ s); [done | done |]. cbn. lia.
    + rewrite (proj2 (map_lookup_filter_None _ _ _)); [done|]. by left.
  - apply sublist_filter.
  - intros Hle. f_equal.
    + rewrite list_filter_filter. apply list_filter_iff. intros r. lia.
    + rewrite map_filter_filter. apply map_filter_ext. intros k s _. cbn. lia.
Qed.

#[local] Instance created_not_before_trans : Transitive created_not_before.
Proof. unfold created_not_before. intros a b c' ? ?. lia. Qed.

#[local] Instance created_not_before_total : Total created_not_before.
Proof. unfold created_not_before. intros a b. lia. Qed.

(** X7 ([getTasksByContext] lists a context's tasks, newest first).  The
    result holds each task of the context exactly as often as the table
    does and no other task, and it is ordered by descending creation
    time. *)
Theorem getTasksByContext_spec (db : Db) (c : string) :
  getTasksByContext db c
  ≡ₚ rowToTask <$> filter (λ r, row_context_id r = c) (tasks db)
  ∧ Forall (λ t, contextId t = c) (getTasksByContext db c)
  ∧ StronglySorted (λ a b, createdAt b ≤ createdAt a) (getTasksByContext db c).
Proof.
  unfold getTasksByContext, tasksByContext.
  assert (Hp : merge_sort created_not_before
                 (filter (λ r, row_context_id r = c) (tasks db))
               ≡ₚ filter (λ r, row_context_id r = c) (tasks db))
    by apply merge_sort_Permutation.
  split_and!.
  - by rewrite Hp.
  - rewrite Hp. apply Forall_fmap, Forall_forall. intros r Hr.
    apply list_elem_of_filter in Hr as [Hr _]. exact Hr.
  - apply (StronglySorted_fmap rowToTask created_not_before).
    + intros a b Hab. exact Hab.
    + apply (StronglySorted_merge_sort created_not_before).
Qed.

Example getTasksByContext_newest_first :
  task_id <$> getTasksByContext db_two "c1" = ["t4"; "t2"; "t1"].
Proof. vm_compute. reflexivity. Qed.
End StoreLaws.
(* ================================================================== *)
(** * The endpoint: rejected requests, run state, event order *)

Module ServerLaws.
Import Store Server StoreFacts ServerFacts.

(** ** Requests that are rejected *)

Lemma string_app_nonempty (a b : string) : a ≠ "" → a +:+ b ≠ "".
Proof. destruct a as [|x a]; [done|]. intros _. by rewrite string_app_cons. Qed.

Lemma concat_nonempty sep (x : string) xs : x ≠ "" → String.concat sep (x :: xs) ≠ "".
Proof.
  intros Hx. destruct xs as [|y xs]; [done|].
  change (String.concat sep (x :: y :: xs))
    with (x +:+ (sep +:+ String.concat sep (y :: xs))).
  by apply string_app_nonempty.
Qed.

Lemma extractText_empty (m : A2AMessage) :
  extractText m = "" ↔ Forall (λ p, wanted p = false) (mparts m).
Proof.
  unfold extractText. induction (mparts m) as [|p ps IH].
  - split; [constructor | done].
  - cbn [List.filter]. destruct (wanted p) eqn:Hw.
    + split.
      * intros H. exfalso. revert H. cbn [fmap list_fmap]. apply concat_nonempty.
        unfold wanted in Hw. apply andb_true_iff in Hw as [_ Hw].
        destruct (mp_text p) as [t|]; [|discriminate]. cbn.
        intros ->. discriminate.
      * intros H. apply Forall_cons in H as [H _]. congruence.
    + rewrite IH. split; [by constructor | by intros [_ ?]%Forall_cons].
Qed.

Lemma wanted_false (p : MessagePart) :
  wanted p = false ↔ mp_type p ≠ "text" ∨ mp_text p = None ∨ mp_text p = Some "".
Proof.
  unfold wanted. rewrite andb_false_iff, bool_decide_eq_false.
  destruct (mp_text p) as [t|].
  - split.
    + intros [?|H]; [by left|]. right. right. by rewrite (truthy_false _ H).
    + intros [?|[?|[= ->]]]; [by left | done | by right].
  - split; [intros _; right; by left | intros _; by right].
Qed.

(** X8 (a message without text is rejected before anything happens).
    [message/send] and [message/stream] answer 400 with code -32602 and
    leave the server as it is when [params.message] is missing
    (["Missing message in params"]) and when the text extracted from it
    is empty (["Empty message text"]); the extracted text is empty
    exactly when no part has type ["text"] and a non-empty [text]. *)
Theorem message_without_text_is_rejected (s : Srv) (ps : option Params) (e : Env) :
  match ps ≫= p_message with
  | None =>
      messageSend s ps e = (s, RpcError 400 (-32602) "Missing message in params")
      ∧ messageStream s ps e = (s, RpcError 400 (-32602) "Missing message in params")
  | Some m =>
      (extractText m = ""
       ↔ Forall (λ p, mp_type p ≠ "text" ∨ mp_text p = None ∨ mp_text p = Some "")
                (mparts m))
      ∧ (extractText m = "" →
         messageSend s ps e = (s, RpcError 400 (-32602) "Empty message text")
         ∧ messageStream s ps e = (s, RpcError 400 (-32602) "Empty message text"))
  end.
Proof.
  unfold messageSend, messageStream, send_begin, stream_begin, userTextOf.
  destruct (ps ≫= p_message) as [m|]; [|done].
  split.
  - rewrite extractText_empty. apply Forall_proper; [|done].
    intros p. apply wanted_false.
  - intros ->. done.
Qed.


Lemma tasksCancel_rejected s ps now http code msg :
  (tasksCancel s ps now).2 = RpcError http code msg → http ≠ 500 →
  (tasksCancel s ps now).1 = s.
Proof.
  unfold tasksCancel.
  destruct (ps ≫= p_id) as [taskId|]; [|done].
  destruct (negb (truthy taskId)); [done|].
  destruct (getTask (store s) taskId) as [t|]; [|done].
  destruct (_ || _); [done|]. cbv zeta.
  case_match; cbn [fst snd]; [discriminate|].
  intros [= <- _ _] ?. done.
Qed.

Lemma send_end_response s p e r :
  (∃ t, (send_end s p e r).2 = RpcResult t)
  ∨ (∃ m, (send_end s p e r).2 = RpcError 500 (-32603) m).
Proof.
  destruct r as [m|finalOutput lastResponseId]; cbn [send_end].
  - right. by eexists.
  - cbv zeta. destruct (resolveEndState _ _) as [endState s3].
    case_match; [left | right]; by eexists.
Qed.

Lemma stream_catch_response s p events now m :
  ∃ evs ended, (stream_catch s p events now m).2 = EventStream evs ended.
Proof.
  unfold stream_catch, close_stream. cbv zeta. cbn [snd].
  case_match; cbn [default from_option id]; eauto.
Qed.

Lemma stream_canceled_response s p events e :
  ∃ evs ended, (stream_canceled s p events e).2 = EventStream evs ended.
Proof.
  unfold stream_canceled. cbv zeta.
  destruct (close_stream _ p _) as [resp|] eqn:Hc; [|apply stream_catch_response].
  unfold close_stream in Hc. case_match; [|discriminate].
  injection Hc as <-. cbn [snd]. eauto.
Qed.

Lemma stream_settled_response s p fullText events e finalOutput lastResponseId :
  ∃ evs ended,
    (stream_settled s p fullText events e finalOutput lastResponseId).2
    = EventStream evs ended.
Proof.
  unfold stream_settled. cbv zeta. destruct (resolveEndState _ _) as [endState s3].
  destruct (close_stream _ p _) as [resp|] eqn:Hc; [|apply stream_catch_response].
  unfold close_stream in Hc. case_match; [|discriminate].
  injection Hc as <-. cbn [snd]. eauto.
Qed.

Lemma stream_end_response p e l r :
  ∃ evs ended, (stream_end p e l r).2 = EventStream evs ended.
Proof.
  unfold stream_end. destruct (l_broke l); [apply stream_canceled_response|].
  destruct r as [m|finalOutput lastResponseId]; [apply stream_catch_response|].
  cbv zeta. destruct (aborted _ _);
    [apply stream_canceled_response | apply stream_settled_response].
Qed.

(** X9 (a request answered with a client error changes nothing).
    Whenever [POST /a2a] answers with a JSON-RPC error whose HTTP status
    is not 500 (a missing or unknown task id, a missing or empty
    message, a cancel of a finished task, an unknown method), the
    store, the flags, the active run and the abort controllers are
    exactly as before the request. *)
Theorem rejected_request_changes_nothing (s : Srv) (req : A2AJsonRpcRequest) (e : Env)
    (http code : Z) (msg : string) :
  (a2a s req e).2 = RpcError http code msg →
  http ≠ 500 →
  (a2a s req e).1 = s.
Proof.
  unfold a2a.
  destruct (bool_decide (method req = "tasks/get")); [intros _ _; apply tasksGet_store|].
  destruct (bool_decide (method req = "tasks/cancel")); [apply tasksCancel_rejected|].
  destruct (_ || _).
  { unfold messageSend. destruct (send_begin s (params req) e) as [s1 [resp|p]] eqn:Hb.
    - intros _ _. cbn [fst]. by eapply send_begin_inl.
    - intros Hr Hh. exfalso.
      destruct (send_end_response (foldl interrupt s1 (interrupts (during e))) p e
                                  (outcome e)) as [[t Ht]|[m Hm]];
        rewrite Hr in *; congruence. }
  destruct (_ || _); [|done].
  unfold messageStream.
  destruct (stream_begin s (params req) e) as [s1 [resp|[p events]]] eqn:Hb.
  - intros _ _. cbn [fst]. by eapply stream_begin_inl.
  - intros Hr _. exfalso.
    destruct (stream_end_response p e
                (foldl (stream_item p e) (mkLoop s1 "" events 0 false) (during e))
                (outcome e)) as (evs & ended & Hs).
    rewrite Hr in Hs. discriminate.
Qed.

(** A server holding a task that has completed. *)
Definition srv_done : Srv :=
  mkSrv (mkDb [mkRow "t1" "c1" completed None [response_artifact "x84 is a protocol."] 10 20]
              (<["c1" := mkSession "resp_1" 20]> ∅))
        ∅ None ∅ [].

Definition env_idle : Env :=
  mkEnv "ctx-5" "task-5" (λ n, 5000 + Z.of_nat n) [] (RunReturns (Some "ok") None).

Lemma rejected_request_changes_nothing_witness :
  (a2a srv_done (cancel_request "t1") env_idle).2
  = RpcError 400 (-32002) "Task already completed"
  ∧ (a2a srv_done (cancel_request "t1") env_idle).1 = srv_done.
Proof.
  split; [reflexivity|].
  apply (rejected_request_changes_nothing srv_done (cancel_request "t1") env_idle
           400 (-32002) "Task already completed"); [reflexivity | lia].
Defined.


(** ** The variables a run leaves behind *)

(** No run is in flight and nothing of a former run is left. *)
Definition quiet (s : Srv) : Prop :=
  activeRunTaskId s = None ∧ inputRequiredFlags s = ∅ ∧ abortControllers s = ∅.

(** The run for task [T] is in flight; only [T] may have a flag, and
    only [T] an abort controller, and that only if the run registered
    one ([own]). *)
Definition running (T : string) (own : bool) (s : Srv) : Prop :=
  activeRunTaskId s = Some T
  ∧ (∀ k, k ≠ T → inputRequiredFlags s !! k = None)
  ∧ (∀ k, (own = true → k ≠ T) → abortControllers s !! k = None).

Lemma abort_fields s k :
  activeRunTaskId (abort s k) = activeRunTaskId s
  ∧ inputRequiredFlags (abort s k) = inputRequiredFlags s
  ∧ ∀ k', abortControllers s !! k' = None → abortControllers (abort s k) !! k' = None.
Proof.
  unfold abort. destruct (abortControllers s !! k); [|done].
  cbn. split_and!; [done..|]. intros k' Hk. apply lookup_delete_None. by right.
Qed.

Lemma tasksCancel_fields s ps now :
  activeRunTaskId (tasksCancel s ps now).1 = activeRunTaskId s
  ∧ inputRequiredFlags (tasksCancel s ps now).1 = inputRequiredFlags s
  ∧ ∀ k', abortControllers s !! k' = None →
          abortControllers (tasksCancel s ps now).1 !! k' = None.
Proof.
  unfold tasksCancel.
  destruct (ps ≫= p_id) as [taskId|]; [|done].
  destruct (negb (truthy taskId)); [done|].
  destruct (getTask (store s) taskId) as [t|]; [|done].
  destruct (_ || _); [done|]. cbv zeta.
  case_match; cbn [fst]; unfold with_store;
    cbn [activeRunTaskId inputRequiredFlags abortControllers]; apply abort_fields.
Qed.

Lemma interrupt_running T own s i : running T own s → running T own (interrupt s i).
Proof.
  intros (Ha & Hf & Hc). destruct i as [|taskId now]; cbn [interrupt].
  - unfold onInputRequired. rewrite Ha. destruct (truthy T); [|done].
    split_and!; srv_simpl; [done | | done].
    intros k Hk. rewrite lookup_insert_ne by done. by apply Hf.
  - destruct (tasksCancel_fields s (Some (mkParams None None taskId)) now)
      as (Ha' & Hf' & Hc').
    split_and!; [congruence | by rewrite Hf' | ].
    intros k Hk. by apply Hc', Hc.
Qed.

Lemma interrupts_running T own ints s :
  running T own s → running T own (foldl interrupt s ints).
Proof.
  revert s. induction ints as [|i ints IH]; intros s H; [done|].
  cbn [foldl]. by apply IH, interrupt_running.
Qed.

Lemma tasksCancel_quiet s ps now : quiet s → quiet (tasksCancel s ps now).1.
Proof.
  intros (Ha & Hf & Hc).
  destruct (tasksCancel_fields s ps now) as (Ha' & Hf' & Hc').
  split_and!; [congruence | congruence |].
  apply map_empty. intros k. apply Hc'. by rewrite Hc.
Qed.

Lemma send_begin_running s ps e s1 p :
  quiet s → send_begin s ps e = (s1, inr p) → running (run_taskId p) false s1.
Proof.
  intros (Ha & Hf & Hc). unfold send_begin.
  destruct (userTextOf ps); [|discriminate].
  destruct (resolveTask s _ _ _) as [[[T resumed] s0]|] eqn:Hr; [|discriminate].
  apply resolveTask_Ok in Hr as (_ & Hf0 & _ & Hc0 & _).
  intros [= <- <-]. cbn [run_taskId]. split_and!; srv_simpl.
  - done.
  - intros k _. by rewrite Hf0, Hf.
  - intros k _. by rewrite Hc0, Hc.
Qed.

Lemma delete_leaves_nothing {A} (m : gmap string A) (T : string) :
  (∀ k, k ≠ T → m !! k = None) → delete T m = ∅.
Proof.
  intros H. apply map_empty. intros k. apply lookup_delete_None.
  destruct (decide (T = k)) as [|Hne]; [by left | right; by apply H].
Qed.

Lemma send_end_fields s p e r :
  activeRunTaskId (send_end s p e r).1 = None
  ∧ inputRequiredFlags (send_end s p e r).1
    = delete (run_taskId p) (inputRequiredFlags s)
  ∧ abortControllers (send_end s p e r).1 = abortControllers s.
Proof.
  destruct r as [m|finalOutput lastResponseId]; cbn [send_end]; [done|].
  unfold resolveEndState. cbv zeta.
  destruct (truthy_opt lastResponseId) as [rid|];
    case_match; unfold send_catch; srv_simpl; (split_and!; [done | | done]);
    by rewrite ?delete_delete_eq.
Qed.

Lemma send_end_quiet s p e r :
  running (run_taskId p) false s → quiet (send_end s p e r).1.
Proof.
  intros (_ & Hf & Hc). destruct (send_end_fields s p e r) as (Ha' & Hf' & Hc').
  split_and!; [done | |].
  - rewrite Hf'. by apply delete_leaves_nothing.
  - rewrite Hc'. apply map_empty. intros k. by apply Hc.
Qed.

Lemma messageSend_quiet s ps e : quiet s → quiet (messageSend s ps e).1.
Proof.
  intros Hq. unfold messageSend.
  destruct (send_begin s ps e) as [s1 [resp|p]] eqn:Hb.
  - cbn [fst]. by rewrite (send_begin_inl _ _ _ _ _ Hb).
  - apply send_end_quiet, interrupts_running. by eapply send_begin_running.
Qed.


Lemma stream_begin_running s ps e s1 p events :
  quiet s → stream_begin s ps e = (s1, inr (p, events)) →
  running (run_taskId p) true s1.
Proof.
  intros (Ha & Hf & Hc). unfold stream_begin.
  destruct (userTextOf ps); [|discriminate].
  destruct (resolveTask s _ _ _) as [[[T resumed] s0]|] eqn:Hr; [|discriminate].
  apply resolveTask_Ok in Hr as (_ & Hf0 & _ & Hc0 & _).
  intros [= <- <- _]. cbn [run_taskId].
  split_and!; destruct resumed; srv_simpl; try done.
  - intros k _. by rewrite Hf0, Hf.
  - intros k _. by rewrite Hf0, Hf.
  - intros k Hk. rewrite lookup_insert_ne by (intros ->; by apply Hk).
    by rewrite Hc0, Hc.
  - intros k Hk. rewrite lookup_insert_ne by (intros ->; by apply Hk).
    by rewrite Hc0, Hc.
Qed.

Lemma stream_item_running p e l it own :
  running (run_taskId p) own (l_srv l) →
  running (run_taskId p) own (l_srv (stream_item p e l it)).
Proof.
  intros H. unfold stream_item. destruct (l_broke l); [done|].
  destruct it as [d| |i].
  - destruct (aborted _ _); [done|]. exact H.
  - by destruct (aborted _ _).
  - by apply interrupt_running.
Qed.

Lemma stream_loop_running p e items l own :
  running (run_taskId p) own (l_srv l) →
  running (run_taskId p) own (l_srv (foldl (stream_item p e) l items)).
Proof.
  revert l. induction items as [|it items IH]; intros l H; [done|].
  cbn [foldl]. by apply IH, stream_item_running.
Qed.

(** What a run that has ended has left of the run variables. *)
Definition ended (T : string) (s s' : Srv) : Prop :=
  activeRunTaskId s' = None
  ∧ inputRequiredFlags s' = delete T (inputRequiredFlags s)
  ∧ abortControllers s' = delete T (abortControllers s).

Lemma stream_catch_ended s p events now m :
  ended (run_taskId p) s (stream_catch s p events now m).1.
Proof. done. Qed.

Lemma ended_again T s s1 s' :
  activeRunTaskId s1 = None →
  inputRequiredFlags s1 = delete T (inputRequiredFlags s) →
  abortControllers s1 = abortControllers s →
  ended T s1 s' → ended T s s'.
Proof.
  intros _ Hf Hc (Ha' & Hf' & Hc'). split_and!; [done | |].
  - by rewrite Hf', Hf, delete_delete_eq.
  - by rewrite Hc', Hc.
Qed.

Lemma stream_canceled_ended s p events e :
  activeRunTaskId s = None →
  ended (run_taskId p) s (stream_canceled s p events e).1.
Proof.
  intros Ha. unfold stream_canceled. cbv zeta.
  destruct (close_stream _ p _) as [resp|]; [done|].
  eapply ended_again; [| | |apply stream_catch_ended]; done.
Qed.

Lemma stream_settled_ended s p fullText events e finalOutput lastResponseId :
  activeRunTaskId s = None →
  ended (run_taskId p) s
        (stream_settled s p fullText events e finalOutput lastResponseId).1.
Proof.
  intros Ha. unfold stream_settled, resolveEndState. cbv zeta.
  destruct (if truthy fullText then None else truthy_opt finalOutput) as [out|];
    destruct (truthy_opt lastResponseId) as [rid|];
    (destruct (close_stream _ p _) as [resp|];
     [ done | eapply ended_again; [| | |apply stream_catch_ended]; done ]).
Qed.

Lemma stream_end_ended p e l r :
  ended (run_taskId p) (l_srv l) (stream_end p e l r).1.
Proof.
  unfold stream_end. destruct (l_broke l).
  - by apply (stream_canceled_ended (with_active (l_srv l) None)).
  - destruct r as [m|finalOutput lastResponseId]; [apply stream_catch_ended|].
    cbv zeta. destruct (aborted _ _).
    + by apply (stream_canceled_ended (with_active (l_srv l) None)).
    + by apply (stream_settled_ended (with_active (l_srv l) None)).
Qed.

Lemma messageStream_quiet s ps e : quiet s → quiet (messageStream s ps e).1.
Proof.
  intros Hq. unfold messageStream.
  destruct (stream_begin s ps e) as [s1 [resp|[p events]]] eqn:Hb.
  - cbn [fst]. by rewrite (stream_begin_inl _ _ _ _ _ Hb).
  - pose proof (stream_begin_running _ _ _ _ _ _ Hq Hb) as Hr.
    apply (stream_loop_running p e (during e) (mkLoop s1 "" events 0 false)) in Hr
      as (_ & Hf & Hc).
    destruct (stream_end_ended p e
                (foldl (stream_item p e) (mkLoop s1 "" events 0 false) (during e))
                (outcome e)) as (Ha' & Hf' & Hc').
    split_and!; [done | |].
    + rewrite Hf'. by apply delete_leaves_nothing.
    + rewrite Hc'. apply delete_leaves_nothing. intros k Hk. by apply Hc.
Qed.

Lemma a2a_quiet s req e : quiet s → quiet (a2a s req e).1.
Proof.
  intros Hq. unfold a2a.
  destruct (bool_decide (method req = "tasks/get")); [by rewrite tasksGet_store|].
  destruct (bool_decide (method req = "tasks/cancel")); [by apply tasksCancel_quiet|].
  destruct (_ || _); [by apply messageSend_quiet|].
  destruct (_ || _); [by apply messageStream_quiet | done].
Qed.

Lemma serve_quiet reqs s : quiet s → quiet (serve s reqs).
Proof.
  revert s. induction reqs as [|[req e] reqs IH]; intros s Hq; [done|].
  cbn [serve foldl]. apply IH. by apply a2a_quiet.
Qed.

(** X10 (nothing of a run is left behind).  After any sequence of
    requests served one after the other from the initial server, no run
    is marked active, no input-required flag is set and no abort
    controller is registered: every handler, however its run ended,
    has cleared what it set. *)
Theorem no_run_state_is_left_behind (reqs : list (A2AJsonRpcRequest * Env)) :
  activeRunTaskId (serve init reqs) = None
  ∧ inputRequiredFlags (serve init reqs) = ∅
  ∧ abortControllers (serve init reqs) = ∅.
Proof. by apply (serve_quiet reqs init). Qed.


(** ** What a run that returns leaves in the task *)

Definition is_clarification (i : Interrupt) : bool :=
  match i with Clarification => true | CancelArrives _ _ => false end.

(** The agent called [request_clarification] during the run. *)
Definition clarified (items : list StreamItem) : bool :=
  existsb is_clarification (interrupts items).

Lemma resolveTask_task s now uuid c T resumed s0 :
  wf (store s) →
  resolveTask s now uuid c = Ok (T, resumed, s0) →
  ∃ t0, getTask (store s0) T = Some t0 ∧ Store.contextId t0 = c
        ∧ (resumed = false → artifacts t0 = []).
Proof.
  intros Hwf Hr. apply resolveTask_Ok in Hr as (Hs & _).
  destruct Hs as [(-> & -> & ra & Ha & Hid)|(_ & _ & Hn & now' & ->)].
  - apply activeTaskByContext_Some in Ha as (Hin & Hc & _).
    exists (rowToTask ra). unfold getTask. rewrite <- Hid.
    by rewrite (StoreLaws.taskGet_elem _ _ Hwf Hin).
  - eexists. unfold getTask. cbn [tasks]. rewrite taskGet_app, Hn, taskGet_cons.
    cbn [row_id]. rewrite decide_True by done. split_and!; reflexivity.
Qed.

Lemma op_by_keeps T db db' x t :
  op_by T db db' → getTask db x = Some t →
  ∃ t', getTask db' x = Some t' ∧ Store.contextId t' = Store.contextId t
        ∧ createdAt t' = createdAt t.
Proof.
  intros [now st m|now arts|now c rid|now y ty _ _ _] Hg;
    rewrite ?getTask_updateTaskStatus, ?getTask_setTaskArtifacts, ?getTask_setSession, Hg;
    cbn [fmap option_fmap option_map]; try case_decide; eauto.
Qed.

Lemma evolve_keeps T db db' x t :
  evolve T db db' → getTask db x = Some t →
  ∃ t', getTask db' x = Some t' ∧ Store.contextId t' = Store.contextId t
        ∧ createdAt t' = createdAt t.
Proof.
  intros He. revert t. induction He as [db|db db1 db2 Hop _ IH]; intros t Hg; [eauto|].
  destruct (op_by_keeps _ _ _ _ _ Hop Hg) as (t1 & Hg1 & Hc1 & Hk1).
  destruct (IH _ Hg1) as (t2 & Hg2 & Hc2 & Hk2).
  exists t2. split_and!; [done | congruence | congruence].
Qed.

Lemma interrupt_flag T s i :
  activeRunTaskId s = Some T → T ≠ "" →
  activeRunTaskId (interrupt s i) = Some T
  ∧ inputRequiredFlags (interrupt s i) !! T
    = if is_clarification i then Some true else inputRequiredFlags s !! T.
Proof.
  intros Ha HT. destruct i as [|taskId now]; cbn [interrupt is_clarification].
  - unfold onInputRequired. rewrite Ha, (truthy_ne _ HT). srv_simpl.
    by rewrite lookup_insert_eq.
  - destruct (tasksCancel_fields s (Some (mkParams None None taskId)) now)
      as (-> & -> & _). done.
Qed.

Lemma interrupts_flag T ints s :
  activeRunTaskId s = Some T → T ≠ "" →
  activeRunTaskId (foldl interrupt s ints) = Some T
  ∧ inputRequiredFlags (foldl interrupt s ints) !! T
    = if existsb is_clarification ints then Some true else inputRequiredFlags s !! T.
Proof.
  intros Ha HT. revert s Ha. induction ints as [|i ints IH]; intros s Ha; [done|].
  cbn [foldl existsb].
  destruct (interrupt_flag T s i Ha HT) as (Ha1 & Hf1).
  destruct (IH _ Ha1) as (Ha2 & Hf2). split; [done|].
  rewrite Hf2, Hf1. by destruct (is_clarification i), (existsb is_clarification ints).
Qed.

Lemma send_end_returns s p e finalOutput lastResponseId t0 :
  getTask (store s) (run_taskId p) = Some t0 →
  let t' := mkTask (run_taskId p) (Store.contextId t0)
                   (mkStatus (if default false (inputRequiredFlags s !! run_taskId p)
                              then input_required else completed) None)
                   [response_artifact
                      (default "I was unable to generate a response." finalOutput)]
                   (createdAt t0) (clock e 4) in
  (send_end s p e (RunReturns finalOutput lastResponseId)).2 = RpcResult (taskToA2A t')
  ∧ getTask (store (send_end s p e (RunReturns finalOutput lastResponseId)).1)
            (run_taskId p) = Some t'.
Proof.
  intros Ht0 t'. pose proof (getTask_id _ _ _ Ht0) as Hid.
  cbn [send_end]. unfold resolveEndState. srv_simpl.
  match goal with
  | |- context [match getTask ?db ?T with _ => _ end] =>
      assert (getTask db T = Some t') as H5
  end.
  { srv_simpl. rewrite getTask_updateTaskStatus, getTask_setTaskArtifacts.
    assert (getTask (store (match truthy_opt lastResponseId with
                            | Some rid =>
                                mkSrv (setSession (store s) (clock e 2) (run_contextId p) rid)
                                      (inputRequiredFlags s) None (abortControllers s)
                                      (controllers s)
                            | None =>
                                mkSrv (store s) (inputRequiredFlags s) None
                                      (abortControllers s) (controllers s)
                            end)) (run_taskId p) = Some t0) as ->.
    { by destruct (truthy_opt lastResponseId). }
    cbn [fmap option_fmap option_map].
    rewrite !(decide_True (P := task_id t0 = run_taskId p)) by done.
    cbn [task_id]. rewrite ?(decide_True (P := task_id t0 = run_taskId p)) by done.
    subst t'. rewrite Hid. cbn [Store.contextId createdAt].
    by destruct (truthy_opt lastResponseId). }
  rewrite H5. srv_simpl. by rewrite H5.
Qed.


Lemma send_returns
    (s : Srv) (ps : option Params) (e : Env) (text T : string) (resumed : bool)
    (s0 : Srv) (finalOutput lastResponseId : option string) :
  wf (store s) →
  inputRequiredFlags s !! T = None →
  userTextOf ps = Ok text →
  resolveTask s (clock e 0) (uuid_task e)
              (default (uuid_context e) (ps ≫= p_contextId)) = Ok (T, resumed, s0) →
  T ≠ "" →
  outcome e = RunReturns finalOutput lastResponseId →
  ∃ t', (messageSend s ps e).2 = RpcResult (taskToA2A t')
        ∧ getTask (store (messageSend s ps e).1) T = Some t'
        ∧ task_id t' = T
        ∧ Store.contextId t' = default (uuid_context e) (ps ≫= p_contextId)
        ∧ status t' = mkStatus (if clarified (during e) then input_required
                                else completed) None
        ∧ artifacts t'
          = [response_artifact
               (default "I was unable to generate a response." finalOutput)].
Proof.
  intros Hwf Hflag Hu Hr HT Ho.
  destruct (resolveTask_task _ _ _ _ _ _ _ Hwf Hr) as (t0 & Ht0 & Hc0 & _).
  pose proof (resolveTask_Ok _ _ _ _ _ _ _ Hr) as (_ & Hf0 & _).
  unfold messageSend, send_begin. rewrite Hu, Hr, Ho.
  set (c := default (uuid_context e) (ps ≫= p_contextId)) in *.
  set (p := mkPending T c resumed _ 0).
  set (s1 := with_active _ _).
  set (s2 := foldl interrupt s1 (interrupts (during e))).
  assert (evolve T (store s0) (store s2)) as He.
  { etrans; [|apply interrupts_evolve]. subst s1. srv_simpl. evolve_tac. }
  destruct (evolve_keeps _ _ _ _ _ He Ht0) as (t2 & Ht2 & Hc2 & _).
  destruct (interrupts_flag T (interrupts (during e)) s1 eq_refl HT) as (_ & Hf2).
  fold s2 in Hf2.
  assert (inputRequiredFlags s1 !! T = None) as Hf1.
  { subst s1. srv_simpl. by rewrite Hf0. }
  rewrite Hf1 in Hf2.
  destruct (send_end_returns s2 p e finalOutput lastResponseId t2 Ht2) as (Hresp & Hget).
  eexists. split; [exact Hresp|]. split; [exact Hget|].
  cbn [task_id Store.contextId status artifacts run_taskId p].
  split_and!; [done | congruence | | done].
  rewrite Hf2. unfold clarified. by destruct (existsb _ _).
Qed.

(** X11 (what [message/send] answers when the run returns).  On a server
    with unique task ids and no stale flag for the task, a
    [message/send] whose run returns answers with the task as it is
    stored afterwards: in the request's context, with the single
    artifact ["response"] holding the output of the run (or the stock
    apology when there is none), and in state [input-required] exactly
    when the agent called [request_clarification] during this run,
    [completed] otherwise, whatever cancel requests were served
    meanwhile. *)
Theorem send_answers_with_the_stored_task
    (s : Srv) (ps : option Params) (e : Env) (text T : string) (resumed : bool)
    (s0 : Srv) (finalOutput lastResponseId : option string) :
  wf (store s) →
  inputRequiredFlags s !! T = None →
  userTextOf ps = Ok text →
  resolveTask s (clock e 0) (uuid_task e)
              (default (uuid_context e) (ps ≫= p_contextId)) = Ok (T, resumed, s0) →
  T ≠ "" →
  outcome e = RunReturns finalOutput lastResponseId →
  ∃ t', (messageSend s ps e).2 = RpcResult (taskToA2A t')
        ∧ getTask (store (messageSend s ps e).1) T = Some t'
        ∧ task_id t' = T
        ∧ Store.contextId t' = default (uuid_context e) (ps ≫= p_contextId)
        ∧ status t' = mkStatus (if clarified (during e) then input_required
                                else completed) None
        ∧ artifacts t'
          = [response_artifact
               (default "I was unable to generate a response." finalOutput)].
Proof. apply send_returns. Qed.

Definition ps_question : option Params :=
  Some (mkParams (Some (mkMessage "user" [mkMsgPart "text" (Some "How do I set it up?")]))
                 (Some "c7") None).

Definition env_clarify : Env :=
  mkEnv "ctx-7" "task-7" (λ n, 7000 + Z.of_nat n)
        [Meanwhile Clarification; Meanwhile (CancelArrives (Some "task-7") 7500)]
        (RunReturns (Some "Set up what?") (Some "resp_7")).

Lemma send_answers_with_the_stored_task_witness :
  wf (store init)
  ∧ userTextOf ps_question = Ok "How do I set it up?"
  ∧ (messageSend init ps_question env_clarify).2
    = RpcResult (mkA2ATask "task-7" "c7" (mkStatus input_required None)
                           [response_artifact "Set up what?"]).
Proof.
  assert (Hwf : wf (store init)) by apply NoDup_nil_2.
  split; [exact Hwf|]. split; [reflexivity|].
  destruct (send_answers_with_the_stored_task init ps_question env_clarify
              "How do I set it up?" "task-7" false _ (Some "Set up what?") (Some "resp_7")
              Hwf eq_refl eq_refl eq_refl ltac:(discriminate) eq_refl)
    as (t' & Hresp & _ & Hid & Hc & Hst & Harts).
  rewrite Hresp. destruct t' as [i c st arts ca ua]. cbn in *.
  unfold taskToA2A. cbn. by rewrite Hid, Hc, Hst, Harts.
Defined.


(** ** The events of a streamed run *)

(** The event written for a streamed delta. *)
Definition delta_event (p : Pending) (d : string) : SseEvent :=
  ArtifactUpdate (run_taskId p) (run_contextId p)
                 (mkArtifact "response" [text_part d] (Some true)).

Lemma stream_loop_events p e items l :
  forallb (λ it, negb (is_cancel it)) items = true →
  l_broke l = false →
  controllers (l_srv l) !! run_ac p = Some false →
  l_events (foldl (stream_item p e) l items)
  = l_events l ++ (delta_event p <$> deltas items).
Proof.
  revert l. induction items as [|it items IH]; intros l Hu Hb Hc.
  - cbn. by rewrite app_nil_r.
  - cbn [foldl]. cbn [forallb] in Hu. apply andb_true_iff in Hu as [Hit Hu'].
    destruct (stream_loop_not_broken p e [it] l) as (Hb1 & Hc1);
      [by cbn [forallb]; rewrite Hit | done | done |].
    cbn [foldl] in Hb1, Hc1. rewrite (IH _ Hu' Hb1 Hc1).
    assert (aborted (l_srv l) (run_ac p) = false) as Hab.
    { unfold aborted. by rewrite Hc. }
    unfold stream_item. rewrite Hb.
    destruct it as [d| |i]; rewrite ?Hab; cbn [l_events]; [|done..].
    change (deltas (ModelDelta d :: items)) with (default "" d :: deltas items).
    by rewrite <- app_assoc.
Qed.

Lemma stream_settled_returns s p fullText events e finalOutput lastResponseId t1 :
  getTask (store s) (run_taskId p) = Some t1 →
  let T := run_taskId p in
  let c := run_contextId p in
  let fallback := if truthy fullText then None else truthy_opt finalOutput in
  let endState := if default false (inputRequiredFlags s !! T)
                  then input_required else completed in
  let t' := mkTask T (Store.contextId t1) (mkStatus endState None)
                   (match fallback with
                    | Some out => [response_artifact out]
                    | None => artifacts t1
                    end)
                   (createdAt t1) (clock e 4) in
  (stream_settled s p fullText events e finalOutput lastResponseId).2
  = EventStream
      (events
       ++ match fallback with
          | Some out => [ArtifactUpdate T c (response_artifact out)]
          | None => []
          end
       ++ [StatusUpdate T c endState
             (if default false (inputRequiredFlags s !! T)
              then Some "Waiting for user input" else None);
           TaskSnapshot (taskToA2A t'); DONE])
      true
  ∧ getTask (store (stream_settled s p fullText events e finalOutput lastResponseId).1) T
    = Some t'.
Proof.
  intros Ht T c fallback endState t'. pose proof (getTask_id _ _ _ Ht) as Hid.
  subst fallback endState t' T c.
  unfold stream_settled, resolveEndState. srv_simpl.
  destruct (if truthy fullText then None else truthy_opt finalOutput) as [out|];
    destruct (truthy_opt lastResponseId) as [rid|];
    srv_simpl;
    destruct (default false (inputRequiredFlags s !! run_taskId p));
    srv_simpl; unfold close_stream; srv_simpl;
    rewrite getTask_updateTaskStatus, ?getTask_setSession, ?getTask_setTaskArtifacts, Ht;
    cbn [fmap option_fmap option_map];
    rewrite ?(decide_True (P := task_id t1 = run_taskId p)) by done;
    cbn [task_id]; rewrite ?(decide_True (P := task_id t1 = run_taskId p)) by done;
    unfold stream_finally; srv_simpl;
    rewrite getTask_updateTaskStatus, ?getTask_setSession, ?getTask_setTaskArtifacts, Ht;
    cbn [fmap option_fmap option_map];
    rewrite ?(decide_True (P := task_id t1 = run_taskId p)) by done;
    cbn [task_id]; rewrite ?(decide_True (P := task_id t1 = run_taskId p)) by done;
    cbn [Store.contextId artifacts createdAt status truthy_opt bool_decide];
    rewrite Hid, <- ?app_assoc; split; reflexivity.
Qed.


Lemma stream_loop_flag p e items l :
  forallb (λ it, negb (is_cancel it)) items = true →
  l_broke l = false →
  controllers (l_srv l) !! run_ac p = Some false →
  activeRunTaskId (l_srv l) = Some (run_taskId p) →
  run_taskId p ≠ "" →
  inputRequiredFlags (l_srv (foldl (stream_item p e) l items)) !! run_taskId p
  = if clarified items then Some true
    else inputRequiredFlags (l_srv l) !! run_taskId p.
Proof.
  intros Hu Hb Hc Ha HT. revert l Hu Hb Hc Ha.
  induction items as [|it items IH]; intros l Hu Hb Hc Ha; [done|].
  cbn [foldl]. cbn [forallb] in Hu. apply andb_true_iff in Hu as [Hit Hu'].
  destruct (stream_loop_not_broken p e [it] l) as (Hb1 & Hc1);
    [by cbn [forallb]; rewrite Hit | done | done |].
  cbn [foldl] in Hb1, Hc1.
  assert (aborted (l_srv l) (run_ac p) = false) as Hab.
  { unfold aborted. by rewrite Hc. }
  assert (activeRunTaskId (l_srv (stream_item p e l it)) = Some (run_taskId p)
          ∧ inputRequiredFlags (l_srv (stream_item p e l it)) !! run_taskId p
            = if existsb is_clarification (interrupts [it]) then Some true
              else inputRequiredFlags (l_srv l) !! run_taskId p) as [Ha1 Hf1].
  { unfold stream_item. rewrite Hb.
    destruct it as [d| |i]; rewrite ?Hab; cbn [l_srv]; [done | done |].
    change (interrupts [Meanwhile i]) with [i]. cbn [existsb]. rewrite orb_false_r.
    by apply interrupt_flag. }
  rewrite (IH _ Hu' Hb1 Hc1 Ha1), Hf1. unfold clarified.
  destruct it as [d| |i].
  - change (interrupts (ModelDelta d :: items)) with (interrupts items).
    change (interrupts [ModelDelta d]) with (@nil Interrupt). done.
  - change (interrupts (OtherEvent :: items)) with (interrupts items).
    change (interrupts [OtherEvent]) with (@nil Interrupt). done.
  - change (interrupts (Meanwhile i :: items)) with (i :: interrupts items).
    change (interrupts [Meanwhile i]) with [i]. cbn [existsb]. rewrite orb_false_r.
    by destruct (is_clarification i), (existsb is_clarification (interrupts items)).
Qed.

(** X12 (the events of a streamed run, in order).  On a server with
    unique task ids and no stale flag for the task, a [message/stream]
    whose run returns while no cancel is served writes, in this order:
    the [working] status, one artifact update per text delta in the
    order of the deltas, the final output as one more artifact update
    when no text was streamed and there is one, the closing status
    ([input-required] with its message exactly when the agent asked for
    clarification, else [completed]), a snapshot of the task, and
    [[DONE]]; then the response is ended.  The snapshot is the task as
    it is stored afterwards, in the closing state and holding the
    streamed answer. *)
Theorem stream_events_in_order
    (s : Srv) (ps : option Params) (e : Env) (text T : string) (resumed : bool)
    (s0 : Srv) (finalOutput lastResponseId : option string) :
  wf (store s) →
  inputRequiredFlags s !! T = None →
  userTextOf ps = Ok text →
  resolveTask s (clock e 0) (uuid_task e)
              (default (uuid_context e) (ps ≫= p_contextId)) = Ok (T, resumed, s0) →
  T ≠ "" →
  outcome e = RunReturns finalOutput lastResponseId →
  undisturbed e →
  let c := default (uuid_context e) (ps ≫= p_contextId) in
  let endState := if clarified (during e) then input_required else completed in
  ∃ t', (messageStream s ps e).2
        = EventStream
            ([StatusUpdate T c working (Some (workingMsg resumed))]
             ++ ((λ d, ArtifactUpdate T c (mkArtifact "response" [text_part d] (Some true)))
                   <$> deltas (during e))
             ++ (if truthy (join (deltas (during e))) then []
                 else match truthy_opt finalOutput with
                      | Some out => [ArtifactUpdate T c (response_artifact out)]
                      | None => []
                      end)
             ++ [StatusUpdate T c endState
                   (if clarified (during e) then Some "Waiting for user input" else None);
                 TaskSnapshot (taskToA2A t'); DONE])
            true
        ∧ getTask (store (messageStream s ps e).1) T = Some t'
        ∧ Store.contextId t' = c
        ∧ status t' = mkStatus endState None
        ∧ artifacts t' = streamed_answer (during e) finalOutput.
Proof.
  intros Hwf Hflag Hu Hr HT Ho Hund c endState. subst endState.
  destruct (resolveTask_task _ _ _ _ _ _ _ Hwf Hr) as (t0 & Ht0 & Hc0 & Hnew).
  pose proof (resolveTask_Ok _ _ _ _ _ _ _ Hr) as (_ & Hf0 & _).
  pose proof (getTask_id _ _ _ Ht0) as Hid.
  unfold messageStream, stream_begin. rewrite Hu, Hr, Ho. fold c.
  set (p := mkPending T c resumed _ _).
  set (s1 := with_active _ _).
  set (l0 := mkLoop s1 _ _ _ _).
  assert (getTask (store s1) T
          = Some (mkTask T c (mkStatus working (Some (workingMsg resumed))) []
                         (createdAt t0) (clock e 1))) as Hg1.
  { subst s1. destruct resumed; srv_simpl;
      rewrite getTask_updateTaskStatus, ?getTask_setTaskArtifacts, Ht0;
      cbn [fmap option_fmap option_map];
      rewrite !(decide_True (P := task_id t0 = T)) by done;
      cbn [task_id]; rewrite ?(decide_True (P := task_id t0 = T)) by done;
      cbn [Store.contextId artifacts createdAt truthy_opt workingMsg];
      rewrite Hid, Hc0; [done|]. by rewrite (Hnew eq_refl). }
  assert (controllers (l_srv l0) !! run_ac p = Some false) as Hc1.
  { subst l0 s1. cbn [l_srv run_ac p]. destruct resumed; srv_simpl;
      by rewrite lookup_app_r, Nat.sub_diag by lia. }
  assert (activeRunTaskId (l_srv l0) = Some T) as Ha1 by done.
  assert (inputRequiredFlags (l_srv l0) !! T = None) as Hf1.
  { subst l0 s1. cbn [l_srv]. destruct resumed; srv_simpl; by rewrite Hf0. }
  destruct (stream_loop_undisturbed p e (during e) l0 [] _ Hund eq_refl Hc1 Hg1
                                    eq_refl eq_refl)
    as (Hb & Hctl & Hft & t1 & Ht1 & Hart).
  cbn [app] in Hft, Hart.
  pose proof (stream_loop_events p e (during e) l0 Hund eq_refl Hc1) as Hev.
  pose proof (stream_loop_flag p e (during e) l0 Hund eq_refl Hc1 Ha1 HT) as Hfl.
  cbn [run_taskId p] in Hfl. rewrite Hf1 in Hfl.
  destruct (evolve_keeps T _ _ T _ (stream_loop_evolve p e (during e) l0) Hg1)
    as (t1' & Ht1' & Hk1 & _).
  cbn [run_taskId p] in Ht1, Ht1'. rewrite Ht1 in Ht1'. injection Ht1' as <-.
  cbn [Store.contextId] in Hk1.
  set (l1 := foldl (stream_item p e) l0 (during e)) in *.
  unfold stream_end. rewrite Hb, Hft.
  assert (aborted (with_active (l_srv l1) None) (run_ac p) = false) as ->.
  { unfold aborted. srv_simpl. by rewrite Hctl. }
  assert (inputRequiredFlags (with_active (l_srv l1) None) !! run_taskId p
          = if clarified (during e) then Some true else None) as Hfl'.
  { unfold with_active. cbn [inputRequiredFlags run_taskId p]. exact Hfl. }
  destruct (stream_settled_returns (with_active (l_srv l1) None) p
              (join (deltas (during e))) (l_events l1) e finalOutput lastResponseId t1 Ht1)
    as (Hresp & Hget).
  pose proof (stream_settled_artifacts (with_active (l_srv l1) None) p (deltas (during e))
                (l_events l1) e finalOutput lastResponseId t1 Ht1 Hart) as Harts.
  rewrite Hfl' in Hresp, Hget.
  rewrite Hget in Harts. cbn [fmap option_fmap option_map] in Harts.
  injection Harts as Harts.
  match type of Hget with _ = Some ?t => exists t end.
  split; [|split; [exact Hget|]].
  - rewrite Hresp, Hev. cbn [run_taskId run_contextId p l_events l0].
    unfold delta_event. cbn [run_taskId run_contextId p].
    rewrite <- !app_assoc. cbn [app].
    by destruct (truthy (join (deltas (during e)))), (clarified (during e)).
  - split_and!.
    + cbn [Store.contextId]. exact Hk1.
    + cbn [status]. by destruct (clarified (during e)).
    + rewrite Harts. reflexivity.
Qed.

Definition env_stream : Env :=
  mkEnv "ctx-8" "task-8" (λ n, 8000 + Z.of_nat n)
        [ModelDelta (Some "Set up "); Meanwhile Clarification; OtherEvent;
         ModelDelta (Some "what?")]
        (RunReturns (Some "Set up what?") (Some "resp_8")).

Lemma stream_events_in_order_witness :
  wf (store init)
  ∧ userTextOf ps_question = Ok "How do I set it up?"
  ∧ undisturbed env_stream
  ∧ (messageStream init ps_question env_stream).2
    = EventStream
        [StatusUpdate "task-8" "c7" working (Some "Thinking...");
         ArtifactUpdate "task-8" "c7" (mkArtifact "response" [text_part "Set up "] (Some true));
         ArtifactUpdate "task-8" "c7" (mkArtifact "response" [text_part "what?"] (Some true));
         StatusUpdate "task-8" "c7" input_required (Some "Waiting for user input");
         TaskSnapshot (mkA2ATask "task-8" "c7" (mkStatus input_required None)
                                 [response_artifact "Set up what?"]);
         DONE]
        true.
Proof.
  assert (Hwf : wf (store init)) by apply NoDup_nil_2.
  split; [exact Hwf|]. split; [reflexivity|]. split; [reflexivity|].
  destruct (stream_events_in_order init ps_question env_stream
              "How do I set it up?" "task-8" false _ (Some "Set up what?") (Some "resp_8")
              Hwf eq_refl eq_refl eq_refl ltac:(discriminate) eq_refl eq_refl)
    as (t' & Hresp & Hget & Hc & Hst & Harts).
  rewrite Hresp. apply getTask_id in Hget.
  destruct t' as [i c st arts ca ua]. cbn in Hget, Hc, Hst, Harts. subst i c st arts.
  reflexivity.
Defined.


(** ** Finished tasks *)

(** Task [F] reads as [t], which has completed or failed. *)
Definition sealed (F : string) (t : Task) (db : Db) : Prop :=
  wf db ∧ getTask db F = Some t
  ∧ (state (status t) = completed ∨ state (status t) = failed).

Lemma sealed_write F t db db' x (f : Task → Task) :
  x ≠ F →
  row_id <$> tasks db' = row_id <$> tasks db →
  (∀ other, getTask db' other
            = (λ t, if decide (task_id t = x) then f t else t) <$> getTask db other) →
  sealed F t db → sealed F t db'.
Proof.
  intros Hne Hids Hget (Hwf & Ht & Hf). split_and!; [| |done].
  - unfold wf. by rewrite Hids.
  - rewrite Hget, Ht. cbn. rewrite decide_False; [done|].
    rewrite (getTask_id _ _ _ Ht). congruence.
Qed.

Lemma sealed_cancel F t db now x t' :
  getTask db x = Some t' →
  state (status t') ≠ completed → state (status t') ≠ failed →
  sealed F t db →
  sealed F t (updateTaskStatus db now x canceled (Some "Canceled by client")).
Proof.
  intros Hx Hnc Hnf Hse.
  eapply (sealed_write F t db _ x); [|apply taskUpdateStatus_ids| |done].
  - intros ->. destruct Hse as (_ & Ht & [Hf|Hf]); congruence.
  - intros other. apply getTask_updateTaskStatus.
Qed.

Lemma sealed_op F t T db db' :
  T ≠ F → op_by T db db' → sealed F t db → sealed F t db'.
Proof.
  intros Hne [now st m|now arts|now c rid|now x t' Hx Hc Hnf] Hse.
  - eapply (sealed_write F t db _ T); [done|apply taskUpdateStatus_ids| |done].
    intros other. apply getTask_updateTaskStatus.
  - eapply (sealed_write F t db _ T); [done|apply taskSetArtifacts_ids| |done].
    intros other. apply getTask_setTaskArtifacts.
  - exact Hse.
  - by eapply sealed_cancel.
Qed.

Lemma sealed_evolve F t T db db' :
  T ≠ F → evolve T db db' → sealed F t db → sealed F t db'.
Proof. intros Hne. induction 1; eauto using sealed_op. Qed.

Lemma sealed_cancels F t db db' : cancels db db' → sealed F t db → sealed F t db'.
Proof.
  intros [->|(now & x & t' & Hx & Hc & Hnf & ->)] Hse; [done|]. by eapply sealed_cancel.
Qed.

Lemma sealed_starts F t db db0 T c resumed :
  starts db db0 T c resumed → sealed F t db → T ≠ F ∧ sealed F t db0.
Proof.
  intros Hs (Hwf & Ht & Hf).
  pose proof (starts_wf _ _ _ _ _ Hs Hwf) as Hwf0.
  destruct Hs as [(_ & -> & ra & Ha & Hid)|(_ & _ & Hfresh & now & ->)].
  - split; [|done]. intros HTF.
    apply activeTaskByContext_Some in Ha as (Hin & _ & Hst).
    destruct (getTask_row _ _ _ Ht) as (r & Hr & Hrid & Hrs).
    assert (r = ra) as ->
      by (apply (same_id_same_row (tasks db)); [exact Hwf|done|done|congruence]).
    destruct Hf; congruence.
  - split.
    + intros ->. unfold getTask in Ht. by rewrite Hfresh in Ht.
    + split_and!; [done| |done].
      unfold getTask in *. cbn [tasks]. rewrite taskGet_app.
      by destruct (taskGet F (tasks db)).
Qed.

Lemma sealed_served F t db db' : served db db' → sealed F t db → sealed F t db'.
Proof.
  intros [Hc|(T & c & resumed & db0 & Hs & He)] Hse.
  - by eapply sealed_cancels.
  - destruct (sealed_starts _ _ _ _ _ _ _ Hs Hse) as [Hne Hse0].
    by eapply sealed_evolve.
Qed.

Lemma sealed_serve F t reqs s :
  sealed F t (store s) → sealed F t (store (serve s reqs)).
Proof.
  revert s. induction reqs as [|[req e] reqs IH]; intros s Hs; [done|].
  cbn [serve foldl]. apply IH. eapply sealed_served; [apply a2a_served | done].
Qed.

(** X13 (a finished task is final).  Once a task reads as completed or
    failed, no sequence of later requests served one after the other
    changes anything of it: [getTask] keeps returning the same task,
    status, artifacts and timestamps included. *)
Theorem finished_task_never_changes
    (s : Srv) (reqs : list (A2AJsonRpcRequest * Env)) (F : string) (t : Task) :
  wf (store s) →
  getTask (store s) F = Some t →
  state (status t) = completed ∨ state (status t) = failed →
  getTask (store (serve s reqs)) F = Some t.
Proof.
  intros Hwf Ht Hf.
  by destruct (sealed_serve F t reqs s) as (_ & H & _).
Qed.

Definition ps_again : option Params :=
  Some (mkParams (Some (mkMessage "user" [mkMsgPart "text" (Some "And the SDK?")]))
                 (Some "c1") None).

Lemma finished_task_never_changes_witness :
  wf (store srv_done)
  ∧ getTask (store srv_done) "t1"
    = Some (mkTask "t1" "c1" (mkStatus completed None)
                   [response_artifact "x84 is a protocol."] 10 20)
  ∧ getTask (store (serve srv_done [(cancel_request "t1", env_idle);
                                    (mkRequest "message/send" ps_again, env_idle);
                                    (mkRequest "message/stream" ps_again, env_stream)]))
            "t1"
    = Some (mkTask "t1" "c1" (mkStatus completed None)
                   [response_artifact "x84 is a protocol."] 10 20).
Proof.
  assert (Hwf : wf (store srv_done))
    by (apply (bool_decide_unpack _); vm_compute; exact I).
  split; [exact Hwf|]. split; [reflexivity|].
  apply (finished_task_never_changes srv_done _ "t1" _ Hwf eq_refl). by left.
Defined.


(** ** The task table only grows *)

(** What identifies a task row and never changes: its id, its context
    and its creation time. *)
Definition key (r : TaskRow) : string * string * Z :=
  (row_id r, row_context_id r, row_created_at r).

Lemma key_fmap (f : TaskRow → TaskRow) (rows : list TaskRow) :
  (∀ r, key (f r) = key r) → key <$> (f <$> rows) = key <$> rows.
Proof.
  intros H. rewrite <- list_fmap_compose. apply list_fmap_ext. intros i r _. apply H.
Qed.

Lemma op_by_keys T db db' : op_by T db db' → key <$> tasks db' = key <$> tasks db.
Proof.
  intros [now st m|now arts|now c rid|now x t _ _ _];
    cbn [tasks updateTaskStatus setTaskArtifacts setSession]; [| |done|];
    unfold taskUpdateStatus, taskSetArtifacts; apply key_fmap; intros r;
    by case_decide.
Qed.

Lemma evolve_keys T db db' : evolve T db db' → key <$> tasks db' = key <$> tasks db.
Proof. induction 1 as [|db db1 db2 H _ IH]; [done|]. rewrite IH. by eapply op_by_keys. Qed.

Lemma served_keys db db' :
  served db db' →
  ∃ added, key <$> tasks db' = (key <$> tasks db) ++ added ∧ (length added ≤ 1)%nat.
Proof.
  intros [[->|(now & x & t & _ & _ & _ & ->)]|(T & c & resumed & db0 & Hs & He)].
  - exists []. rewrite app_nil_r. split; [done | cbn; lia].
  - exists []. rewrite app_nil_r. split; [|cbn; lia]. cbn [tasks updateTaskStatus].
    unfold taskUpdateStatus. apply key_fmap. intros r. by case_decide.
  - rewrite (evolve_keys _ _ _ He).
    destruct Hs as [(_ & -> & _)|(_ & _ & _ & now & ->)].
    + exists []. rewrite app_nil_r. split; [done | cbn; lia].
    + eexists [_]. cbn [tasks]. rewrite fmap_app. split; [done | cbn; lia].
Qed.

(** X14 (requests never delete a task).  Whatever requests are served
    one after the other, the task table afterwards starts with the rows
    it had, in their order and each with its id, context and creation
    time unchanged; the rows added are at most one per request. *)
Theorem tasks_are_only_added (s : Srv) (reqs : list (A2AJsonRpcRequest * Env)) :
  ∃ added,
    (λ r, (row_id r, row_context_id r, row_created_at r)) <$> tasks (store (serve s reqs))
    = ((λ r, (row_id r, row_context_id r, row_created_at r)) <$> tasks (store s)) ++ added
    ∧ (length added ≤ length reqs)%nat.
Proof.
  change (λ r, (row_id r, row_context_id r, row_created_at r)) with key.
  revert s. induction reqs as [|[req e] reqs IH]; intros s.
  - exists []. rewrite app_nil_r. split; [done | cbn; lia].
  - change (serve s ((req, e) :: reqs)) with (serve (a2a s req e).1 reqs).
    destruct (IH (a2a s req e).1) as (added2 & -> & Hl2).
    destruct (served_keys _ _ (a2a_served s req e)) as (added1 & -> & Hl1).
    exists (added1 ++ added2). rewrite <- app_assoc. split; [done|].
    rewrite length_app. cbn [length]. lia.
Qed.


(** ** Sessions *)

Lemma tasksCancel_sessions s ps now :
  sessions (store (tasksCancel s ps now).1) = sessions (store s).
Proof.
  unfold tasksCancel.
  destruct (ps ≫= p_id) as [taskId|]; [|done].
  destruct (negb (truthy taskId)); [done|].
  destruct (getTask (store s) taskId) as [t|]; [|done].
  destruct (_ || _); [done|]. cbv zeta.
  case_match; cbn [fst]; srv_simpl; cbn [sessions updateTaskStatus];
    by rewrite store_abort.
Qed.

Lemma interrupt_sessions s i : sessions (store (interrupt s i)) = sessions (store s).
Proof.
  destruct i as [|taskId now]; cbn [interrupt]; [|apply tasksCancel_sessions].
  unfold onInputRequired. destruct (activeRunTaskId s) as [a|]; [|done].
  by destruct (truthy a).
Qed.

Lemma interrupts_sessions ints s :
  sessions (store (foldl interrupt s ints)) = sessions (store s).
Proof.
  revert s. induction ints as [|i ints IH]; intros s; [done|].
  cbn [foldl]. by rewrite IH, interrupt_sessions.
Qed.

Lemma resolveTask_sessions s now uuid c T resumed s0 :
  resolveTask s now uuid c = Ok (T, resumed, s0) →
  sessions (store s0) = sessions (store s).
Proof.
  intros Hr. apply resolveTask_Ok in Hr as (Hs & _).
  by destruct Hs as [(_ & -> & _)|(_ & _ & _ & now' & ->)].
Qed.

(** The sessions after a turn of context [c] whose run settled as [r]. *)
Definition sessions_after (ss : gmap string SessionRow) (c : string) (now : Z)
    (r : RunResult) : gmap string SessionRow :=
  match r with
  | RunReturns _ (Some rid) => if truthy rid then <[c := mkSession rid now]> ss else ss
  | _ => ss
  end.

Lemma send_end_sessions s p e r :
  sessions (store (send_end s p e r).1)
  = sessions_after (sessions (store s)) (run_contextId p) (clock e 2) r.
Proof.
  destruct r as [m|finalOutput [rid|]]; cbn [send_end sessions_after truthy_opt]; [done| |].
  - unfold resolveEndState. cbv zeta. destruct (truthy rid); case_match; done.
  - unfold resolveEndState. cbv zeta. case_match; done.
Qed.

Lemma stream_item_sessions p e l it :
  sessions (store (l_srv (stream_item p e l it))) = sessions (store (l_srv l)).
Proof.
  unfold stream_item. destruct (l_broke l); [done|].
  destruct it as [d| |i].
  - destruct (aborted _ _); [done|]. cbn [l_srv]. srv_simpl.
    unfold appendToTaskArtifact. by case_match.
  - by destruct (aborted _ _).
  - apply interrupt_sessions.
Qed.

Lemma stream_loop_sessions p e items l :
  sessions (store (l_srv (foldl (stream_item p e) l items))) = sessions (store (l_srv l)).
Proof.
  revert l. induction items as [|it items IH]; intros l; [done|].
  cbn [foldl]. by rewrite IH, stream_item_sessions.
Qed.

Lemma stream_settled_sessions s p fullText events e finalOutput lastResponseId :
  sessions (store (stream_settled s p fullText events e finalOutput lastResponseId).1)
  = sessions_after (sessions (store s)) (run_contextId p) (clock e 2)
                   (RunReturns finalOutput lastResponseId).
Proof.
  unfold stream_settled, resolveEndState. cbv zeta.
  destruct (if truthy fullText then None else truthy_opt finalOutput) as [out|];
    destruct lastResponseId as [rid|]; cbn [truthy_opt sessions_after];
    try destruct (truthy rid);
    destruct (close_stream _ p _) as [resp|]; done.
Qed.

(** X15 (the session is written when a turn completes, and read by the
    next turn).  After a [message/send], and after a [message/stream]
    during which no cancel is served, the response id stored for the
    context is the one the run returned, when it returned a non-empty
    one; otherwise, and for every other context, the sessions are as
    before, in particular when the run failed.  A later
    [message/send] or [message/stream] for a context hands [run] the
    response id stored for it as [previousResponseId]. *)
Theorem session_follows_the_last_answer
    (s : Srv) (ps : option Params) (e : Env) (text T : string) (resumed : bool)
    (s0 : Srv) :
  userTextOf ps = Ok text →
  resolveTask s (clock e 0) (uuid_task e)
              (default (uuid_context e) (ps ≫= p_contextId)) = Ok (T, resumed, s0) →
  let c := default (uuid_context e) (ps ≫= p_contextId) in
  let after := sessions_after (sessions (store s)) c (clock e 2) (outcome e) in
  sessions (store (messageSend s ps e).1) = after
  ∧ (undisturbed e → sessions (store (messageStream s ps e).1) = after)
  ∧ (∀ c', c' ≠ c → response_id <$> after !! c' = getSession (store s) c')
  ∧ (∀ finalOutput rid, outcome e = RunReturns finalOutput (Some rid) → rid ≠ "" →
       response_id <$> after !! c = Some rid)
  ∧ (∀ m, outcome e = RunThrows m → after = sessions (store s))
  ∧ (∀ s' ps' e' s1 p',
       send_begin s' ps' e' = (s1, inr p') →
       run_previousResponseId p' = getSession (store s') (run_contextId p'))
  ∧ (∀ s' ps' e' s1 p' events,
       stream_begin s' ps' e' = (s1, inr (p', events)) →
       run_previousResponseId p' = getSession (store s') (run_contextId p')).
Proof.
  intros Hu Hr c after.
  pose proof (resolveTask_sessions _ _ _ _ _ _ _ Hr) as Hs0.
  split_and!.
  - unfold messageSend, send_begin. rewrite Hu, Hr. fold c.
    rewrite send_end_sessions, interrupts_sessions. cbn [run_contextId].
    srv_simpl. cbn [sessions updateTaskStatus]. by rewrite Hs0.
  - intros Hund. unfold messageStream, stream_begin. rewrite Hu, Hr. fold c.
    set (p := mkPending T c resumed _ _).
    set (s1 := with_active _ _).
    set (l0 := mkLoop s1 _ _ _ _).
    assert (controllers (l_srv l0) !! run_ac p = Some false) as Hc1.
    { subst l0 s1. cbn [l_srv run_ac p]. destruct resumed; srv_simpl;
        by rewrite lookup_app_r, Nat.sub_diag by lia. }
    destruct (stream_loop_not_broken p e (during e) l0 Hund eq_refl Hc1) as (Hb & Hctl).
    assert (sessions (store (l_srv (foldl (stream_item p e) l0 (during e))))
            = sessions (store s)) as Hss.
    { rewrite stream_loop_sessions. subst l0 s1. cbn [l_srv].
      destruct resumed; srv_simpl; cbn [sessions updateTaskStatus setTaskArtifacts];
        by rewrite Hs0. }
    unfold stream_end. rewrite Hb.
    destruct (outcome e) as [m|finalOutput lastResponseId] eqn:Ho.
    + subst after. cbn [sessions_after]. by rewrite <- Hss.
    + cbv zeta.
      assert (aborted (with_active (l_srv (foldl (stream_item p e) l0 (during e))) None)
                      (run_ac p) = false) as ->.
      { unfold aborted. srv_simpl. by rewrite Hctl. }
      rewrite stream_settled_sessions. subst after.
      srv_simpl. by rewrite Hss.
  - intros c' Hc'. subst after. unfold sessions_after, getSession.
    destruct (outcome e) as [m|finalOutput [rid|]]; try done.
    destruct (truthy rid); [|done]. by rewrite lookup_insert_ne.
  - intros finalOutput rid Ho Hrid. subst after. rewrite Ho. cbn [sessions_after].
    by rewrite (truthy_ne _ Hrid), lookup_insert_eq.
  - intros m Ho. subst after. by rewrite Ho.
  - intros s' ps' e' s1 p'. unfold send_begin.
    destruct (userTextOf ps'); [|discriminate].
    destruct (resolveTask s' _ _ _) as [[[T' resumed'] s0']|] eqn:Hr'; [|discriminate].
    intros [= _ <-]. cbn [run_previousResponseId run_contextId].
    unfold getSession. by rewrite (resolveTask_sessions _ _ _ _ _ _ _ Hr').
  - intros s' ps' e' s1 p' events. unfold stream_begin.
    destruct (userTextOf ps'); [|discriminate].
    destruct (resolveTask s' _ _ _) as [[[T' resumed'] s0']|] eqn:Hr'; [|discriminate].
    intros [= _ <- _]. cbn [run_previousResponseId run_contextId].
    unfold getSession. by rewrite (resolveTask_sessions _ _ _ _ _ _ _ Hr').
Qed.


Lemma session_follows_the_last_answer_witness :
  userTextOf ps_question = Ok "How do I set it up?"
  ∧ getSession (store init) "c7" = None
  ∧ getSession (store (messageSend init ps_question env_clarify).1) "c7" = Some "resp_7".
Proof.
  split; [reflexivity|]. split; [reflexivity|].
  destruct (session_follows_the_last_answer init ps_question env_clarify
              "How do I set it up?" "task-7" false _ eq_refl eq_refl)
    as (Hs & _ & _ & Hrid & _).
  unfold getSession. rewrite Hs. apply (Hrid (Some "Set up what?") "resp_7" eq_refl).
  discriminate.
Defined.


(** ** A cancel while the run streams *)

Lemma stream_loop_quiet p e items l t0 :
  forallb (λ it, negb (is_cancel it)) items = true →
  l_broke l = false →
  controllers (l_srv l) !! run_ac p = Some false →
  getTask (store (l_srv l)) (run_taskId p) = Some t0 →
  let l' := foldl (stream_item p e) l items in
  abortControllers (l_srv l') = abortControllers (l_srv l)
  ∧ controllers (l_srv l') = controllers (l_srv l)
  ∧ ∃ t1, getTask (store (l_srv l')) (run_taskId p) = Some t1
          ∧ status t1 = status t0.
Proof.
  revert l t0. induction items as [|it items IH]; intros l t0 Hu Hb Hc Ht.
  { cbn [foldl]. split_and!; [done..|]. by eauto. }
  cbn [foldl]. cbn [forallb] in Hu. apply andb_true_iff in Hu as [Hit Hu'].
  destruct (stream_loop_not_broken p e [it] l) as (Hb1 & Hc1);
    [by cbn [forallb]; rewrite Hit | done | done |].
  cbn [foldl] in Hb1, Hc1.
  assert (aborted (l_srv l) (run_ac p) = false) as Hab.
  { unfold aborted. by rewrite Hc. }
  assert (abortControllers (l_srv (stream_item p e l it)) = abortControllers (l_srv l)
          ∧ controllers (l_srv (stream_item p e l it)) = controllers (l_srv l)
          ∧ ∃ t1, getTask (store (l_srv (stream_item p e l it))) (run_taskId p) = Some t1
                  ∧ status t1 = status t0) as (Ha1 & Hk1 & t1 & Ht1 & Hs1).
  { unfold stream_item. rewrite Hb.
    destruct it as [d| |i]; rewrite ?Hab; cbn [l_srv]; srv_simpl.
    - split_and!; [done..|]. eexists. split; [by apply getTask_appendToTaskArtifact|done].
    - eauto.
    - destruct i as [|taskId now]; [|discriminate Hit]. cbn [interrupt].
      unfold onInputRequired. destruct (activeRunTaskId (l_srv l)) as [a|]; [|by eauto].
      destruct (truthy a); by eauto. }
  destruct (IH _ t1 Hu' Hb1 Hc1 Ht1) as (Ha2 & Hk2 & t2 & Ht2 & Hs2).
  split_and!; [congruence | congruence |]. exists t2. split; [done | congruence].
Qed.

Lemma getTask_canceled db now x T t :
  getTask db T = Some t →
  ∃ t', getTask (updateTaskStatus db now x canceled (Some "Canceled by client")) T = Some t'
        ∧ artifacts t' = artifacts t.
Proof.
  intros Ht. rewrite getTask_updateTaskStatus, Ht. cbn. case_decide; eauto.
Qed.

Lemma tasksCancel_keeps s ps now T t i :
  getTask (store s) T = Some t →
  controllers s !! i = Some true →
  (∃ t', getTask (store (tasksCancel s ps now).1) T = Some t'
         ∧ artifacts t' = artifacts t)
  ∧ controllers (tasksCancel s ps now).1 !! i = Some true.
Proof.
  intros Ht Hi. unfold tasksCancel.
  destruct (ps ≫= p_id) as [taskId|]; [|by eauto].
  destruct (negb (truthy taskId)); [by eauto|].
  destruct (getTask (store s) taskId) as [tx|]; [|by eauto].
  destruct (_ || _); [by eauto|]. cbv zeta.
  assert (controllers (abort s taskId) !! i = Some true) as Hi'.
  { unfold abort. destruct (abortControllers s !! taskId) as [ac|]; [|done].
    cbn [controllers]. destruct (decide (ac = i)) as [->|Hne].
    - apply list_lookup_insert_eq. by eapply lookup_lt_Some.
    - by rewrite list_lookup_insert_ne. }
  case_match; cbn [fst]; srv_simpl; rewrite store_abort;
    (split; [by apply getTask_canceled | exact Hi']).
Qed.

Lemma stream_loop_aborted p e items l t :
  controllers (l_srv l) !! run_ac p = Some true →
  getTask (store (l_srv l)) (run_taskId p) = Some t →
  let l' := foldl (stream_item p e) l items in
  l_events l' = l_events l
  ∧ controllers (l_srv l') !! run_ac p = Some true
  ∧ sessions (store (l_srv l')) = sessions (store (l_srv l))
  ∧ ∃ t', getTask (store (l_srv l')) (run_taskId p) = Some t'
          ∧ artifacts t' = artifacts t.
Proof.
  revert l t. induction items as [|it items IH]; intros l t Hc Ht.
  { cbn [foldl]. split_and!; [done..|]. by eauto. }
  cbn [foldl].
  assert (l_events (stream_item p e l it) = l_events l
          ∧ controllers (l_srv (stream_item p e l it)) !! run_ac p = Some true
          ∧ ∃ t', getTask (store (l_srv (stream_item p e l it))) (run_taskId p) = Some t'
                  ∧ artifacts t' = artifacts t) as (He1 & Hc1 & t1 & Ht1 & Ha1).
  { unfold stream_item. destruct (l_broke l); [by eauto|].
    assert (aborted (l_srv l) (run_ac p) = true) as Hab.
    { unfold aborted. by rewrite Hc. }
    destruct it as [d| |i]; rewrite ?Hab; cbn [l_srv l_events]; [by eauto..|].
    split; [done|]. destruct i as [|taskId now]; cbn [interrupt].
    - unfold onInputRequired. destruct (activeRunTaskId (l_srv l)) as [a|]; [|by eauto].
      destruct (truthy a); by eauto.
    - destruct (tasksCancel_keeps (l_srv l) (Some (mkParams None None taskId)) now
                                  _ _ _ Ht Hc) as [Hk Hc']. done. }
  destruct (IH _ t1 Hc1 Ht1) as (He2 & Hc2 & Hs2 & t2 & Ht2 & Ha2).
  split_and!; [congruence | done | by rewrite Hs2, stream_item_sessions |].
  exists t2. split; [done | congruence].
Qed.


Lemma tasksCancel_aborts s now T t ac :
  T ≠ "" →
  getTask (store s) T = Some t →
  state (status t) = working →
  abortControllers s !! T = Some ac →
  (ac < length (controllers s))%nat →
  let s' := (tasksCancel s (Some (mkParams None None (Some T))) now).1 in
  controllers s' !! ac = Some true
  ∧ sessions (store s') = sessions (store s)
  ∧ ∃ t', getTask (store s') T = Some t' ∧ artifacts t' = artifacts t.
Proof.
  intros HT Ht Hst Hac Hlt. cbv zeta.
  split_and!; [| apply tasksCancel_sessions |].
  - unfold tasksCancel. cbn [mbind option_bind p_id]. rewrite (truthy_ne _ HT), Ht, Hst.
    change (bool_decide (working = completed) || bool_decide (working = failed))
      with false.
    cbn [negb]. cbv zeta.
    assert (controllers (abort s T) !! ac = Some true) as Hc'.
    { unfold abort. rewrite Hac. cbn [controllers]. by apply list_lookup_insert_eq. }
    by case_match; cbn [fst]; srv_simpl.
  - unfold tasksCancel. cbn [mbind option_bind p_id]. rewrite (truthy_ne _ HT), Ht, Hst.
    change (bool_decide (working = completed) || bool_decide (working = failed))
      with false.
    cbn [negb]. cbv zeta.
    case_match; cbn [fst]; srv_simpl; rewrite store_abort; by apply getTask_canceled.
Qed.

Lemma stream_canceled_returns s p events e t :
  getTask (store s) (run_taskId p) = Some t →
  let t' := mkTask (run_taskId p) (Store.contextId t)
                   (mkStatus canceled (Some "Canceled by client"))
                   (artifacts t) (createdAt t) (clock e 7) in
  (stream_canceled s p events e).2
  = EventStream (events ++ [StatusUpdate (run_taskId p) (run_contextId p) canceled
                              (Some "Canceled by client");
                            TaskSnapshot (taskToA2A t'); DONE]) true
  ∧ getTask (store (stream_canceled s p events e).1) (run_taskId p) = Some t'
  ∧ sessions (store (stream_canceled s p events e).1) = sessions (store s).
Proof.
  intros Ht t'. pose proof (getTask_id _ _ _ Ht) as Hid.
  unfold stream_canceled, close_stream. srv_simpl.
  rewrite getTask_updateTaskStatus, Ht. cbn [fmap option_fmap option_map].
  rewrite decide_True by done. cbn [fst snd]. unfold stream_finally. srv_simpl.
  rewrite getTask_updateTaskStatus, Ht. cbn [fmap option_fmap option_map].
  rewrite decide_True by done. subst t'. rewrite Hid. cbn [truthy_opt].
  split_and!; [by rewrite <- app_assoc | done | done].
Qed.

(** X16 (a cancel of the streaming task stops the stream).  When a
    [tasks/cancel] for the task of a [message/stream] is served while
    its run streams, and the run then returns, the response holds the
    [working] status, the artifact updates of the deltas received
    before the cancel, then the [canceled] status, the snapshot and
    [[DONE]]; nothing that the run delivered after the cancel is
    written or stored.  The stored task is canceled with the text
    streamed before the cancel as its artifact, and the session of the
    context is not advanced. *)
Theorem cancel_stops_the_stream
    (s : Srv) (ps : option Params) (e : Env) (text T : string) (resumed : bool)
    (s0 : Srv) (before rest : list StreamItem) (now : Z)
    (finalOutput lastResponseId : option string) :
  wf (store s) →
  userTextOf ps = Ok text →
  resolveTask s (clock e 0) (uuid_task e)
              (default (uuid_context e) (ps ≫= p_contextId)) = Ok (T, resumed, s0) →
  T ≠ "" →
  during e = before ++ Meanwhile (CancelArrives (Some T) now) :: rest →
  forallb (λ it, negb (is_cancel it)) before = true →
  outcome e = RunReturns finalOutput lastResponseId →
  let c := default (uuid_context e) (ps ≫= p_contextId) in
  ∃ t', (messageStream s ps e).2
        = EventStream
            ([StatusUpdate T c working (Some (workingMsg resumed))]
             ++ ((λ d, ArtifactUpdate T c (mkArtifact "response" [text_part d] (Some true)))
                   <$> deltas before)
             ++ [StatusUpdate T c canceled (Some "Canceled by client");
                 TaskSnapshot (taskToA2A t'); DONE])
            true
        ∧ getTask (store (messageStream s ps e).1) T = Some t'
        ∧ Store.contextId t' = c
        ∧ status t' = mkStatus canceled (Some "Canceled by client")
        ∧ artifacts t' = match deltas before with
                         | [] => []
                         | _ => [response_artifact (join (deltas before))]
                         end
        ∧ sessions (store (messageStream s ps e).1) = sessions (store s).
Proof.
  intros Hwf Hu Hr HT Hd Hund Ho c.
  destruct (resolveTask_task _ _ _ _ _ _ _ Hwf Hr) as (t0 & Ht0 & Hc0 & Hnew).
  pose proof (resolveTask_Ok _ _ _ _ _ _ _ Hr) as (_ & _ & _ & _ & _).
  pose proof (resolveTask_sessions _ _ _ _ _ _ _ Hr) as Hss0.
  pose proof (getTask_id _ _ _ Ht0) as Hid.
  unfold messageStream, stream_begin. rewrite Hu, Hr, Ho, Hd. fold c.
  set (p := mkPending T c resumed _ _).
  set (s1 := with_active _ _).
  set (l0 := mkLoop s1 _ _ _ _).
  assert (getTask (store s1) T
          = Some (mkTask T c (mkStatus working (Some (workingMsg resumed))) []
                         (createdAt t0) (clock e 1))) as Hg1.
  { subst s1. destruct resumed; srv_simpl;
      rewrite getTask_updateTaskStatus, ?getTask_setTaskArtifacts, Ht0;
      cbn [fmap option_fmap option_map];
      rewrite !(decide_True (P := task_id t0 = T)) by done;
      cbn [task_id]; rewrite ?(decide_True (P := task_id t0 = T)) by done;
      cbn [Store.contextId artifacts createdAt truthy_opt workingMsg];
      rewrite Hid, Hc0; [done|]. by rewrite (Hnew eq_refl). }
  assert (controllers (l_srv l0) = controllers s0 ++ [false]) as Hk0.
  { subst l0 s1. cbn [l_srv]. by destruct resumed. }
  assert (controllers (l_srv l0) !! run_ac p = Some false) as Hc1.
  { rewrite Hk0. cbn [run_ac p]. by rewrite lookup_app_r, Nat.sub_diag by lia. }
  assert (abortControllers (l_srv l0) !! T = Some (run_ac p)) as Hac0.
  { subst l0 s1. cbn [l_srv run_ac p]. destruct resumed; srv_simpl;
      by rewrite lookup_insert_eq. }
  assert (sessions (store (l_srv l0)) = sessions (store s)) as Hs0.
  { subst l0 s1. cbn [l_srv].
    destruct resumed; srv_simpl; cbn [sessions updateTaskStatus setTaskArtifacts];
      by rewrite Hss0. }
  rewrite foldl_app. cbn [foldl].
  set (l1 := foldl (stream_item p e) l0 before).
  destruct (stream_loop_undisturbed p e before l0 [] _ Hund eq_refl Hc1 Hg1
                                    eq_refl eq_refl)
    as (Hb1 & Hctl1 & _ & t1 & Ht1 & Hart1).
  cbn [app] in Hart1. fold l1 in Hb1, Hctl1, Ht1.
  pose proof (stream_loop_events p e before l0 Hund eq_refl Hc1) as Hev1. fold l1 in Hev1.
  destruct (stream_loop_quiet p e before l0 _ Hund eq_refl Hc1 Hg1)
    as (Ha1 & Hk1 & t1' & Ht1' & Hst1).
  fold l1 in Ha1, Hk1, Ht1'. cbn [run_taskId p] in Ht1, Ht1'.
  rewrite Ht1 in Ht1'. injection Ht1' as <-. cbn [status] in Hst1.
  pose proof (stream_loop_sessions p e before l0) as Hs1. fold l1 in Hs1.
  set (l2 := stream_item p e l1 (Meanwhile (CancelArrives (Some T) now))).
  assert (l2 = mkLoop (tasksCancel (l_srv l1) (Some (mkParams None None (Some T))) now).1
                      (l_fullText l1) (l_events l1) (l_count l1) false) as Hl2.
  { subst l2. unfold stream_item. by rewrite Hb1. }
  destruct (tasksCancel_aborts (l_srv l1) now T t1 (run_ac p) HT Ht1
              ltac:(by rewrite Hst1) ltac:(by rewrite Ha1)
              ltac:(by eapply lookup_lt_Some))
    as (Hc2 & Hs2 & t2 & Ht2 & Hart2).
  set (l3 := foldl (stream_item p e) l2 rest).
  destruct (stream_loop_aborted p e rest l2 t2) as (Hev3 & Hc3 & Hs3 & t3 & Ht3 & Hart3).
  { by rewrite Hl2. }
  { by rewrite Hl2. }
  fold l3 in Hev3, Hc3, Hs3, Ht3.
  assert (Store.contextId t3 = c) as Hctx.
  { destruct (evolve_keeps T _ _ T _
                (stream_loop_evolve p e
                   (before ++ Meanwhile (CancelArrives (Some T) now) :: rest) l0) Hg1)
      as (t3' & Ht3' & Hk & _).
    rewrite foldl_app in Ht3'. cbn [foldl] in Ht3'. fold l1 l2 l3 in Ht3'.
    cbn [run_taskId p] in Ht3. rewrite Ht3 in Ht3'. by injection Ht3' as <-. }
  assert (stream_end p e l3 (RunReturns finalOutput lastResponseId)
          = stream_canceled (with_active (l_srv l3) None) p (l_events l3) e) as ->.
  { unfold stream_end. destruct (l_broke l3); [done|]. cbv zeta.
    assert (aborted (with_active (l_srv l3) None) (run_ac p) = true) as ->; [|done].
    unfold aborted. srv_simpl. by rewrite Hc3. }
  destruct (stream_canceled_returns (with_active (l_srv l3) None) p (l_events l3) e t3 Ht3)
    as (Hresp & Hget & Hsess).
  eexists. split; [|split; [exact Hget|]].
  - rewrite Hresp, Hev3, Hl2. cbn [l_events]. rewrite Hev1.
    cbn [run_taskId run_contextId p l_events l0]. unfold delta_event.
    cbn [run_taskId run_contextId p]. rewrite <- !app_assoc. reflexivity.
  - split_and!.
    + exact Hctx.
    + done.
    + cbn [artifacts]. rewrite Hart3, Hart2, Hart1. reflexivity.
    + rewrite Hsess. srv_simpl. rewrite Hs3, Hl2. cbn [l_srv]. by rewrite Hs2, Hs1, Hs0.
Qed.

Definition env_canceled : Env :=
  mkEnv "ctx-9" "task-9" (λ n, 9000 + Z.of_nat n)
        [ModelDelta (Some "x84 "); Meanwhile (CancelArrives (Some "task-9") 9500);
         ModelDelta (Some "is a protocol.")]
        (RunReturns (Some "x84 is a protocol.") (Some "resp_9")).

Lemma cancel_stops_the_stream_witness :
  wf (store init)
  ∧ userTextOf ps_question = Ok "How do I set it up?"
  ∧ (messageStream init ps_question env_canceled).2
    = EventStream
        [StatusUpdate "task-9" "c7" working (Some "Thinking...");
         ArtifactUpdate "task-9" "c7" (mkArtifact "response" [text_part "x84 "] (Some true));
         StatusUpdate "task-9" "c7" canceled (Some "Canceled by client");
         TaskSnapshot (mkA2ATask "task-9" "c7"
                                 (mkStatus canceled (Some "Canceled by client"))
                                 [response_artifact "x84 "]);
         DONE]
        true
  ∧ getSession (store (messageStream init ps_question env_canceled).1) "c7" = None.
Proof.
  assert (Hwf : wf (store init)) by apply NoDup_nil_2.
  split; [exact Hwf|]. split; [reflexivity|].
  destruct (cancel_stops_the_stream init ps_question env_canceled
              "How do I set it up?" "task-9" false _
              [ModelDelta (Some "x84 ")] [ModelDelta (Some "is a protocol.")] 9500
              (Some "x84 is a protocol.") (Some "resp_9")
              Hwf eq_refl eq_refl ltac:(discriminate) eq_refl eq_refl eq_refl)
    as (t' & Hresp & Hget & Hc & Hst & Harts & Hsess).
  split.
  - rewrite Hresp. apply getTask_id in Hget.
    destruct t' as [i c st arts ca ua]. cbn in Hget, Hc, Hst, Harts. subst i c st arts.
    reflexivity.
  - unfold getSession. by rewrite Hsess.
Defined.


(** ** Waiting tasks: resumption and its end *)

Lemma served_quiet_settled reqs :
  quiet (serve init reqs) ∧ settled (store (serve init reqs)).
Proof.
  split; [by apply serve_quiet|]. apply settled_serve.
  split; [apply NoDup_nil_2|]. intros r1 r2 Hr1. by apply elem_of_nil in Hr1.
Qed.

Lemma waiting_task_is_found db c T t :
  settled db → getTask db T = Some t →
  Store.contextId t = c → state (status t) = input_required →
  ∃ ta, getActiveTask db c = Some ta ∧ task_id ta = T.
Proof.
  intros [Hwf Hpw] Ht Hc Hst.
  unfold getTask in Ht. destruct (taskGet T (tasks db)) as [r|] eqn:Hg; [|done].
  injection Ht as <-. apply taskGet_Some in Hg as [Hin Hid]. cbn in Hc, Hst.
  unfold getActiveTask.
  destruct (activeTaskByContext c (tasks db)) as [ra|] eqn:Ha.
  - exists (rowToTask ra). split; [done|]. cbn [rowToTask task_id].
    apply activeTaskByContext_Some in Ha as (Hra & Hca & Hsa).
    rewrite <- Hid. apply Hpw; [done | done | congruence | done | done].
  - exfalso. by apply (activeTaskByContext_None _ _ r Ha Hin Hc).
Qed.

(** X17 (a task left waiting is the one the next message resumes).
    After any requests served one after the other from the initial
    server, when a [message/send] ends with the agent having asked for
    clarification, the next message for the same context resolves to
    the same task, resumed, and creates no task. *)
Theorem clarification_is_followed_by_resumption
    (reqs : list (A2AJsonRpcRequest * Env)) (ps : option Params) (e : Env)
    (text T : string) (resumed : bool) (s0 : Srv)
    (finalOutput lastResponseId : option string) (now : Z) (uuid : string) :
  let s := serve init reqs in
  let c := default (uuid_context e) (ps ≫= p_contextId) in
  userTextOf ps = Ok text →
  resolveTask s (clock e 0) (uuid_task e) c = Ok (T, resumed, s0) →
  T ≠ "" →
  outcome e = RunReturns finalOutput lastResponseId →
  clarified (during e) = true →
  resolveTask (messageSend s ps e).1 now uuid c = Ok (T, true, (messageSend s ps e).1).
Proof.
  intros s c Hu Hr HT Ho Hcl.
  destruct (served_quiet_settled reqs) as [(_ & Hf & _) [Hwf Hpw]]. fold s in Hf, Hwf, Hpw.
  destruct (send_returns s ps e text T resumed s0 finalOutput lastResponseId Hwf
              ltac:(by rewrite Hf) Hu Hr HT Ho)
    as (t' & _ & Hget & _ & Hc & Hst & _).
  rewrite Hcl in Hst.
  assert (settled (store (messageSend s ps e).1)) as Hset.
  { eapply settled_served; [apply messageSend_served | by split]. }
  destruct (waiting_task_is_found _ c T t' Hset Hget Hc) as (ta & Hta & Hid).
  { by rewrite Hst. }
  rewrite <- Hid. by apply resolveTask_active.
Qed.

Lemma clarification_is_followed_by_resumption_witness :
  userTextOf ps_question = Ok "How do I set it up?"
  ∧ clarified (during env_clarify) = true
  ∧ resolveTask (messageSend (serve init [(get_request "t0", env_idle)])
                             ps_question env_clarify).1 7700 "task-8" "c7"
    = Ok ("task-7", true,
          (messageSend (serve init [(get_request "t0", env_idle)])
                       ps_question env_clarify).1).
Proof.
  split; [reflexivity|]. split; [reflexivity|].
  exact (clarification_is_followed_by_resumption [(get_request "t0", env_idle)]
           ps_question env_clarify "How do I set it up?" "task-7" false _
           (Some "Set up what?") (Some "resp_7") 7700 "task-8"
           eq_refl eq_refl ltac:(discriminate) eq_refl eq_refl).
Defined.

(** X18 (a canceled task is no longer resumed).  After any requests
    served one after the other from the initial server, when the task
    waiting for input in a context is canceled, no task of that context
    waits for input any more: the next message for the context starts a
    new task. *)
Theorem canceled_task_is_not_resumed
    (reqs : list (A2AJsonRpcRequest * Env)) (c : string) (t : Task) (e : Env) :
  let s := serve init reqs in
  getActiveTask (store s) c = Some t →
  task_id t ≠ "" →
  getActiveTask (store (a2a s (cancel_request (task_id t)) e).1) c = None.
Proof.
  intros s Ha HT.
  destruct (served_quiet_settled reqs) as [_ [Hwf Hpw]]. fold s in Hwf, Hpw.
  unfold getActiveTask in Ha.
  destruct (activeTaskByContext c (tasks (store s))) as [ra|] eqn:Hra; [|done].
  injection Ha as <-. cbn [rowToTask task_id] in *.
  apply activeTaskByContext_Some in Hra as (Hin & Hc & Hst).
  assert (getTask (store s) (row_id ra) = Some (rowToTask ra)) as Hg.
  { unfold getTask. by rewrite (StoreLaws.taskGet_elem _ _ Hwf Hin). }
  assert (store (a2a s (cancel_request (row_id ra)) e).1
          = updateTaskStatus (store s) (clock e 0) (row_id ra) canceled
                             (Some "Canceled by client")) as ->.
  { unfold a2a, cancel_request. cbn [method params].
    rewrite bool_decide_eq_false_2 by done. rewrite bool_decide_eq_true_2 by done.
    unfold tasksCancel, cancel_params. cbn [mbind option_bind p_id].
    rewrite (truthy_ne _ HT), Hg. cbn [negb rowToTask status state]. rewrite Hst.
    rewrite !bool_decide_eq_false_2 by done. cbn [orb].
    cbv zeta. case_match; cbn [fst]; srv_simpl; by rewrite store_abort. }
  unfold getActiveTask.
  destruct (activeTaskByContext c (tasks (updateTaskStatus (store s) (clock e 0)
                                            (row_id ra) canceled
                                            (Some "Canceled by client"))))
    as [rb|] eqn:Hrb; [exfalso|done].
  apply activeTaskByContext_Some in Hrb as (Hinb & Hcb & Hstb).
  cbn [tasks updateTaskStatus] in Hinb. unfold taskUpdateStatus in Hinb.
  apply list_elem_of_fmap in Hinb as (r & -> & Hr).
  destruct (decide (row_id r = row_id ra)) as [Heq|Hne]; [done|].
  apply Hne. apply Hpw; [done | done | congruence | done | done].
Qed.

Lemma canceled_task_is_not_resumed_witness :
  let s := serve init [(mkRequest "message/send" ps_question, env_clarify)] in
  getActiveTask (store s) "c7"
  = Some (mkTask "task-7" "c7" (mkStatus input_required None)
                 [response_artifact "Set up what?"] 7000 7004)
  ∧ getActiveTask (store (a2a s (cancel_request "task-7") env_idle).1) "c7" = None.
Proof.
  split; [reflexivity|].
  exact (canceled_task_is_not_resumed [(mkRequest "message/send" ps_question, env_clarify)]
           "c7" _ env_idle eq_refl ltac:(discriminate)).
Defined.

End ServerLaws.
(* ================================================================== *)
(** * The executor: what one execution publishes *)

Module ExecutorLaws.
Import Store Executor.

(** A status update marked [final]. *)
Definition is_final (ev : Event) : bool :=
  match ev with
  | StatusUpdate _ _ _ _ final => final
  | _ => false
  end.

(** The events of a finished execution: events that are neither final
    nor [finished()], then one final status update, then [finished()]. *)
Definition closes_with (taskId : string) (st : TaskState) (events : list Event) : Prop :=
  ∃ before contextId msg,
    events = before ++ [StatusUpdate taskId contextId st msg true; Finished]
    ∧ Forall (λ ev, is_final ev = false ∧ ev ≠ Finished) before.

Lemma clarified_run (n : nat) (r : Run) :
  r_context (Nat.iter n onInputRequired r) = r_context r
  ∧ r_published (Nat.iter n onInputRequired r) = r_published r
  ∧ r_inputRequired (Nat.iter n onInputRequired r) = (0 <? n)%nat || r_inputRequired r.
Proof.
  induction n as [|n (IH1 & IH2 & IH3)]; [done|].
  cbn [Nat.iter]. unfold onInputRequired at 1 2 3.
  cbn [r_context r_published r_inputRequired]. done.
Qed.

Lemma publishInitialTask_open context :
  Forall (λ ev, is_final ev = false ∧ ev ≠ Finished) (publishInitialTask context).
Proof.
  unfold publishInitialTask. destruct (x_task context); [constructor|].
  constructor; [done | constructor].
Qed.

(** X19 (every execution publishes exactly one final status, then
    finishes).  Whatever the message, the number of clarification calls
    and the outcome of the run, what [execute] publishes ends with one
    status update marked final for its task, in state [completed],
    [input-required] or [failed], followed by [finished()] as the last
    event; nothing before it is final or [finished()].  [cancelTask]
    publishes the same shape with state [canceled]. *)
Theorem execution_closes_with_one_final_status
    (sessionStore : Db) (now : Z) (context : RequestContext) (n : nat)
    (res : RunResult) (taskId : string) :
  (∃ st, closes_with (x_taskId context) st (execute sessionStore now context n res).2
         ∧ (st = completed ∨ st = input_required ∨ st = failed))
  ∧ closes_with taskId canceled (cancelTask taskId).
Proof.
  split.
  - unfold execute, execute_begin.
    destruct (negb (truthy (extractText (x_userMessage context)))).
    + exists failed. split; [|auto]. exists [], (x_contextId context), (Some "Empty message text").
      split; [done | constructor].
    + destruct (clarified_run n
                  (mkRun context
                     (publishInitialTask context
                      ++ publishStatus (x_taskId context) (x_contextId context) working None)
                     false (getSession sessionStore (x_contextId context))))
        as (Hc & Hp & Hi).
      cbn [r_context r_published r_inputRequired] in Hc, Hp, Hi.
      assert (Forall (λ ev, is_final ev = false ∧ ev ≠ Finished)
                (publishInitialTask context
                 ++ publishStatus (x_taskId context) (x_contextId context) working None))
        as Hopen.
      { apply Forall_app. split; [apply publishInitialTask_open|].
        constructor; [done | constructor]. }
      destruct res as [err|finalOutput lastResponseId]; unfold execute_end; cbv zeta;
        rewrite Hc, Hp; cbn [snd].
      * exists failed. split; [|auto].
        eexists _, (x_contextId context), _. split; [reflexivity | exact Hopen].
      * rewrite Hi, orb_false_r.
        exists (if (0 <? n)%nat then input_required else completed).
        split; [|destruct (0 <? n)%nat; auto].
        exists ((publishInitialTask context
                 ++ publishStatus (x_taskId context) (x_contextId context) working None)
                ++ publishArtifact (x_taskId context) (x_contextId context) "response"
                     (default "I was unable to generate a response." finalOutput)),
               (x_contextId context),
               (if (0 <? n)%nat then Some "Waiting for user input" else None).
        split.
        -- rewrite <- !app_assoc. by destruct (0 <? n)%nat.
        -- apply Forall_app. split; [exact Hopen|]. constructor; [done | constructor].
  - exists [], "", None. split; [done | constructor].
Qed.

(** X20 (what an execution with a non-empty message publishes and
    stores).  It publishes the initial task unless the context already
    has one, then [working]; when the run returns, the artifact
    ["response"] with the output (or the stock apology) and a final
    status that is [input-required] exactly when the agent called the
    clarification callback at least once, else [completed], and the
    session of the context is set to the returned response id when that
    is non-empty; when the run throws, a final [failed] status carrying
    the error message, or ["Unknown error"] for a thrown value that is
    no [Error], and the session store is left as it is. *)
Theorem execute_outcome
    (sessionStore : Db) (now : Z) (context : RequestContext) (n : nat)
    (res : RunResult) :
  extractText (x_userMessage context) ≠ "" →
  let taskId := x_taskId context in
  let contextId := x_contextId context in
  let opening := publishInitialTask context
                 ++ [StatusUpdate taskId contextId working None false] in
  execute sessionStore now context n res
  = match res with
    | RunReturns finalOutput lastResponseId =>
        (match lastResponseId with
         | Some rid => if truthy rid then setSession sessionStore now contextId rid
                       else sessionStore
         | None => sessionStore
         end,
         opening
         ++ [ArtifactUpdate taskId contextId "response"
               (default "I was unable to generate a response." finalOutput) true;
             StatusUpdate taskId contextId
               (if (0 <? n)%nat then input_required else completed)
               (if (0 <? n)%nat then Some "Waiting for user input" else None) true;
             Finished])
    | RunThrows err =>
        (sessionStore,
         opening
         ++ [StatusUpdate taskId contextId failed
               (Some match err with
                     | ErrorWith message => message
                     | NotAnError => "Unknown error"
                     end) true;
             Finished])
    end.
Proof.
  intros Htext. cbv zeta. unfold execute, execute_begin.
  rewrite (ServerFacts.truthy_ne _ Htext). cbn [negb].
  destruct (clarified_run n
              (mkRun context
                 (publishInitialTask context
                  ++ publishStatus (x_taskId context) (x_contextId context) working None)
                 false (getSession sessionStore (x_contextId context))))
    as (Hc & Hp & Hi).
  cbn [r_context r_published r_inputRequired] in Hc, Hp, Hi.
  destruct res as [err|finalOutput lastResponseId]; unfold execute_end; cbv zeta;
    rewrite Hc, Hp.
  - unfold publishFailure, publishStatus. cbn [truthy_opt].
    rewrite <- !app_assoc. reflexivity.
  - rewrite Hi, orb_false_r. f_equal.
    + destruct lastResponseId as [rid|]; [|done]. cbn [truthy_opt]. by destruct (truthy rid).
    + unfold publishArtifact, publishStatus. rewrite <- !app_assoc.
      destruct (0 <? n)%nat; reflexivity.
Qed.

Definition ctx_ask : RequestContext :=
  mkContext "task-1" "ctx-1"
            (mkMessage [mkMsgPart "file" None; mkMsgPart "text" (Some "What is x84?")])
            false.

Lemma execute_outcome_witness :
  extractText (x_userMessage ctx_ask) ≠ ""
  ∧ execute Store.empty 100 ctx_ask 2 (RunReturns (Some "Which part?") (Some "resp_1"))
    = (setSession Store.empty 100 "ctx-1" "resp_1",
       [InitialTask "task-1" "ctx-1" [x_userMessage ctx_ask];
        StatusUpdate "task-1" "ctx-1" working None false;
        ArtifactUpdate "task-1" "ctx-1" "response" "Which part?" true;
        StatusUpdate "task-1" "ctx-1" input_required (Some "Waiting for user input") true;
        Finished]).
Proof.
  assert (H : extractText (x_userMessage ctx_ask) ≠ "") by discriminate.
  split; [exact H|].
  exact (execute_outcome Store.empty 100 ctx_ask 2
           (RunReturns (Some "Which part?") (Some "resp_1")) H).
Defined.

End ExecutorLaws.
(* ================================================================== *)
(** * Retrieval: batch order, cache reuse, chunk identity *)

Module RagLaws.
Import Rag RagFacts.

(** ** The order of a batch of embeddings *)

Definition by_index (a b : nat * list float) : bool := (a.1 <? b.1)%nat.

Lemma indexed_sorted (k : nat) (es : list (list float)) :
  StronglySorted (not_after by_index) (imap (λ i e, (k + i, e)%nat) es).
Proof.
  revert k. induction es as [|e es IH]; intros k; [constructor|].
  cbn [imap]. constructor.
  - rewrite (imap_ext _ (λ i e, (S k + i, e)%nat)); [apply IH|].
    intros i x _. cbn. f_equal. lia.
  - apply Forall_forall. intros x Hx.
    apply elem_of_lookup_imap in Hx as (i & y & -> & _).
    unfold not_after, by_index. cbn. apply Nat.ltb_ge. lia.
Qed.

Lemma indexed_snd (k : nat) (es : list (list float)) :
  snd <$> imap (λ i e, (k + i, e)%nat) es = es.
Proof.
  revert k. induction es as [|e es IH]; intros k; [done|].
  cbn [imap fmap list_fmap]. f_equal.
  rewrite <- (IH (S k)) at 2. f_equal. apply imap_ext. intros i x _. cbn. f_equal. lia.
Qed.

Section Batch.

Context (embeddings_create : list jsstring → Result (list (nat * list float))).

(** X21 ([embedTexts] returns the embeddings in the order of the
    inputs).  Whatever order the API lists its [data] in, when each
    entry carries the index of its input, [embedTexts] returns the
    embeddings by ascending index, the embedding of input [i] at
    position [i]. *)
Theorem embedTexts_restores_input_order
    (texts : list jsstring) (data : list (nat * list float)) (es : list (list float)) :
  embeddings_create texts = Ok data →
  data ≡ₚ imap (λ i e, (i, e)) es →
  embedTexts embeddings_create texts = Ok es.
Proof.
  intros Hapi Hperm. unfold embedTexts. rewrite Hapi. f_equal.
  fold by_index.
  assert (Hsorted : StronglySorted (not_after by_index) (sort by_index data)).
  { apply (sort_sorted by_index (λ _, True)).
    - intros x y _ _. unfold by_index. rewrite Nat.ltb_lt, Nat.ltb_ge. lia.
    - intros x y z _ _ _. unfold by_index. rewrite !Nat.ltb_lt. lia.
    - apply Forall_forall. done. }
  assert (Htarget : imap (λ i e, (i, e)) es = imap (λ i e, (0 + i, e)%nat) es)
    by (by apply imap_ext).
  assert (Heq : sort by_index data = imap (λ i e, (i, e)) es).
  { apply (StronglySorted_unique_strong (not_after by_index)).
    - intros x1 x2 H1 H2 H12 H21.
      rewrite (sort_perm by_index data), Hperm in H1.
      apply elem_of_lookup_imap in H1 as (i1 & e1 & -> & Hl1).
      apply elem_of_lookup_imap in H2 as (i2 & e2 & -> & Hl2).
      unfold not_after, by_index in H12, H21. cbn in H12, H21.
      apply Nat.ltb_ge in H12, H21. assert (i1 = i2) as -> by lia.
      congruence.
    - exact Hsorted.
    - rewrite Htarget. apply indexed_sorted.
    - by rewrite (sort_perm by_index data). }
  rewrite Heq, Htarget. apply indexed_snd.
Qed.

End Batch.

(** An API that lists the embeddings of a batch of two last first. *)
Definition api_reversed (texts : list jsstring) : Result (list (nat * list float)) :=
  Ok [(1%nat, [0; 1]%float); (0%nat, [1; 0]%float)].

Lemma embedTexts_restores_input_order_witness :
  api_reversed [lit "first"; lit "second"] = Ok [(1%nat, [0; 1]%float); (0%nat, [1; 0]%float)]
  ∧ embedTexts api_reversed [lit "first"; lit "second"] = Ok [[1; 0]%float; [0; 1]%float].
Proof.
  split; [reflexivity|].
  apply (embedTexts_restores_input_order api_reversed _ _ _ eq_refl).
  cbn [imap]. apply perm_swap.
Defined.


(** ** Reusing the snapshot *)

Section Snapshot.

Context (sha256 : jsstring → jsstring).
Context (JSON_parse : jsstring → option CacheFile).
Context (JSON_stringify : CacheFile → jsstring).
Context (embeddings_create : list jsstring → Result (list (nat * list float))).

Local Abbreviation init := (init sha256 JSON_parse JSON_stringify embeddings_create).
Local Abbreviation build := (build JSON_stringify embeddings_create).
Local Abbreviation load := (load JSON_parse).

Lemma readAll_prompts d cache files :
  readAll (mkDisk (prompts d) cache) files = readAll d files.
Proof.
  induction files as [|file files IH]; [done|].
  cbn [readAll prompts]. by rewrite IH.
Qed.

(** X22 (the snapshot written by one [init] is loaded by the next).
    When [init] succeeds and [JSON.parse] gives back the snapshot that
    [JSON.stringify] wrote, a second [init] on the disk the first one
    left returns the same count and the same index without calling the
    embedding API and without touching the disk. *)
Theorem second_init_loads_the_snapshot (d : Disk) (hash : jsstring) (r : Init) :
  computeSourceHash sha256 d = Ok hash →
  init d = Ok r →
  JSON_parse (JSON_stringify (mkCache hash EMBEDDING_MODEL (index r)))
  = Some (mkCache hash EMBEDDING_MODEL (index r)) →
  init (disk_after r) = Ok (mkInit (count r) (index r) (disk_after r) []).
Proof.
  intros Hh Hi Hjson. unfold Rag.init in Hi. rewrite Hh in Hi.
  destruct (load d hash) as [cache|] eqn:Hl.
  - injection Hi as <-. cbn [disk_after count index].
    unfold Rag.init. by rewrite Hh, Hl.
  - unfold Rag.build in Hi.
    destruct (readAll d KNOWLEDGE_FILES) as [files|] eqn:Hr; [|discriminate].
    destruct (embedTexts _ _) as [embeddings|]; [|discriminate].
    injection Hi as <-. cbn [disk_after count index] in *.
    unfold Rag.init, computeSourceHash. rewrite readAll_prompts.
    unfold computeSourceHash in Hh. rewrite Hr in Hh |- *. injection Hh as Hh.
    rewrite Hh. unfold Rag.load. cbn [cacheFile]. rewrite Hjson.
    cbn [sourceHash model cached].
    by rewrite !bool_decide_eq_true_2.
Qed.

End Snapshot.

(** A knowledge file with an introduction below the noise threshold and
    two sections. *)
Definition guide : jsstring :=
  lit "# Guide" ++ [LF; LF]
  ++ lit "## Registering an agent" ++ [LF]
  ++ lit "Call register with the owner wallet and the metadata URI of the agent." ++ [LF; LF]
  ++ lit "## Settling a payment" ++ [LF]
  ++ lit "Call settle with the receipt that the payer has signed for the service." ++ [LF].

(** An embedding API that answers every input with the same vector, and
    one that is unreachable. *)
Definition api_unit (texts : list jsstring) : Result (list (nat * list float)) :=
  Ok (imap (λ i _, (i, [1; 0]%float)) texts).

Definition api_unreachable (texts : list jsstring) : Result (list (nat * list float)) :=
  Throw "Connection error.".

(** A disk with the three knowledge files and no snapshot. *)
Definition disk_fresh : Disk := mkDisk (λ file, Some guide) None.

(** A serialisation that writes the source hash, and a parser for the
    snapshot of [disk_fresh]. *)
Definition hash_only (cache : CacheFile) : jsstring := sourceHash cache.

Definition first_index : list EmbeddedChunk :=
  match build hash_only api_unit disk_fresh [] with
  | Ok r => index r
  | Throw _ => []
  end.

Definition parse_hash (text : jsstring) : option CacheFile :=
  Some (mkCache text EMBEDDING_MODEL first_index).

Lemma second_init_loads_the_snapshot_witness :
  ∃ r, init (λ text, text) parse_hash hash_only api_unit disk_fresh = Ok r
       ∧ length (embedded r) = 1%nat
       ∧ count r = 6%nat
       ∧ init (λ text, text) parse_hash hash_only api_unit (disk_after r)
         = Ok (mkInit (count r) (index r) (disk_after r) []).
Proof.
  destruct (init (λ text, text) parse_hash hash_only api_unit disk_fresh) as [r|] eqn:Hi;
    [|by vm_compute in Hi].
  exists r. split; [reflexivity|].
  assert (r = mkInit 6 first_index
                     (mkDisk (prompts disk_fresh)
                             (Some (guide ++ guide ++ guide ++ [])))
                     [embed_text <$> (chunk <$> first_index)]) as Hr.
  { vm_compute in Hi. injection Hi as <-. vm_compute. reflexivity. }
  split; [by rewrite Hr|]. split; [by rewrite Hr|].
  apply (second_init_loads_the_snapshot (λ text, text) parse_hash hash_only api_unit
           disk_fresh (guide ++ guide ++ guide ++ []) r);
    [reflexivity | exact Hi | by rewrite Hr].
Defined.


(** ** Chunk identity *)

(** The id of the [i]-th chunk pushed for a source:
    [`${source}:${chunks.length}`]. *)
Definition top_id (source : jsstring) (i : nat) : jsstring :=
  source ++ lit ":" ++ dec i.

(** The code unit of [":"]. *)
Definition COLON : N := 58%N.

Lemma lit_inj s s' : lit s = lit s' → s = s'.
Proof.
  unfold lit. intros H.
  apply (f_equal (fmap Ascii.ascii_of_N)) in H.
  rewrite <- !list_fmap_compose in H.
  assert (Hid : ∀ l : list Ascii.ascii,
            (Ascii.ascii_of_N ∘ (λ a, Ascii.N_of_ascii a)) <$> l = l).
  { intros l. rewrite <- (list_fmap_id l) at 2. apply list_fmap_ext.
    intros i a _. apply Ascii.ascii_N_embedding. }
  rewrite !Hid in H.
  apply (f_equal String.string_of_list_ascii) in H.
  by rewrite !String.string_of_list_ascii_of_string in H.
Qed.

Lemma to_uint_nonnil n : Nat.to_uint n ≠ Decimal.Nil.
Proof.
  rewrite <- (Unsigned.of_to n) at 1. rewrite Unsigned.to_of.
  apply DecimalFacts.unorm_nonnil.
Qed.

Lemma dec_inj n n' : dec n = dec n' → n = n'.
Proof.
  unfold dec. intros H%lit_inj.
  apply Unsigned.to_uint_inj.
  pose proof (NilZero.usu _ (to_uint_nonnil n)) as H1.
  pose proof (NilZero.usu _ (to_uint_nonnil n')) as H2.
  rewrite H in H1. congruence.
Qed.

Lemma digits_no_colon d : Forall (λ c, c ≠ COLON) (lit (NilEmpty.string_of_uint d)).
Proof.
  induction d; cbn [NilEmpty.string_of_uint]; [constructor|..];
    (constructor; [by vm_compute | exact IHd]).
Qed.

Lemma dec_no_colon n : Forall (λ c, c ≠ COLON) (dec n).
Proof.
  unfold dec, NilZero.string_of_uint.
  destruct (Nat.to_uint n) eqn:E; try (rewrite <- E at 1; clear E); try apply digits_no_colon.
  constructor; [by vm_compute | constructor].
Qed.

Lemma colon_split (a a' b b' : jsstring) :
  Forall (λ c, c ≠ COLON) a → Forall (λ c, c ≠ COLON) a' →
  a ++ COLON :: b = a' ++ COLON :: b' → a = a' ∧ b = b'.
Proof.
  revert a'. induction a as [|x a IH]; intros [|x' a'] Ha Ha' H; cbn in H.
  - by injection H as ->.
  - injection H as <- _. apply Forall_cons in Ha' as [Hx _]. done.
  - injection H as -> _. apply Forall_cons in Ha as [Hx _]. done.
  - injection H as -> H. apply Forall_cons in Ha as [_ Ha].
    apply Forall_cons in Ha' as [_ Ha'].
    destruct (IH a' Ha Ha' H) as [-> ->]. done.
Qed.


(** What every chunk of a source has: the source, and a content above
    the noise threshold. *)
Definition sound (source : jsstring) (c : Chunk) : Prop :=
  Rag.source c = source ∧ long_enough (content c) = true.

(** The chunks pushed so far are sound and numbered by position. *)
Definition placed (source : jsstring) (cs : list Chunk) : Prop :=
  Forall (sound source) cs ∧ id <$> cs = imap (λ i _, top_id source i) cs.

Lemma placed_snoc source cs h text :
  long_enough text = true → placed source cs →
  placed source (cs ++ [mkChunk (top_id source (length cs)) source h text]).
Proof.
  intros Hl [Hs Hi]. split.
  - apply Forall_app. split; [done|]. by constructor.
  - rewrite fmap_app, imap_app, Hi. cbn. by rewrite Nat.add_0_r.
Qed.

Lemma flush_placed source st : placed source (chunks st) → placed source (flush source st).
Proof.
  intros H. unfold flush. destruct (currentLines st) as [|line rest]; [done|].
  destruct (long_enough _) eqn:Hl; [|done]. by apply placed_snoc.
Qed.

Lemma scan_placed source lines st :
  placed source (chunks st) →
  placed source (flush source (foldl (scan_line source) st lines)).
Proof.
  revert st. induction lines as [|line rest IH]; intros st H.
  - by apply flush_placed.
  - cbn [foldl]. apply IH. unfold scan_line.
    destruct (is_h2 line); cbn [chunks]; [by apply flush_placed | done].
Qed.

Lemma topLevel_placed source text : placed source (topLevel source text).
Proof. apply scan_placed. split; [constructor | done]. Qed.

(** The same for the sub-chunks of a chunk, numbered by [idx]. *)
Definition sub_placed (chunk : Chunk) (cs : list Chunk) : Prop :=
  Forall (sound (source chunk)) cs ∧ id <$> cs = imap (λ j _, sub_id chunk j) cs.

Lemma sub_placed_snoc chunk cs h text :
  long_enough text = true → sub_placed chunk cs →
  sub_placed chunk (cs ++ [mkChunk (sub_id chunk (length cs)) (source chunk) h text]).
Proof.
  intros Hl [Hs Hi]. split.
  - apply Forall_app. split; [done|]. by constructor.
  - rewrite fmap_app, imap_app, Hi. cbn. by rewrite Nat.add_0_r.
Qed.

Lemma sub_flush_placed chunk st :
  idx st = length (subChunks st) → sub_placed chunk (subChunks st) →
  sub_placed chunk (sub_flush chunk st).
Proof.
  intros Hn H. unfold sub_flush. destruct (subLines st) as [|line rest]; [done|].
  cbv zeta. destruct (long_enough _) eqn:Hl; [|done]. rewrite Hn. by apply sub_placed_snoc.
Qed.

Lemma sub_line_placed chunk st line :
  idx st = length (subChunks st) → sub_placed chunk (subChunks st) →
  idx (sub_line chunk st line) = length (subChunks (sub_line chunk st line))
  ∧ sub_placed chunk (subChunks (sub_line chunk st line)).
Proof.
  intros Hn H. unfold sub_line. destruct (is_h3 line); [|done].
  cbv zeta. destruct (subLines st) as [|l ls]; [done|].
  destruct (long_enough _) eqn:Hl; [|done].
  cbn [idx subChunks]. split.
  - rewrite length_app. cbn. lia.
  - rewrite Hn. by apply sub_placed_snoc.
Qed.

Lemma sub_scan_placed chunk lines st :
  idx st = length (subChunks st) → sub_placed chunk (subChunks st) →
  sub_placed chunk (sub_flush chunk (foldl (sub_line chunk) st lines)).
Proof.
  revert st. induction lines as [|line rest IH]; intros st Hn H.
  - by apply sub_flush_placed.
  - cbn [foldl]. destruct (sub_line_placed chunk st line Hn H) as [Hn' H'].
    by apply IH.
Qed.

(** The chunks that replace a chunk in the refinement pass. *)
Definition refine (c : Chunk) : list Chunk :=
  if oversized (content c) then splitBySubheadings c else [c].

Lemma refine_placed source c :
  sound source c →
  Forall (sound source) (refine c)
  ∧ (id <$> refine c = [id c]
     ∨ id <$> refine c = imap (λ j _, sub_id c j) (refine c)).
Proof.
  intros Hc. unfold refine. destruct (oversized (content c)).
  - pose proof (sub_scan_placed c (split (content c)) (mkSubScan [] (heading c) [] 0)
                                eq_refl (conj (Forall_nil_2 _) eq_refl)) as [Hs Hi].
    set (final := sub_flush c (foldl (sub_line c) (mkSubScan [] (heading c) [] 0)
                                     (split (content c)))) in *.
    assert (splitBySubheadings c = match final with [] => [c] | _ => final end) as ->
      by reflexivity.
    destruct Hc as [Hsrc Hlong]. rewrite Hsrc in Hs.
    destruct final as [|x final]; [|by split; [|right]].
    split; [|by left]. by constructor.
  - split; [|by left]. by constructor.
Qed.

(** X23 (every chunk carries its source and is above the noise
    threshold).  Each chunk [chunkMarkdown] returns for a file has that
    file as its [source] and a content longer than 50 code units,
    sub-chunks of oversized sections included. *)
Theorem chunks_are_sound (source text : jsstring) :
  Forall (λ c, Rag.source c = source ∧ (50 < length (content c))%nat)
         (chunkMarkdown source text).
Proof.
  assert (Forall (sound source) (chunkMarkdown source text)) as H.
  { unfold chunkMarkdown. fold refine.
    destruct (topLevel_placed source text) as [Hs _].
    induction Hs as [|c cs Hc _ IH]; [constructor|].
    cbn [flat_map]. apply Forall_app. split; [|exact IH].
    by apply refine_placed. }
  eapply Forall_impl; [exact H|]. intros c [Hsrc Hl]. split; [done|].
  unfold long_enough in Hl. by apply Nat.ltb_lt in Hl.
Qed.


(** The ids that derive from the [i]-th top-level chunk of a source: its
    own, and those of its sub-chunks. *)
Definition from_section (source : jsstring) (i : nat) (y : jsstring) : Prop :=
  y = top_id source i
  ∨ ∃ j, y = source ++ lit ":" ++ top_id source i ++ lit ":" ++ dec j.

Lemma from_section_inj source i i' y :
  from_section source i y → from_section source i' y → i = i'.
Proof.
  unfold from_section, top_id. change (lit ":") with [COLON].
  intros [->|[j ->]] [H|[j' H]].
  - apply app_inv_head in H. injection H as H. by apply dec_inj.
  - exfalso. apply app_inv_head in H. injection H as H.
    pose proof (dec_no_colon i) as Hd. rewrite H in Hd.
    rewrite <- !app_assoc in Hd.
    apply Forall_app in Hd as [_ Hd]. apply Forall_cons in Hd as [Hd _]. done.
  - exfalso. apply app_inv_head in H. injection H as H.
    pose proof (dec_no_colon i') as Hd. rewrite <- H in Hd.
    rewrite <- !app_assoc in Hd.
    apply Forall_app in Hd as [_ Hd]. apply Forall_cons in Hd as [Hd _]. done.
  - apply app_inv_head in H. injection H as H.
    rewrite <- !app_assoc in H. apply app_inv_head in H. injection H as H.
    apply colon_split in H as [H _]; [by apply dec_inj | apply dec_no_colon..].
Qed.

Lemma NoDup_numbered (f : nat → jsstring) (k : nat) (l : list Chunk) :
  (∀ i j, f i = f j → i = j) → NoDup (imap (λ i _, f (k + i)%nat) l).
Proof.
  intros Hf. revert k. induction l as [|c l IH]; intros k; [constructor|].
  cbn [imap]. constructor.
  - intros Hin. apply elem_of_lookup_imap in Hin as (i & y & Heq & _).
    apply Hf in Heq. cbn in Heq. lia.
  - rewrite (imap_ext _ (λ i _, f (S k + i)%nat)); [apply IH|].
    intros i x _. cbn. f_equal. lia.
Qed.

Lemma sub_id_inj c j j' : sub_id c j = sub_id c j' → j = j'.
Proof.
  unfold sub_id. intros H. do 4 apply app_inv_head in H. by apply dec_inj.
Qed.

Lemma refined_ids source k cs :
  Forall (sound source) cs →
  id <$> cs = imap (λ i _, top_id source (k + i)) cs →
  NoDup (id <$> flat_map refine cs)
  ∧ ∀ y, y ∈ id <$> flat_map refine cs → ∃ i, (k ≤ i)%nat ∧ from_section source i y.
Proof.
  intros Hs. revert k. induction Hs as [|c cs Hc Hs IH]; intros k Hi.
  - split; [constructor|]. intros y Hy. by apply elem_of_nil in Hy.
  - cbn [fmap list_fmap imap] in Hi. injection Hi as Hc0 Hi.
    rewrite Nat.add_0_r in Hc0.
    rewrite (imap_ext _ (λ i _, top_id source (S k + i)) cs) in Hi
      by (intros i x _; cbn; f_equal; lia).
    destruct (IH (S k) Hi) as [Hnd Hfrom].
    destruct (refine_placed source c Hc) as [_ Hids].
    assert (Hhere : ∀ y, y ∈ id <$> refine c → from_section source k y).
    { intros y Hy. destruct Hids as [Hids|Hids]; rewrite Hids in Hy.
      - apply list_elem_of_singleton in Hy. left. congruence.
      - apply elem_of_lookup_imap in Hy as (j & x & -> & _). right. exists j.
        unfold sub_id. destruct Hc as [-> _]. by rewrite Hc0. }
    cbn [flat_map]. rewrite fmap_app. split.
    + apply NoDup_app. split_and!; [|
        |exact Hnd].
      * destruct Hids as [->| ->]; [apply NoDup_singleton|].
        apply (NoDup_numbered (sub_id c) 0). apply sub_id_inj.
      * intros y Hy Hy'. apply Hhere in Hy. apply Hfrom in Hy' as (i & Hle & Hy').
        pose proof (from_section_inj _ _ _ _ Hy Hy'). lia.
    + intros y Hy. apply elem_of_app in Hy as [Hy|Hy].
      * exists k. split; [lia | by apply Hhere].
      * apply Hfrom in Hy as (i & Hle & Hy). exists i. split; [lia | done].
Qed.

Lemma chunkMarkdown_ids (source text : jsstring) :
  NoDup (id <$> chunkMarkdown source text)
  ∧ Forall (λ c, ∃ rest, id c = source ++ lit ":" ++ rest) (chunkMarkdown source text).
Proof.
  destruct (topLevel_placed source text) as [Hs Hi].
  destruct (refined_ids source 0 (topLevel source text) Hs Hi) as [Hnd Hfrom].
  split; [exact Hnd|].
  apply Forall_forall. intros c Hc.
  destruct (Hfrom (id c)) as (i & _ & [->|[j ->]]).
  - apply list_elem_of_fmap_2. exact Hc.
  - unfold top_id. eauto.
  - eauto.
Qed.

(** X24 (chunk ids are unique within a file).  No two chunks that
    [chunkMarkdown] returns for a file have the same [id], whatever the
    name of the file and its text, sub-chunks of oversized sections
    included; and every id starts with the name of the file and a
    colon. *)
Theorem chunk_ids_are_unique (source text : jsstring) :
  NoDup (id <$> chunkMarkdown source text)
  ∧ Forall (λ c, ∃ rest, id c = source ++ lit ":" ++ rest) (chunkMarkdown source text).
Proof. apply chunkMarkdown_ids. Qed.

Lemma ids_head (source text : jsstring) (n : N) (y : jsstring) :
  head source = Some n → y ∈ id <$> chunkMarkdown source text → head y = Some n.
Proof.
  intros Hn Hy. apply list_elem_of_fmap in Hy as (c & -> & Hc).
  destruct (chunkMarkdown_ids source text) as [_ Hp].
  rewrite Forall_forall in Hp. destruct (Hp c Hc) as [rest ->].
  destruct source; [done|]. exact Hn.
Qed.

Section BuildIds.

Context (JSON_stringify : CacheFile → jsstring).
Context (embeddings_create : list jsstring → Result (list (nat * list float))).

(** X25 (chunk ids are unique within a build).  When [init] builds the
    index from the three knowledge files, no two chunks of the index
    have the same id. *)
Theorem built_index_has_unique_ids (d : Disk) (hash : jsstring) (r : Init) :
  build JSON_stringify embeddings_create d hash = Ok r →
  NoDup (id <$> (chunk <$> index r)).
Proof.
  intros Hb. apply build_Ok in Hb as (files & Hr & -> & _).
  unfold KNOWLEDGE_FILES in Hr. cbn [readAll] in Hr.
  destruct (prompts d (lit "protocol.md")) as [t1|]; [|discriminate].
  destruct (prompts d (lit "sdk-guide.md")) as [t2|]; [|discriminate].
  destruct (prompts d (lit "faq.md")) as [t3|]; [|discriminate].
  injection Hr as <-. cbn [flat_map]. rewrite app_nil_r, !fmap_app.
  apply NoDup_app. split_and!; [apply chunkMarkdown_ids | |].
  - intros y Hy Hy'. apply (ids_head _ _ 112%N) in Hy; [|done].
    apply elem_of_app in Hy' as [Hy'|Hy'].
    + apply (ids_head _ _ 115%N) in Hy'; [|done]. congruence.
    + apply (ids_head _ _ 102%N) in Hy'; [|done]. congruence.
  - apply NoDup_app. split_and!; [apply chunkMarkdown_ids | | apply chunkMarkdown_ids].
    intros y Hy Hy'. apply (ids_head _ _ 115%N) in Hy; [|done].
    apply (ids_head _ _ 102%N) in Hy'; [|done]. congruence.
Qed.

End BuildIds.

Lemma built_index_has_unique_ids_witness :
  ∃ r, build hash_only api_unit disk_fresh [] = Ok r
       ∧ length (index r) = 6%nat
       ∧ NoDup (id <$> (chunk <$> index r)).
Proof.
  destruct (build hash_only api_unit disk_fresh []) as [r|] eqn:Hb; [|by vm_compute in Hb].
  exists r. split; [reflexivity|]. split.
  - vm_compute in Hb. injection Hb as <-. reflexivity.
  - exact (built_index_has_unique_ids hash_only api_unit disk_fresh [] r Hb).
Defined.


(** ** Edge cases of the chunker and of [init] *)

Lemma scan_plain source lines st :
  Forall (λ line, is_h2 line = false) lines →
  foldl (scan_line source) st lines
  = mkScan (chunks st) (currentHeading st) (currentLines st ++ lines).
Proof.
  intros H. revert st. induction H as [|line lines Hl _ IH]; intros st.
  - cbn. rewrite app_nil_r. by destruct st.
  - cbn [foldl]. rewrite IH. unfold scan_line. rewrite Hl.
    cbn [chunks currentHeading currentLines]. by rewrite <- app_assoc.
Qed.

(** X26 (a text without top-level heading).  When no line of the text
    starts a [## ] section and the trimmed text has at most 3000 code
    units, [chunkMarkdown] returns the whole trimmed text as the single
    chunk [source:0] under the heading ["Introduction"], or no chunk at
    all when the trimmed text has at most 50 code units, as for the
    empty text. *)
Theorem text_without_heading_is_one_chunk (source text : jsstring) :
  Forall (λ line, is_h2 line = false) (split text) →
  oversized (trim text) = false →
  chunkMarkdown source text
  = if long_enough (trim text)
    then [mkChunk (source ++ lit ":0") source (lit "Introduction") (trim text)]
    else [].
Proof.
  intros Hplain Hsize. unfold chunkMarkdown, topLevel.
  rewrite (scan_plain _ _ _ Hplain). cbn [chunks currentHeading currentLines app].
  unfold flush. cbn [currentLines chunks currentHeading].
  destruct (split text) as [|line rest] eqn:Hs; [by apply split_not_nil in Hs|].
  rewrite <- Hs, join_split.
  destruct (long_enough (trim text)); [|done].
  cbn [flat_map content app length]. by rewrite Hsize.
Qed.

Definition plain_text : jsstring :=
  [LF] ++ lit "x84 is a settlement layer for agents that pay each other on Solana." ++ [LF].

Lemma text_without_heading_is_one_chunk_witness :
  Forall (λ line, is_h2 line = false) (split plain_text)
  ∧ chunkMarkdown (lit "faq.md") plain_text
    = [mkChunk (lit "faq.md:0") (lit "faq.md") (lit "Introduction")
               (lit "x84 is a settlement layer for agents that pay each other on Solana.")]
  ∧ chunkMarkdown (lit "faq.md") [] = [].
Proof.
  assert (H : Forall (λ line, is_h2 line = false) (split plain_text))
    by (vm_compute; repeat constructor).
  assert (H0 : Forall (λ line, is_h2 line = false) (split []))
    by (vm_compute; repeat constructor).
  split; [exact H|]. split.
  - exact (text_without_heading_is_one_chunk (lit "faq.md") plain_text H eq_refl).
  - exact (text_without_heading_is_one_chunk (lit "faq.md") [] H0 eq_refl).
Defined.

Section Failures.

Context (sha256 : jsstring → jsstring).
Context (JSON_parse : jsstring → option CacheFile).
Context (JSON_stringify : CacheFile → jsstring).
Context (embeddings_create : list jsstring → Result (list (nat * list float))).

Local Abbreviation init := (init sha256 JSON_parse JSON_stringify embeddings_create).

Lemma readAll_missing d files file :
  file ∈ files → prompts d file = None →
  readAll d files = Throw "ENOENT: no such file or directory".
Proof.
  intros Hin Hn. induction files as [|f files IH]; [by apply elem_of_nil in Hin|].
  cbn [readAll]. destruct (decide (f = file)) as [->|Hne].
  - by rewrite Hn.
  - apply elem_of_cons in Hin as [->|Hin]; [done|].
    destruct (prompts d f); [|done]. by rewrite (IH Hin).
Qed.

(** X27 ([init] fails when it cannot read its sources or embed them).
    When one of the three knowledge files cannot be read, [init] throws
    the error of the read, even with a snapshot on disk.  When the files
    can be read, no valid snapshot is on disk and the embedding call
    fails, [init] throws the error of the call; it returns no index and
    writes no snapshot. *)
Theorem init_failure_is_fatal (d : Disk) :
  (∀ file, file ∈ KNOWLEDGE_FILES → prompts d file = None →
           init d = Throw "ENOENT: no such file or directory")
  ∧ (∀ files e,
       readAll d KNOWLEDGE_FILES = Ok files →
       load JSON_parse d (sha256 (concat (snd <$> files))) = None →
       embeddings_create
         (embed_text <$> flat_map (λ '(file, text), chunkMarkdown file text) files)
       = Throw e →
       init d = Throw e).
Proof.
  split.
  - intros file Hin Hn. unfold Rag.init, computeSourceHash.
    by rewrite (readAll_missing _ _ _ Hin Hn).
  - intros files e Hr Hl He. unfold Rag.init, computeSourceHash. rewrite Hr, Hl.
    unfold build, embedTexts. by rewrite Hr, He.
Qed.

End Failures.

(** A disk on which [faq.md] is missing, with some snapshot. *)
Definition disk_incomplete : Disk :=
  mkDisk (λ file, if bool_decide (file = lit "faq.md") then None else Some guide)
         (Some (lit "snapshot")).

Lemma init_failure_is_fatal_witness :
  init (λ text, text) parse_hash hash_only api_unit disk_incomplete
  = Throw "ENOENT: no such file or directory"
  ∧ init (λ text, text) parse_hash hash_only api_unreachable disk_fresh
    = Throw "Connection error.".
Proof.
  destruct (init_failure_is_fatal (λ text, text) parse_hash hash_only api_unit disk_incomplete)
    as [H _].
  destruct (init_failure_is_fatal (λ text, text) parse_hash hash_only api_unreachable disk_fresh)
    as [_ H'].
  split.
  - apply (H (lit "faq.md")); [|reflexivity].
    unfold KNOWLEDGE_FILES. apply elem_of_cons. right. apply elem_of_cons. right.
    apply list_elem_of_singleton. reflexivity.
  - by eapply H'.
Defined.


(** ** Headings *)

(** The heading of a section given by its lines: the text of the
    [## ] line that opens it, or ["Introduction"] for what precedes the
    first such line. *)
Definition heading_of (g : list jsstring) : jsstring :=
  match g with
  | line :: _ => if is_h2 line then trim (stripMarker (lit "##") line)
                 else lit "Introduction"
  | [] => lit "Introduction"
  end.

(** The heading and content kept for a section, if it is kept. *)
Definition labelled (g : list jsstring) : option (jsstring * jsstring) :=
  let text := trim (join g) in
  if long_enough text then Some (heading_of g, text) else None.

Lemma flush_labelled source st :
  currentHeading st = heading_of (currentLines st) →
  (λ c, (heading c, content c)) <$> flush source st
  = ((λ c, (heading c, content c)) <$> chunks st)
    ++ omap labelled (List.filter nonempty [currentLines st]).
Proof.
  intros Hh. unfold flush, labelled. destruct (currentLines st) as [|line rest] eqn:E.
  - cbn. by rewrite app_nil_r.
  - cbn [List.filter nonempty omap list_omap].
    destruct (long_enough _) eqn:El.
    + rewrite fmap_app. cbn. by rewrite Hh.
    + cbn. by rewrite app_nil_r.
Qed.

Lemma omap_labelled_app a b : omap labelled (a ++ b) = omap labelled a ++ omap labelled b.
Proof. apply omap_app. Qed.

Lemma scan_labelled source lines st :
  currentHeading st = heading_of (currentLines st) →
  (λ c, (heading c, content c)) <$> flush source (foldl (scan_line source) st lines)
  = ((λ c, (heading c, content c)) <$> chunks st)
    ++ omap labelled (List.filter nonempty (group_lines is_h2 (currentLines st) lines)).
Proof.
  revert st. induction lines as [|line rest IH]; intros st Hh.
  - by apply flush_labelled.
  - cbn [foldl group_lines]. unfold scan_line. destruct (is_h2 line) eqn:Hl.
    + rewrite IH by (cbn [currentHeading currentLines heading_of]; by rewrite Hl).
      cbn [chunks currentLines].
      rewrite (flush_labelled _ _ Hh), <- app_assoc. f_equal.
      rewrite <- omap_labelled_app. f_equal. by destruct (currentLines st).
    + rewrite IH; [done|]. cbn [currentHeading currentLines]. rewrite Hh.
      destruct (currentLines st) as [|l ls]; cbn [app heading_of]; [by rewrite Hl | done].
Qed.

(** X28 (each chunk is filed under the heading that opens its section).
    Before oversized sections are split, the chunks are, in order, the
    sections of the text that survive trimming and the noise threshold,
    each with the text of its [## ] line (marker and surrounding white
    space removed) as heading, and ["Introduction"] for the part of the
    text before the first [## ] line. *)
Theorem chunks_are_filed_under_their_heading (source text : jsstring) :
  (λ c, (heading c, content c)) <$> topLevel source text
  = omap (λ g, if long_enough (trim (join g))
               then Some (match g with
                          | line :: _ => if is_h2 line
                                         then trim (stripMarker (lit "##") line)
                                         else lit "Introduction"
                          | [] => lit "Introduction"
                          end, trim (join g))
               else None)
         (List.filter nonempty (group_lines is_h2 [] (split text))).
Proof. unfold topLevel. by rewrite scan_labelled. Qed.

Example guide_headings :
  (λ c, (id c, heading c)) <$> chunkMarkdown (lit "sdk-guide.md") guide
  = [(lit "sdk-guide.md:0", lit "Registering an agent");
     (lit "sdk-guide.md:1", lit "Settling a payment")].
Proof. vm_compute. reflexivity. Qed.


(** The heading of a sub-section of [chunk] given by its lines: the
    heading of the chunk, followed by [" > "] and the text of the
    [### ] line when the sub-section opens with one. *)
Definition sub_heading_of (chunk : Chunk) (g : list jsstring) : jsstring :=
  match g with
  | line :: _ => if is_h3 line
                 then heading chunk ++ lit " > " ++ trim (stripMarker (lit "###") line)
                 else heading chunk
  | [] => heading chunk
  end.

Definition sub_labelled (chunk : Chunk) (g : list jsstring)
    : option (jsstring * jsstring) :=
  let text := trim (join g) in
  if long_enough text then Some (sub_heading_of chunk g, text) else None.

Lemma sub_flush_labelled chunk st :
  subHeading st = sub_heading_of chunk (subLines st) →
  (λ c, (heading c, content c)) <$> sub_flush chunk st
  = ((λ c, (heading c, content c)) <$> subChunks st)
    ++ omap (sub_labelled chunk) (List.filter nonempty [subLines st]).
Proof.
  intros Hh. unfold sub_flush, sub_labelled. destruct (subLines st) as [|line rest] eqn:E.
  - cbn. by rewrite app_nil_r.
  - cbn [List.filter nonempty omap list_omap]. cbv zeta.
    destruct (long_enough _) eqn:El.
    + rewrite fmap_app. cbn. by rewrite Hh.
    + cbn. by rewrite app_nil_r.
Qed.

Lemma sub_line_opens chunk st line :
  is_h3 line = true →
  subHeading (sub_line chunk st line) = sub_heading_of chunk [line].
Proof.
  intros H. unfold sub_line, sub_heading_of. rewrite H. cbv zeta.
  destruct (subLines st) as [|l ls]; [done|].
  by destruct (long_enough (trim (join (l :: ls)))).
Qed.

Lemma sub_scan_labelled chunk lines st :
  subHeading st = sub_heading_of chunk (subLines st) →
  (λ c, (heading c, content c)) <$> sub_flush chunk (foldl (sub_line chunk) st lines)
  = ((λ c, (heading c, content c)) <$> subChunks st)
    ++ omap (sub_labelled chunk)
            (List.filter nonempty (group_lines is_h3 (subLines st) lines)).
Proof.
  revert st. induction lines as [|line rest IH]; intros st Hh.
  - by apply sub_flush_labelled.
  - cbn [foldl group_lines]. destruct (is_h3 line) eqn:Hl.
    + destruct (sub_line_heading chunk st line Hl) as [Hc Hs].
      rewrite IH by (rewrite Hs; by apply sub_line_opens).
      rewrite Hc, Hs, (sub_flush_labelled _ _ Hh), <- app_assoc. f_equal.
      rewrite <- omap_app. f_equal. by destruct (subLines st).
    + assert (sub_line chunk st line
              = mkSubScan (subChunks st) (subHeading st) (subLines st ++ [line]) (idx st))
        as -> by (unfold sub_line; by rewrite Hl).
      rewrite IH; [done|]. cbn [subHeading subLines]. rewrite Hh.
      destruct (subLines st) as [|l ls]; cbn [app sub_heading_of]; [by rewrite Hl | done].
Qed.

(** X29 (sub-chunks are filed under the chunk's heading and their own).
    The chunks that replace an oversized chunk are, in order, its
    sub-sections (cut at the [### ] lines) that survive trimming and the
    noise threshold, each under the heading of the chunk followed by
    [" > "] and the text of its [### ] line, the part before the first
    [### ] line under the heading of the chunk alone; when no
    sub-section survives, the chunk is kept with its heading. *)
Theorem sub_chunks_are_filed_under_both_headings (chunk : Chunk) :
  (λ c, (heading c, content c)) <$> splitBySubheadings chunk
  = match omap (λ g, if long_enough (trim (join g))
                     then Some (match g with
                                | line :: _ =>
                                    if is_h3 line
                                    then heading chunk ++ lit " > "
                                         ++ trim (stripMarker (lit "###") line)
                                    else heading chunk
                                | [] => heading chunk
                                end, trim (join g))
                     else None)
               (List.filter nonempty (group_lines is_h3 [] (split (content chunk))))
    with
    | [] => [(heading chunk, content chunk)]
    | subs => subs
    end.
Proof.
  pose proof (sub_scan_labelled chunk (split (content chunk))
                                (mkSubScan [] (heading chunk) [] 0) eq_refl) as H.
  cbn [subChunks subLines fmap list_fmap app] in H.
  set (final := sub_flush chunk (foldl (sub_line chunk) (mkSubScan [] (heading chunk) [] 0)
                                       (split (content chunk)))) in *.
  assert (splitBySubheadings chunk = match final with [] => [chunk] | _ => final end) as ->
    by reflexivity.
  change (omap _ (List.filter nonempty (group_lines is_h3 [] (split (content chunk)))))
    with (omap (sub_labelled chunk)
               (List.filter nonempty (group_lines is_h3 [] (split (content chunk))))).
  rewrite <- H. by destruct final.
Qed.

End RagLaws.
